(** * MoleMath: formula parser and chemical-equation balancer

    A shallow embedding of the balancing core of the MoleMath front end
    ([utils/chemistry/formulaParser.ts], [utils/chemistry/validator.ts],
    [utils/chemistry/equationBalancer.ts], [utils/helpers.ts] and
    [constants/chemical.ts]) together with the properties the specification
    states about it.

    Conventions of the embedding:
    - a JavaScript string is the list of its UTF-16 code units ([str]);
    - a JavaScript number is a binary64 value ([Number.t]). Where the code
      keeps a number within the integers below 2^53 (the counts of the parser,
      at most 1000; the coefficients of a parsed equation, at most 100; those
      of the search, at most 15) every operation on it is exact and the
      number is a [Z]. The fractions of the algebraic method leave that
      range: the method is embedded on [Z], which is the code as long as no
      product exceeds 2^53, and again on binary64 in the module [Double],
      which is the code on every input;
    - a computation that may [throw] lives in the monad [Exc]; [try]/[catch]
      is [catch]; a loop that needs a bound takes fuel and answers
      [OutOfFuel] when the bound is hit, which [catch] does not intercept;
    - text built by template literals is a list of [Piece]s ([Text]), so
      that messages read like the templates of the source. *)

From Stdlib Require Import ZArith NArith List Bool Lia String Ascii SpecFloat.
Import ListNotations.
Local Open Scope Z_scope.

(* ------------------------------------------------------------------ *)
(** ** JavaScript strings *)

Module JS.

Definition char := N.
Definition str := list char.

(** Decoding of a literal of this file (UTF-8 bytes) into code units; only
    the basic multilingual plane is needed. *)
Fixpoint lit (s : string) : str :=
  match s with
  | EmptyString => []
  | String a rest =>
    let b := N_of_ascii a in
    if (b <? 128)%N then b :: lit rest
    else if (b <? 224)%N then
      match rest with
      | String a2 rest2 =>
        ((b - 192) * 64 + (N_of_ascii a2 - 128))%N :: lit rest2
      | EmptyString => []
      end
    else
      match rest with
      | String a2 (String a3 rest3) =>
        ((b - 224) * 4096 + (N_of_ascii a2 - 128) * 64
         + (N_of_ascii a3 - 128))%N :: lit rest3
      | _ => []
      end
  end.

Definition between (lo hi c : N) : bool := ((lo <=? c) && (c <=? hi))%N.

(** [/[A-Z]/], [/[a-z]/], [/\d/]. *)
Definition isUpper (c : char) : bool := between 65 90 c.
Definition isLower (c : char) : bool := between 97 122 c.
Definition isDigit (c : char) : bool := between 48 57 c.

(** Line terminators: LF, CR, LS, PS (what [.] refuses to match). *)
Definition isLineTerminator (c : char) : bool :=
  ((c =? 10) || (c =? 13) || (c =? 8232) || (c =? 8233))%N.

(** [/\s/], which is also the set [String.prototype.trim] removes: the
    white space code points and the line terminators. *)
Definition isWhitespace (c : char) : bool :=
  (between 9 13 c || (c =? 32) || (c =? 160) || (c =? 5760)
   || between 8192 8202 c || (c =? 8232) || (c =? 8233) || (c =? 8239)
   || (c =? 8287) || (c =? 12288) || (c =? 65279))%N.

Definition char_eqb (a b : char) : bool := (a =? b)%N.

(** The code units of "(" and ")". *)
Definition openParen : char := 40%N.
Definition closeParen : char := 41%N.

Fixpoint str_eqb (a b : str) : bool :=
  match a, b with
  | [], [] => true
  | x :: a', y :: b' => char_eqb x y && str_eqb a' b'
  | _, _ => false
  end.

(** Comparison of strings by code units, the order of [Array.prototype.sort]
    without a comparator. *)
Fixpoint str_ltb (a b : str) : bool :=
  match a, b with
  | _, [] => false
  | [], _ :: _ => true
  | x :: a', y :: b' =>
    if (x <? y)%N then true else if (y <? x)%N then false else str_ltb a' b'
  end.

Fixpoint dropWhile {A} (p : A -> bool) (l : list A) : list A :=
  match l with
  | [] => []
  | x :: l' => if p x then dropWhile p l' else l
  end.

Fixpoint takeWhile {A} (p : A -> bool) (l : list A) : list A :=
  match l with
  | [] => []
  | x :: l' => if p x then x :: takeWhile p l' else []
  end.

Definition length (s : str) : Z := Z.of_nat (List.length s).

(** [s.trim()]. *)
Definition trim (s : str) : str :=
  rev (dropWhile isWhitespace (rev (dropWhile isWhitespace s))).

Fixpoint startsWith (prefix s : str) : bool :=
  match prefix, s with
  | [], _ => true
  | p :: prefix', c :: s' => char_eqb p c && startsWith prefix' s'
  | _ :: _, [] => false
  end.

(** [s.indexOf(needle)], [-1] when absent. *)
Fixpoint indexOf_from (needle s : str) (i : Z) : Z :=
  if startsWith needle s then i
  else match s with
       | [] => -1
       | _ :: s' => indexOf_from needle s' (i + 1)
       end.

Definition indexOf (s needle : str) : Z := indexOf_from needle s 0.

Definition includes (s needle : str) : bool := negb (indexOf s needle =? -1).

(** [s.substring(from, to)] and [s.substring(from)] for indices within the
    string, as every call of the modelled code passes them. *)
Definition substring (s : str) (from to : Z) : str :=
  firstn (Z.to_nat (to - from)) (skipn (Z.to_nat from) s).

Definition substringFrom (s : str) (from : Z) : str := skipn (Z.to_nat from) s.

(** [s.split(sep)] for a non-empty separator: [skip] counts the code units
    of a separator that is being stepped over. *)
Fixpoint split_go (sep : str) (skip : nat) (piece : str) (s : str)
  : list str :=
  match s with
  | [] => [rev piece]
  | c :: s' =>
    match skip with
    | S k => split_go sep k piece s'
    | O =>
      if startsWith sep s
      then rev piece :: split_go sep (List.length sep - 1) [] s'
      else split_go sep O (c :: piece) s'
    end
  end.

Definition split (s sep : str) : list str := split_go sep O [] s.

(** [parseInt(digits, 10)] on a run of decimal digits. *)
Definition digitValue (c : char) : Z := Z.of_N c - 48.

Definition parseInt (digits : str) : Z :=
  fold_left (fun acc c => acc * 10 + digitValue c) digits 0.

End JS.

Import JS.

Open Scope string_scope.
Open Scope list_scope.
Open Scope Z_scope.

(* ------------------------------------------------------------------ *)
(** ** JavaScript numbers *)

(** A JavaScript number: a binary64 value of IEEE 754, with the operations
    of the Standard Library's specification of that format (round to
    nearest, ties to even). *)
Module Number.

Definition prec : Z := 53.
Definition emax : Z := 1024.

Definition t := spec_float.

Definition NaN : t := S754_nan.
Definition zero : t := S754_zero false.

(** The double nearest to an integer. *)
Definition of_Z (z : Z) : t := binary_normalize prec emax z 0 false.

Definition one : t := of_Z 1.

Definition add : t -> t -> t := SFadd prec emax.
Definition sub : t -> t -> t := SFsub prec emax.
Definition mul : t -> t -> t := SFmul prec emax.
Definition div : t -> t -> t := SFdiv prec emax.
Definition neg : t -> t := SFopp.
Definition abs : t -> t := SFabs.

(** [x === y], [x < y], [x <= y] and [x > y]; each is [false] when an
    operand is [NaN]. *)
Definition eqb : t -> t -> bool := SFeqb.
Definition ltb : t -> t -> bool := SFltb.
Definition leb : t -> t -> bool := SFleb.
Definition gtb (x y : t) : bool := SFltb y x.

(** [x % y]: [NaN] when [x] is not finite or [y] is zero or [NaN]; [x]
    when [y] is infinite or [x] is zero; otherwise the remainder of the
    truncating division, which carries the sign of [x] and is a double, so
    that no rounding takes place. *)
Definition rem (x y : t) : t :=
  match x, y with
  | S754_nan, _ | _, S754_nan => S754_nan
  | S754_infinity _, _ => S754_nan
  | _, S754_zero _ => S754_nan
  | S754_zero _, _ => x
  | S754_finite _ _ _, S754_infinity _ => x
  | S754_finite sx mx ex, S754_finite _ my ey =>
    let e := Z.min ex ey in
    let a := Z.shiftl (Zpos mx) (ex - e) in
    let b := Z.shiftl (Zpos my) (ey - e) in
    binary_normalize prec emax (cond_Zopp sx (Z.rem a b)) e sx
  end.

(** [Math.round(x)]: the integer nearest to [x], the larger one of two that
    are equally near; a zero result keeps the sign of [x]. *)
Definition round (x : t) : t :=
  match x with
  | S754_finite s m e =>
    if 0 <=? e then x
    else
      let n := - e in
      let z := Z.shiftr (2 * cond_Zopp s (Zpos m) + Z.shiftl 1 n) (n + 1) in
      binary_normalize prec emax z 0 s
  | _ => x
  end.

End Number.

(* ------------------------------------------------------------------ *)
(** ** Text produced by template literals *)

(** A piece of a template literal: literal text, an interpolated string,
    an interpolated integer and an interpolated double; [Native] is the
    message text a JavaScript engine gives to an error of its own. *)
Inductive Piece :=
| Lit (s : string)
| Sub (s : str)
| Int (z : Z)
| Num (x : Number.t)
| Native.

Definition Text := list Piece.

(** [parts.join(sep)]. *)
Fixpoint join (sep : Text) (parts : list Text) : Text :=
  match parts with
  | [] => []
  | [p] => p
  | p :: rest => p ++ sep ++ join sep rest
  end.

(* ------------------------------------------------------------------ *)
(** ** Exceptions *)

Inductive ErrorName := Error | TypeError | RangeError.

Record JsError := { name : ErrorName; message : Text }.

(** [`${error}`]: the name, a colon and the message. *)
Definition errorToString (e : JsError) : Text :=
  match name e with
  | Error => Lit "Error: " :: message e
  | TypeError => Lit "TypeError: " :: message e
  | RangeError => Lit "RangeError: " :: message e
  end.

(** [new Error(msg)], and the [TypeError] of a property read on
    [undefined]. *)
Definition newError (msg : Text) : JsError := {| name := Error; message := msg |}.
Definition undefinedAccess : JsError := {| name := TypeError; message := [Native] |}.

(** The [RangeError] of a recursion that exhausts the call stack. *)
Definition stackOverflow : JsError := {| name := RangeError; message := [Native] |}.

Inductive Exc (A : Type) :=
| Ok (a : A)
| Throw (e : JsError)
| OutOfFuel.
Arguments Ok {A} a.
Arguments Throw {A} e.
Arguments OutOfFuel {A}.

Definition ret {A} (a : A) : Exc A := Ok a.

Definition bind {A B} (m : Exc A) (k : A -> Exc B) : Exc B :=
  match m with
  | Ok a => k a
  | Throw e => Throw e
  | OutOfFuel => OutOfFuel
  end.

(** [try { body } catch (error) { handler }]. *)
Definition catch {A} (body : Exc A) (handler : JsError -> Exc A) : Exc A :=
  match body with
  | Throw e => handler e
  | m => m
  end.

Notation "x <- m ;; k" := (bind m (fun x => k))
  (at level 61, m at next level, right associativity).
Notation "' pat <- m ;; k" := (bind m (fun x => match x with pat => k end))
  (at level 61, pat pattern, m at next level, right associativity).

(** A [for ... of] loop whose body may throw, threading the loop state. *)
Fixpoint foldM {A B} (f : A -> B -> Exc A) (a : A) (l : list B) : Exc A :=
  match l with
  | [] => ret a
  | x :: l' => a' <- f a x ;; foldM f a' l'
  end.

(** [list.map(f)] for an [f] that may throw. *)
Fixpoint mapM {A B} (f : A -> Exc B) (l : list A) : Exc (list B) :=
  match l with
  | [] => ret []
  | x :: l' => y <- f x ;; ys <- mapM f l' ;; ret (y :: ys)
  end.

(** The computation returns normally. *)
Definition returns {A} (m : Exc A) : Prop := exists a, m = Ok a.

(** Computations that append to a shared trace (the array [allSteps] of the
    algebraic method) and may throw: the trace is kept when an exception
    passes, as the [catch] block reads it afterwards. *)
Definition Traced (A : Type) := list Text -> Exc A * list Text.

Definition retT {A} (a : A) : Traced A := fun trace => (Ok a, trace).

Definition bindT {A B} (m : Traced A) (k : A -> Traced B) : Traced B :=
  fun trace =>
    let '(outcome, trace) := m trace in
    match outcome with
    | Ok a => k a trace
    | Throw e => (Throw e, trace)
    | OutOfFuel => (OutOfFuel, trace)
    end.

Definition liftT {A} (m : Exc A) : Traced A := fun trace => (m, trace).

(** [steps.push(step)] and a read of the trace. *)
Definition pushT (step : Text) : Traced unit :=
  fun trace => (Ok tt, trace ++ [step]).

Definition getT : Traced (list Text) := fun trace => (Ok trace, trace).

Notation "x <~ m ;; k" := (bindT m (fun x => k))
  (at level 61, m at next level, right associativity).
Notation "' pat <~ m ;; k" := (bindT m (fun x => match x with pat => k end))
  (at level 61, pat pattern, m at next level, right associativity).

Fixpoint foldT {A B} (f : A -> B -> Traced A) (a : A) (l : list B) : Traced A :=
  match l with
  | [] => retT a
  | x :: l' => a' <~ f a x ;; foldT f a' l'
  end.

(** [try { body } catch (error) { handler }] around a traced body that
    starts from the empty trace; the handler sees the trace as the
    exception left it. *)
Definition tryT {A} (body : Traced A) (handler : JsError -> list Text -> Exc A)
  : Exc A :=
  let '(outcome, trace) := body [] in
  match outcome with
  | Throw e => handler e trace
  | m => m
  end.

(* ------------------------------------------------------------------ *)
(** ** [constants/chemical.ts] *)

Module VALIDATION_LIMITS.
Definition MAX_ATOMS_PER_MOLECULE : Z := 1000.
Definition MAX_COEFFICIENT : Z := 100.
Definition MAX_FORMULA_LENGTH : Z := 50.
End VALIDATION_LIMITS.

Module ERROR_MESSAGES.
Module PARSING.
Definition INVALID_FORMULA : Text := [Lit "Fórmula química no válida"].
Definition INVALID_ELEMENT : Text := [Lit "Elemento químico no encontrado"].
Definition INVALID_SYNTAX : Text := [Lit "Sintaxis incorrecta en la fórmula"].
Definition EMPTY_FORMULA : Text := [Lit "La fórmula no puede estar vacía"].
Definition FORMULA_TOO_LONG : Text := [Lit "La fórmula es demasiado larga"].
End PARSING.
Module VALIDATION.
Definition VALUE_TOO_LARGE : Text := [Lit "El valor es demasiado grande"].
End VALIDATION.
Module BALANCE.
Definition CANNOT_BALANCE : Text := [Lit "No se puede balancear la ecuación"].
End BALANCE.
End ERROR_MESSAGES.

(* ------------------------------------------------------------------ *)
(** ** Regular expressions of [VALIDATION_PATTERNS] *)

(** Regular expressions without captures; [RegExp.prototype.test] on an
    expression anchored at both ends decides membership in its language,
    which [matches] computes by derivatives. *)
Module Regex.

Inductive t :=
| Empty
| Eps
| Class (p : char -> bool)
| Seq (r1 r2 : t)
| Alt (r1 r2 : t)
| Star (r : t).

Definition Opt (r : t) : t := Alt r Eps.
Definition Chr (c : string) : t :=
  Class (fun x => match lit c with [y] => char_eqb x y | _ => false end).

Fixpoint nullable (r : t) : bool :=
  match r with
  | Empty => false
  | Eps => true
  | Class _ => false
  | Seq r1 r2 => nullable r1 && nullable r2
  | Alt r1 r2 => nullable r1 || nullable r2
  | Star _ => true
  end.

Definition seq (r1 r2 : t) : t :=
  match r1, r2 with
  | Empty, _ => Empty
  | _, Empty => Empty
  | Eps, _ => r2
  | _, _ => Seq r1 r2
  end.

Definition alt (r1 r2 : t) : t :=
  match r1, r2 with
  | Empty, _ => r2
  | _, Empty => r1
  | _, _ => Alt r1 r2
  end.

Fixpoint deriv (c : char) (r : t) : t :=
  match r with
  | Empty => Empty
  | Eps => Empty
  | Class p => if p c then Eps else Empty
  | Seq r1 r2 =>
    if nullable r1 then alt (seq (deriv c r1) r2) (deriv c r2)
    else seq (deriv c r1) r2
  | Alt r1 r2 => alt (deriv c r1) (deriv c r2)
  | Star r1 => seq (deriv c r1) (Star r1)
  end.

Fixpoint matches (r : t) (s : str) : bool :=
  match s with
  | [] => nullable r
  | c :: s' => matches (deriv c r) s'
  end.

End Regex.

Module VALIDATION_PATTERNS.
Import Regex.

(** The recurring group of the pattern: an upper-case letter, an optional
    lower-case letter and a run of digits. *)
Definition elementCount : Regex.t :=
  Seq (Class isUpper) (Seq (Opt (Class isLower)) (Star (Class isDigit))).

(** [BASIC_FORMULA], anchored at both ends: a group, then any number of
    items, each one of (1) a parenthesised group followed by digits, (2) a
    parenthesised run of one or more groups followed by digits, (3) a
    group. *)
Definition BASIC_FORMULA : Regex.t :=
  Seq elementCount
    (Star
       (Alt (Seq (Chr "(") (Seq elementCount (Seq (Chr ")") (Star (Class isDigit)))))
          (Alt (Seq (Chr "(")
                  (Seq elementCount
                     (Seq (Star elementCount)
                        (Seq (Chr ")") (Star (Class isDigit))))))
             elementCount))).

End VALIDATION_PATTERNS.

(* ------------------------------------------------------------------ *)
(** ** Data model ([types/chemistry.ts]) *)

Module TokenType.
Inductive t := element | number | open_paren | close_paren.
End TokenType.

Module Token.
Record t := make { type : TokenType.t; value : str; position : Z }.
End Token.

(** A [Record<string, number>] whose keys are element symbols: the entries
    in insertion order, which is the order [Object.entries] yields them in
    (no symbol is an integer-like key). *)
Definition Dict := list (str * Z).

Fixpoint dict_get (d : Dict) (key : str) : option Z :=
  match d with
  | [] => None
  | (k, v) :: d' => if str_eqb k key then Some v else dict_get d' key
  end.

(** [d[key] || 0]. *)
Definition dict_get_or_0 (d : Dict) (key : str) : Z :=
  match dict_get d key with
  | Some v => v
  | None => 0
  end.

(** [d[key] = v]: an existing key keeps its place, a new one goes last. *)
Fixpoint dict_set (d : Dict) (key : str) (v : Z) : Dict :=
  match d with
  | [] => [(key, v)]
  | (k, w) :: d' =>
    if str_eqb k key then (k, v) :: d' else (k, w) :: dict_set d' key v
  end.

Module ParseResult.
Record t := make { elements : Dict; isValid : bool; error : option Text }.
End ParseResult.

Module ParsedElement.
Record t := make { symbol : str; count : Z }.
End ParsedElement.

Module ParsedFormula.
Record t := make {
  elements : list ParsedElement.t;
  formula : str;
  isValid : bool;
  error : option Text }.
End ParsedFormula.

Module EquationCompound.
Record t := make { formula : str; coefficient : Z }.
End EquationCompound.

Module ChemicalEquation.
Record t := make {
  reactants : list EquationCompound.t;
  products : list EquationCompound.t }.
End ChemicalEquation.

Module ElementBalance.
Record t := make {
  element : str;
  reactantCount : Z;
  productCount : Z;
  isBalanced : bool }.
End ElementBalance.

Module EquationParseResult.
Record t := make {
  reactants : list EquationCompound.t;
  products : list EquationCompound.t;
  allElements : list str;
  isValid : bool;
  error : option Text }.
End EquationParseResult.

(** The default branch of the dispatch in [balanceChemicalEquation] is kept
    reachable through [other_method]. *)
Inductive BalanceMethod :=
| trial_and_error
| algebraic
| other_method (name : str).

Module BalanceStep.
Record t := make {
  stepNumber : Z;
  description : Text;
  equation : Text;
  elementCount : option (list (str * (Z * Z))) }.
End BalanceStep.

Module BalanceResult.
Record t := make {
  originalEquation : ChemicalEquation.t;
  balancedReactants : list EquationCompound.t;
  balancedProducts : list EquationCompound.t;
  balancedEquation : Text;
  method : BalanceMethod;
  steps : list BalanceStep.t;
  isValid : bool;
  error : option Text }.
End BalanceResult.

Module BalanceInput.
Record t := make { equation : str; method : option BalanceMethod }.
End BalanceInput.

Module ValidationResult.
Record t := make { isValid : bool; errors : list Text }.
End ValidationResult.

(* ------------------------------------------------------------------ *)
(** ** [utils/chemistry/formulaParser.ts] *)

Definition consToken (t : Token.t) (rest : option (list Token.t))
  : option (list Token.t) :=
  match rest with
  | Some ts => Some (t :: ts)
  | None => None
  end.

(** The scanning loop of [tokenize], started at index [position] on the
    code units from there on. [None] is the early [return []] on a code
    unit that starts no token. The inner [digits] is the inner [while]
    that extends a number. *)
Fixpoint tokenize_from (position : Z) (formula : str) {struct formula}
  : option (list Token.t) :=
  match formula with
  | [] => Some []
  | char :: rest =>
    if isUpper char then
      match rest with
      | next :: rest' =>
        if isLower next
        then consToken (Token.make TokenType.element [char; next] (position + 1))
                       (tokenize_from (position + 2) rest')
        else consToken (Token.make TokenType.element [char] position)
                       (tokenize_from (position + 1) rest)
      | [] => Some [Token.make TokenType.element [char] position]
      end
    else if isDigit char then
      (fix digits (num : str) (position : Z) (rest : str) {struct rest}
         : option (list Token.t) :=
         match rest with
         | next :: rest' =>
           if isDigit next
           then digits (num ++ [next]) (position + 1) rest'
           else consToken (Token.make TokenType.number num position)
                          (tokenize_from (position + 1) rest)
         | [] => Some [Token.make TokenType.number num position]
         end) [char] position rest
    else if char_eqb char openParen then
      consToken (Token.make TokenType.open_paren [char] position)
                (tokenize_from (position + 1) rest)
    else if char_eqb char closeParen then
      consToken (Token.make TokenType.close_paren [char] position)
                (tokenize_from (position + 1) rest)
    else if isWhitespace char then
      tokenize_from (position + 1) rest
    else None
  end.

Definition tokenize (formula : str) : list Token.t :=
  match tokenize_from 0 formula with
  | Some tokens => tokens
  | None => []
  end.

(** [!s] for a string. *)
Definition isEmptyString (s : str) : bool :=
  match s with
  | [] => true
  | _ => false
  end.

Definition validateFormulaSyntax (formula : str) : bool :=
  if isEmptyString formula || (JS.length (trim formula) =? 0) then false
  else
    let cleanFormula := trim formula in
    if negb (Regex.matches VALIDATION_PATTERNS.BASIC_FORMULA cleanFormula)
    then false
    else
      (fix loop (parenCount : Z) (chars : str) : bool :=
         match chars with
         | [] => parenCount =? 0
         | char :: chars' =>
           let parenCount := if char_eqb char openParen then parenCount + 1 else parenCount in
           let parenCount := if char_eqb char closeParen then parenCount - 1 else parenCount in
           if parenCount <? 0 then false else loop parenCount chars'
         end) 0 cleanFormula.

(** The class of "/^[A-Za-z0-9()]+$/". *)
Definition isFormulaChar (c : char) : bool :=
  isUpper c || isLower c || isDigit c || char_eqb c openParen || char_eqb c closeParen.

Definition normalizeFormula (formula : str) : str :=
  if isEmptyString formula then []
  else
    let normalized := filter (fun c => negb (isWhitespace c)) (trim formula) in
    if negb (Regex.matches
               (Regex.Seq (Regex.Class isFormulaChar)
                          (Regex.Star (Regex.Class isFormulaChar)))
               normalized)
    then []
    else normalized.

Section Validation.

(** Modelled from the spec: the element table [shared/periodic-table.json]
    read by [data/periodicTable.ts] is not among the sources. The spec makes
    the element lookup an external validity oracle, so the symbols of the
    table are a parameter of the whole development; [isValidElement] is
    the lookup [getElement(symbol) !== undefined] in the map built from
    it. *)
Variable periodicTable : list str.

Definition isValidElement (symbol : str) : bool :=
  existsb (str_eqb symbol) periodicTable.

(** [FormulaParser]: the cursor [this.position] over [this.tokens] is the
    list of the tokens from the cursor on, handed from call to call. *)

Definition parseElement (elementToken : Token.t) (rest : list Token.t)
           (elements : Dict) : Exc (Dict * list Token.t) :=
  if negb (isValidElement (Token.value elementToken))
  then Throw (newError (ERROR_MESSAGES.PARSING.INVALID_ELEMENT
                          ++ [Lit ": "; Sub (Token.value elementToken)]))
  else
    let add count :=
      dict_set elements (Token.value elementToken)
               (dict_get_or_0 elements (Token.value elementToken) + count) in
    match rest with
    | token :: rest' =>
      match Token.type token with
      | TokenType.number =>
        let count := parseInt (Token.value token) in
        if (count <=? 0) || (count >? VALIDATION_LIMITS.MAX_ATOMS_PER_MOLECULE)
        then Throw (newError ERROR_MESSAGES.VALIDATION.VALUE_TOO_LARGE)
        else ret (add count, rest')
      | _ => ret (add 1, rest)
      end
    | [] => ret (add 1, [])
    end.

(** The merge loop at the end of [parseParentheses]. *)
Definition mergeGroup (elements groupElements : Dict) (multiplier : Z) : Dict :=
  fold_left
    (fun elements '(element, count) =>
       dict_set elements element
                (dict_get_or_0 elements element + count * multiplier))
    groupElements elements.

(** [parseParentheses], called with the cursor on the opening parenthesis
    already stepped over; [parseGroup] is the recursive call. *)
Definition parseParentheses
           (parseGroup : list Token.t -> Exc (Dict * list Token.t))
           (rest : list Token.t) (elements : Dict)
  : Exc (Dict * list Token.t) :=
  '(groupElements, rest) <- parseGroup rest ;;
  match rest with
  | token :: rest' =>
    match Token.type token with
    | TokenType.close_paren =>
      match rest' with
      | token' :: rest'' =>
        match Token.type token' with
        | TokenType.number =>
          let multiplier := parseInt (Token.value token') in
          if (multiplier <=? 0)
             || (multiplier >? VALIDATION_LIMITS.MAX_ATOMS_PER_MOLECULE)
          then Throw (newError ERROR_MESSAGES.VALIDATION.VALUE_TOO_LARGE)
          else ret (mergeGroup elements groupElements multiplier, rest'')
        | _ => ret (mergeGroup elements groupElements 1, rest')
        end
      | [] => ret (mergeGroup elements groupElements 1, [])
      end
    | _ => Throw (newError ERROR_MESSAGES.PARSING.INVALID_SYNTAX)
    end
  | [] => Throw (newError ERROR_MESSAGES.PARSING.INVALID_SYNTAX)
  end.

(** The [while] loop of [parseGroup] on the dictionary [elements] built so
    far; every turn and every nested group uses up one unit of fuel. *)
Fixpoint parseGroup_loop (fuel : nat) (elements : Dict) (tokens : list Token.t)
  : Exc (Dict * list Token.t) :=
  match fuel with
  | O => OutOfFuel
  | S fuel' =>
    match tokens with
    | [] => ret (elements, [])
    | token :: rest =>
      match Token.type token with
      | TokenType.element =>
        '(elements, rest) <- parseElement token rest elements ;;
        parseGroup_loop fuel' elements rest
      | TokenType.open_paren =>
        '(elements, rest) <-
           parseParentheses (parseGroup_loop fuel' []) rest elements ;;
        parseGroup_loop fuel' elements rest
      | TokenType.close_paren => ret (elements, tokens)
      | TokenType.number => Throw (newError ERROR_MESSAGES.PARSING.INVALID_SYNTAX)
      end
    end
  end.

Definition parseGroup (fuel : nat) (tokens : list Token.t)
  : Exc (Dict * list Token.t) :=
  parseGroup_loop fuel [] tokens.

(** [FormulaParser.parse]; the fuel is one more than the number of
    tokens. *)
Definition parse (tokens : list Token.t) : Exc ParseResult.t :=
  catch
    ('(elements, rest) <- parseGroup (S (List.length tokens)) tokens ;;
     match rest with
     | _ :: _ =>
       ret (ParseResult.make [] false (Some ERROR_MESSAGES.PARSING.INVALID_SYNTAX))
     | [] => ret (ParseResult.make elements true None)
     end)
    (fun error => ret (ParseResult.make [] false (Some (message error)))).

Definition parseChemicalFormula (formula : str) : Exc ParsedFormula.t :=
  if isEmptyString formula || (JS.length (trim formula) =? 0)
  then ret (ParsedFormula.make [] [] false
              (Some ERROR_MESSAGES.PARSING.EMPTY_FORMULA))
  else
    let cleanFormula := trim formula in
    if JS.length cleanFormula >? VALIDATION_LIMITS.MAX_FORMULA_LENGTH
    then ret (ParsedFormula.make [] cleanFormula false
                (Some ERROR_MESSAGES.PARSING.FORMULA_TOO_LONG))
    else
      let tokens := tokenize cleanFormula in
      if Z.of_nat (List.length tokens) =? 0
      then ret (ParsedFormula.make [] cleanFormula false
                  (Some ERROR_MESSAGES.PARSING.INVALID_SYNTAX))
      else
        parseResult <- parse tokens ;;
        if negb (ParseResult.isValid parseResult)
        then ret (ParsedFormula.make [] cleanFormula false
                    (ParseResult.error parseResult))
        else
          let elements :=
            map (fun '(symbol, count) => ParsedElement.make symbol count)
                (ParseResult.elements parseResult) in
          let totalAtoms :=
            fold_left (fun sum element => sum + ParsedElement.count element)
                      elements 0 in
          if totalAtoms >? VALIDATION_LIMITS.MAX_ATOMS_PER_MOLECULE
          then ret (ParsedFormula.make [] cleanFormula false
                      (Some ERROR_MESSAGES.VALIDATION.VALUE_TOO_LARGE))
          else ret (ParsedFormula.make elements cleanFormula true None).

(* ------------------------------------------------------------------ *)
(** ** [utils/chemistry/validator.ts]

    Only the [isValid] and [errors] fields of a [ValidationResult] are
    modelled; the [warnings] are read by no function of the balancer. *)

(** A template text that denotes the empty string. *)
Definition isEmptyText (t : Text) : bool :=
  forallb (fun piece =>
             match piece with
             | Lit EmptyString => true
             | Sub [] => true
             | _ => false
             end) t.

Definition validateChemicalFormula (formula : str) : Exc ValidationResult.t :=
  if isEmptyString formula || (JS.length (trim formula) =? 0)
  then ret (ValidationResult.make false [ERROR_MESSAGES.PARSING.EMPTY_FORMULA])
  else
    let cleanFormula := trim formula in
    if JS.length cleanFormula >? VALIDATION_LIMITS.MAX_FORMULA_LENGTH
    then ret (ValidationResult.make false [ERROR_MESSAGES.PARSING.FORMULA_TOO_LONG])
    else if negb (validateFormulaSyntax cleanFormula)
    then ret (ValidationResult.make false [ERROR_MESSAGES.PARSING.INVALID_SYNTAX])
    else
      parsed <- parseChemicalFormula cleanFormula ;;
      if negb (ParsedFormula.isValid parsed)
      then
        ret (ValidationResult.make false
               [match ParsedFormula.error parsed with
                | Some e => if isEmptyText e
                            then ERROR_MESSAGES.PARSING.INVALID_FORMULA else e
                | None => ERROR_MESSAGES.PARSING.INVALID_FORMULA
                end])
      else
        let errors :=
          flat_map
            (fun element =>
               let symbol := ParsedElement.symbol element in
               let count := ParsedElement.count element in
               (if negb (isValidElement symbol)
                then [ERROR_MESSAGES.PARSING.INVALID_ELEMENT
                        ++ [Lit ": "; Sub symbol]]
                else [])
               ++ (if count <=? 0
                   then [[Lit "Cantidad inválida para "; Sub symbol;
                          Lit ": "; Int count]]
                   else [])
               ++ (if count >? VALIDATION_LIMITS.MAX_ATOMS_PER_MOLECULE
                   then [[Lit "Demasiados átomos de "; Sub symbol;
                          Lit ": "; Int count]]
                   else []))
            (ParsedFormula.elements parsed) in
        ret (ValidationResult.make (Z.of_nat (List.length errors) =? 0) errors).

(** [list.map((x, i) => f(x, i))]. *)
Fixpoint mapi_from {A B} (i : Z) (f : A -> Z -> B) (l : list A) : list B :=
  match l with
  | [] => []
  | x :: l' => f x i :: mapi_from (i + 1) f l'
  end.

Definition mapi {A B} (f : A -> Z -> B) (l : list A) : list B := mapi_from 0 f l.

(** The two validation loops of [validateChemicalEquation] over the
    formulas of one side; [label] is "Reactivo" or "Producto". *)
Definition validateSide (label : string) (formulas : list str)
  : Exc (list Text) :=
  errs <- mapM (fun '(formula, i) =>
                  if isEmptyString formula then ret []
                  else
                    validation <- validateChemicalFormula formula ;;
                    if negb (ValidationResult.isValid validation)
                    then ret [[Lit label; Lit " "; Int (i + 1); Lit " (";
                               Sub formula; Lit "): "]
                              ++ join [Lit ", "]
                                      (ValidationResult.errors validation)]
                    else ret [])
               (mapi (fun formula i => (formula, i)) formulas) ;;
  ret (List.concat errs).

(** The arrow tokens; [arrowGlyph] is the single code unit U+2192. *)
Definition arrowGlyph : str := lit "→".
Definition arrowAscii : str := lit "->".
Definition arrowEquals : str := lit "=".

Definition validateChemicalEquation (equation : str) : Exc ValidationResult.t :=
  if isEmptyString equation || (JS.length (trim equation) =? 0)
  then ret (ValidationResult.make false [[Lit "La ecuación no puede estar vacía"]])
  else
    let arrowPatterns := [arrowGlyph; arrowAscii; arrowEquals; arrowGlyph] in
    match find (fun arrow => includes equation arrow) arrowPatterns with
    | None =>
      ret (ValidationResult.make false
             [[Lit "La ecuación debe contener un símbolo de reacción (→, ->, =)"]])
    | Some arrowSymbol =>
      match split equation arrowSymbol with
      | [reactantsStr; productsStr] =>
        let errors :=
          (if isEmptyString (trim reactantsStr)
           then [[Lit "La ecuación debe tener reactivos"]] else [])
          ++ (if isEmptyString (trim productsStr)
              then [[Lit "La ecuación debe tener productos"]] else []) in
        if Z.of_nat (List.length errors) >? 0
        then ret (ValidationResult.make false errors)
        else
          let stripCoefficient (f : str) := dropWhile isDigit (trim f) in
          let reactantFormulas :=
            map stripCoefficient (split reactantsStr (lit "+")) in
          let productFormulas :=
            map stripCoefficient (split productsStr (lit "+")) in
          reactantErrors <- validateSide "Reactivo" reactantFormulas ;;
          productErrors <- validateSide "Producto" productFormulas ;;
          let errors := errors ++ reactantErrors ++ productErrors in
          ret (ValidationResult.make (Z.of_nat (List.length errors) =? 0) errors)
      | _ =>
        ret (ValidationResult.make false
               [[Lit "La ecuación debe tener exactamente un símbolo de reacción"]])
      end
    end.

End Validation.

(* ------------------------------------------------------------------ *)
(** ** [utils/helpers.ts] *)

Module Helpers.

(** The loop of [gcdTwo] on the absolute values; it runs at most [b] + 1
    times, which is the fuel [gcdTwo] gives it. *)
Fixpoint gcdTwo_loop (fuel : nat) (a b : Z) : Exc Z :=
  if b =? 0 then ret a
  else match fuel with
       | O => OutOfFuel
       | S fuel' => gcdTwo_loop fuel' b (Z.rem a b)
       end.

Definition gcdTwo (a b : Z) : Exc Z :=
  let a := Z.abs a in
  let b := Z.abs b in
  gcdTwo_loop (Z.to_nat b) a b.

(** [numbers.reduce(f)] without an initial value, on a non-empty array. *)
Definition reduce1 (f : Z -> Z -> Exc Z) (numbers : list Z) (empty : Z) : Exc Z :=
  match numbers with
  | [] => ret empty
  | first :: rest => foldM f first rest
  end.

Definition gcd (numbers : list Z) : Exc Z :=
  match numbers with
  | [] => ret 1
  | [n] => ret (Z.abs n)
  | _ => reduce1 (fun acc curr => gcdTwo acc (Z.abs curr)) numbers 1
  end.

(** The quotient in [lcmTwo] is exact whenever the divisor is not zero. *)
Definition lcm (numbers : list Z) : Exc Z :=
  match numbers with
  | [] => ret 1
  | [n] => ret (Z.abs n)
  | _ =>
    reduce1 (fun acc curr =>
               let a := acc in
               let b := Z.abs curr in
               g <- gcd [a; b] ;;
               ret (Z.abs (a * b) / g))
            numbers 1
  end.

End Helpers.

(* ------------------------------------------------------------------ *)
(** ** [utils/chemistry/equationBalancer.ts]: exact fractions *)

Module RobustFraction.

Record t := make { num : Z; den : Z }.

(** The private recursive [gcd] on non-negative arguments; the recursion
    is at most [b] + 1 deep. *)
Fixpoint gcd_rec (fuel : nat) (a b : Z) : Exc Z :=
  if b =? 0 then ret a
  else match fuel with
       | O => OutOfFuel
       | S fuel' => gcd_rec fuel' b (Z.rem a b)
       end.

Definition gcd (a b : Z) : Exc Z := gcd_rec (Z.to_nat b) a b.

(** [new RobustFraction(numerator, denominator)]. *)
Definition new (numerator denominator : Z) : Exc t :=
  if denominator =? 0
  then Throw (newError [Lit "División por cero en fracción"])
  else
    let '(numerator, denominator) :=
      if denominator <? 0 then (- numerator, - denominator)
      else (numerator, denominator) in
    g <- gcd (Z.abs numerator) (Z.abs denominator) ;;
    ret (make (numerator / g) (denominator / g)).

(** [new RobustFraction(numerator)], the denominator defaulting to 1. *)
Definition of_int (numerator : Z) : Exc t := new numerator 1.

Definition add (this other : t) : Exc t :=
  new (num this * den other + num other * den this) (den this * den other).

Definition subtract (this other : t) : Exc t :=
  new (num this * den other - num other * den this) (den this * den other).

Definition multiply (this other : t) : Exc t :=
  new (num this * num other) (den this * den other).

Definition divide (this other : t) : Exc t :=
  if num other =? 0
  then Throw (newError [Lit "División por cero"])
  else new (num this * den other) (den this * num other).

Definition isZero (this : t) : bool := num this =? 0.

Definition isOne (this : t) : bool := num this =? den this.

(** [a.toDecimal() > b.toDecimal()], used by the pivot search only: the
    two quotients are compared as rationals, the denominators being
    positive (each double is the rounding of its quotient, and rounding
    keeps the order of quotients that are not within one rounding error of
    each other). *)
Definition toDecimal_gtb (a b : t) : bool :=
  num a * den b >? num b * den a.

Definition toString (this : t) : Text :=
  if den this =? 1 then [Int (num this)]
  else [Int (num this); Lit "/"; Int (den this)].

Definition abs (this : t) : Exc t := new (Z.abs (num this)) (den this).

Definition negate (this : t) : Exc t := new (- num this) (den this).

(** The class invariant: positive denominator, lowest terms. *)
Definition wf (f : t) : Prop :=
  0 < den f /\ Z.gcd (Z.abs (num f)) (den f) = 1.

End RobustFraction.

(* ------------------------------------------------------------------ *)
(** ** [utils/chemistry/equationBalancer.ts]: parsing an equation *)

(** [part.match] with the pattern of [parseCompoundsList] (a greedy run of
    digits, captured; a greedy run of white space; one or more code units
    other than line terminators up to the end of the string, captured): the
    two captures, or [None] when nothing matches. When nothing is left for
    the last group the engine backs up by one code unit, first into the
    white space and then into the digits. *)
Definition matchCoefficient (part : str) : option (str * str) :=
  let digits := takeWhile isDigit part in
  let afterDigits := dropWhile isDigit part in
  let afterSpace := dropWhile isWhitespace afterDigits in
  match afterSpace with
  | _ :: _ =>
    if existsb isLineTerminator afterSpace then None
    else Some (digits, afterSpace)
  | [] =>
    match rev afterDigits with
    | lastSpace :: _ =>
      if isLineTerminator lastSpace then None else Some (digits, [lastSpace])
    | [] =>
      match rev digits with
      | lastDigit :: firstDigits => Some (rev firstDigits, [lastDigit])
      | [] => None
      end
    end
  end.

(** The result of [parseCompoundsList]. *)
Module CompoundsList.
Record t := make {
  compounds : list EquationCompound.t;
  isValid : bool;
  error : option Text }.
End CompoundsList.

(** [array.sort()] of strings: insertion into a sorted list. *)
Fixpoint insertSorted (x : str) (l : list str) : list str :=
  match l with
  | [] => [x]
  | y :: l' => if str_ltb y x then y :: insertSorted x l' else x :: l
  end.

Definition sortStrings (l : list str) : list str :=
  fold_right insertSorted [] l.

(** [set.add(x)] on a [Set] kept as the list of its members in insertion
    order. *)
Definition setAdd (set : list str) (x : str) : list str :=
  if existsb (str_eqb x) set then set else set ++ [x].

(** [coefficients[i]] at an index; every call passes as many coefficients
    as there are compounds, so the default is never delivered. *)
Definition coefficientAt (coefficients : list Z) (i : Z) : Z :=
  nth (Z.to_nat i) coefficients 0.

(** [compounds.map((compound, i) => ({...compound, coefficient: coeffs[i]}))]. *)
Definition withCoefficients (compounds : list EquationCompound.t)
           (coefficients : list Z) : list EquationCompound.t :=
  mapi (fun compound i =>
          EquationCompound.make (EquationCompound.formula compound)
                                (coefficientAt coefficients i))
       compounds.

(** [new Array(n).fill(1)]. *)
Definition ones (n : nat) : list Z := repeat 1 n.

Definition formatEquation (reactants products : list EquationCompound.t) : Text :=
  let formatSide (compounds : list EquationCompound.t) :=
    join [Lit " + "]
         (map (fun compound =>
                 let coeff :=
                   if EquationCompound.coefficient compound =? 1 then []
                   else [Int (EquationCompound.coefficient compound)] in
                 coeff ++ [Sub (EquationCompound.formula compound)])
              compounds) in
  formatSide reactants ++ [Lit " → "] ++ formatSide products.

Definition createElementCountObject (balance : list ElementBalance.t)
  : list (str * (Z * Z)) :=
  map (fun item =>
         (ElementBalance.element item,
          (ElementBalance.reactantCount item, ElementBalance.productCount item)))
      balance.

(** [steps.push({stepNumber: stepCounter++, ...})]: the counter is one more
    than the number of steps pushed so far. *)
Definition pushStep (steps : list BalanceStep.t) (description equation : Text)
           (elementCount : option (list (str * (Z * Z)))) : list BalanceStep.t :=
  steps ++ [BalanceStep.make (Z.of_nat (List.length steps) + 1)
                             description equation elementCount].

Definition getNextCombination_step (maxCoeff : Z) (c : Z)
           (later : bool * list Z) : bool * list Z :=
  let '(done, rest) := later in
  if done then (true, c :: rest)
  else if c <? maxCoeff then (true, (c + 1) :: rest)
  else (false, 1 :: rest).

(** [getNextCombination]: the slots are visited from the last one; the
    result carries the array as the call leaves it. *)
Definition getNextCombination (coefficients : list Z) (maxCoeff : Z)
  : bool * list Z :=
  fold_right (getNextCombination_step maxCoeff) (false, []) coefficients.

Definition simplifyCoefficients (coefficients : list Z) : Exc (list Z) :=
  gcdValue <- Helpers.gcd coefficients ;;
  ret (if gcdValue >? 1
       then map (fun coeff => coeff / gcdValue) coefficients
       else coefficients).

Section TrialAndError.

Variable periodicTable : list str.

Local Abbreviation parseChemicalFormula := (parseChemicalFormula periodicTable).
Local Abbreviation validateChemicalEquation := (validateChemicalEquation periodicTable).

Fixpoint parseCompoundsList_loop (type : string) (compoundParts : list str)
         (compounds : list EquationCompound.t) : Exc CompoundsList.t :=
  match compoundParts with
  | [] => ret (CompoundsList.make compounds true None)
  | part :: compoundParts' =>
    if isEmptyString part
    then parseCompoundsList_loop type compoundParts' compounds
    else
      match matchCoefficient part with
      | None =>
        ret (CompoundsList.make [] false
               (Some [Lit "Formato inválido en "; Lit type; Lit ": "; Sub part]))
      | Some (coefficientStr, rest) =>
        let formula := trim rest in
        let coefficient :=
          if isEmptyString coefficientStr then 1 else parseInt coefficientStr in
        if (coefficient <=? 0)
           || (coefficient >? VALIDATION_LIMITS.MAX_COEFFICIENT)
        then ret (CompoundsList.make [] false
                    (Some [Lit "Coeficiente inválido: "; Int coefficient]))
        else
          parsedFormula <- parseChemicalFormula formula ;;
          if negb (ParsedFormula.isValid parsedFormula)
          then ret (CompoundsList.make [] false
                      (Some [Lit "Fórmula inválida en "; Lit type; Lit ": ";
                             Sub formula]))
          else parseCompoundsList_loop type compoundParts'
                 (compounds ++ [EquationCompound.make formula coefficient])
      end
  end.

Definition parseCompoundsList (compoundsStr : str) (type : string)
  : Exc CompoundsList.t :=
  parseCompoundsList_loop type (map trim (split compoundsStr (lit "+"))) [].

Definition getAllElements (compounds : list EquationCompound.t)
  : Exc (list str) :=
  elementSet <-
    foldM (fun elementSet compound =>
             parsed <- parseChemicalFormula (EquationCompound.formula compound) ;;
             if ParsedFormula.isValid parsed
             then ret (fold_left
                         (fun set element => setAdd set (ParsedElement.symbol element))
                         (ParsedFormula.elements parsed) elementSet)
             else ret elementSet)
          [] compounds ;;
  ret (sortStrings elementSet).

Definition parseChemicalEquation (equation : str) : Exc EquationParseResult.t :=
  validation <- validateChemicalEquation equation ;;
  if negb (ValidationResult.isValid validation)
  then ret (EquationParseResult.make [] [] [] false
              (Some (join [Lit "; "] (ValidationResult.errors validation))))
  else
    let arrowPatterns := [arrowGlyph; arrowAscii; arrowEquals] in
    match find (fun arrow => negb (indexOf equation arrow =? -1)) arrowPatterns with
    | None =>
      ret (EquationParseResult.make [] [] [] false
             (Some [Lit "No se encontró símbolo de reacción válido"]))
    | Some arrowSymbol =>
      let arrowIndex := indexOf equation arrowSymbol in
      let reactantsStr := trim (substring equation 0 arrowIndex) in
      let productsStr :=
        trim (substringFrom equation (arrowIndex + JS.length arrowSymbol)) in
      reactants <- parseCompoundsList reactantsStr "reactants" ;;
      if negb (CompoundsList.isValid reactants)
      then ret (EquationParseResult.make [] [] [] false
                  (CompoundsList.error reactants))
      else
        products <- parseCompoundsList productsStr "products" ;;
        if negb (CompoundsList.isValid products)
        then ret (EquationParseResult.make [] [] [] false
                    (CompoundsList.error products))
        else
          allElements <-
            getAllElements (CompoundsList.compounds reactants
                            ++ CompoundsList.compounds products) ;;
          ret (EquationParseResult.make
                 (CompoundsList.compounds reactants)
                 (CompoundsList.compounds products)
                 allElements true None)
    end.

Definition countElementInSide (compounds : list EquationCompound.t)
           (element : str) : Exc Z :=
  foldM (fun totalCount compound =>
           parsed <- parseChemicalFormula (EquationCompound.formula compound) ;;
           if ParsedFormula.isValid parsed
           then
             match find (fun el => str_eqb (ParsedElement.symbol el) element)
                        (ParsedFormula.elements parsed) with
             | Some elementData =>
               ret (totalCount
                    + ParsedElement.count elementData
                      * EquationCompound.coefficient compound)
             | None => ret totalCount
             end
           else ret totalCount)
        0 compounds.

Definition getElementBalance (reactants products : list EquationCompound.t)
           (allElements : list str) : Exc (list ElementBalance.t) :=
  mapM (fun element =>
          reactantCount <- countElementInSide reactants element ;;
          productCount <- countElementInSide products element ;;
          ret (ElementBalance.make element reactantCount productCount
                                   (reactantCount =? productCount)))
       allElements.

(** The loop over the elements in [checkBalance], leaving at the first
    element that is not conserved. *)
Fixpoint checkBalance_loop (tempReactants tempProducts : list EquationCompound.t)
         (allElements : list str) : Exc bool :=
  match allElements with
  | [] => ret true
  | element :: allElements' =>
    reactantCount <- countElementInSide tempReactants element ;;
    productCount <- countElementInSide tempProducts element ;;
    if negb (reactantCount =? productCount) then ret false
    else checkBalance_loop tempReactants tempProducts allElements'
  end.

Definition checkBalance (reactants products : list EquationCompound.t)
           (reactantCoeffs productCoeffs : list Z) (allElements : list str)
  : Exc bool :=
  let tempReactants := withCoefficients reactants reactantCoeffs in
  let tempProducts := withCoefficients products productCoeffs in
  checkBalance_loop tempReactants tempProducts allElements.

Definition maxCoefficient : Z := 15.

(** The [while] loop of [balanceByTrialAndError]. It runs while
    [iteration < maxIterations], so [remaining] counts the turns that are
    left, [maxIterations - iteration]; leaving the loop, by the bound or by
    the [break], gives the result of the failed search. *)
Fixpoint search (equation : ChemicalEquation.t) (allElements : list str)
         (remaining : nat) (iteration : Z)
         (reactantCoeffs productCoeffs : list Z) (steps : list BalanceStep.t)
  : Exc BalanceResult.t :=
  let reactants := ChemicalEquation.reactants equation in
  let products := ChemicalEquation.products equation in
  let notFound (iteration : Z) (steps : list BalanceStep.t) :=
    let steps :=
      pushStep steps
        [Lit "No se encontró balance después de "; Int iteration; Lit " intentos"]
        [] None in
    ret (BalanceResult.make equation reactants products [] trial_and_error steps
           false
           (Some (ERROR_MESSAGES.BALANCE.CANNOT_BALANCE
                  ++ [Lit " ("; Int iteration; Lit " combinaciones probadas)"]))) in
  match remaining with
  | O => notFound iteration steps
  | S remaining' =>
    balanced <- checkBalance reactants products reactantCoeffs productCoeffs
                             allElements ;;
    if (balanced : bool) then
      let numReactants := List.length reactants in
      let allCoeffs := reactantCoeffs ++ productCoeffs in
      simplified <- simplifyCoefficients allCoeffs ;;
      (* [simplified !== allCoeffs] exactly when the divisor exceeds 1 *)
      gcdAll <- Helpers.gcd allCoeffs ;;
      let finalReactantCoeffs := firstn numReactants simplified in
      let finalProductCoeffs := skipn numReactants simplified in
      let balancedReactants := withCoefficients reactants finalReactantCoeffs in
      let balancedProducts := withCoefficients products finalProductCoeffs in
      finalBalance <- getElementBalance balancedReactants balancedProducts
                                        allElements ;;
      let steps :=
        pushStep steps
          [Lit "¡Combinación encontrada en iteración "; Int (iteration + 1); Lit "!"]
          (formatEquation balancedReactants balancedProducts)
          (Some (createElementCountObject finalBalance)) in
      let steps :=
        if gcdAll >? 1
        then pushStep steps
               [Lit "Coeficientes simplificados por MCD = "; Int gcdAll]
               (formatEquation balancedReactants balancedProducts) None
        else steps in
      ret (BalanceResult.make equation balancedReactants balancedProducts
             (formatEquation balancedReactants balancedProducts)
             trial_and_error steps true None)
    else
      let '(advanced, productCoeffs) :=
        getNextCombination productCoeffs maxCoefficient in
      let next (reactantCoeffs productCoeffs : list Z) :=
        let iteration := iteration + 1 in
        let steps :=
          if Z.rem iteration 1000 =? 0
          then pushStep steps
                 [Lit "Progreso: "; Int iteration; Lit " combinaciones probadas..."]
                 [] None
          else steps in
        search equation allElements remaining' iteration
               reactantCoeffs productCoeffs steps in
      if advanced then next reactantCoeffs productCoeffs
      else
        let productCoeffs := ones (List.length productCoeffs) in
        let '(advanced, reactantCoeffs) :=
          getNextCombination reactantCoeffs maxCoefficient in
        if advanced then next reactantCoeffs productCoeffs
        else notFound iteration steps
  end.

Definition balanceByTrialAndError (equation : ChemicalEquation.t)
           (maxIterations : Z) : Exc BalanceResult.t :=
  let reactants := ChemicalEquation.reactants equation in
  let products := ChemicalEquation.products equation in
  let steps :=
    pushStep [] [Lit "Ecuación inicial sin balancear"]
             (formatEquation reactants products) None in
  allElements <- getAllElements (reactants ++ products) ;;
  let steps :=
    pushStep steps
      (Lit "Elementos presentes: "
       :: join [Lit ", "] (map (fun e => [Sub e]) allElements))
      [] None in
  let initialReactantCoeffs := ones (List.length reactants) in
  let initialProductCoeffs := ones (List.length products) in
  balanced <- checkBalance reactants products
                initialReactantCoeffs initialProductCoeffs allElements ;;
  if (balanced : bool) then
    let steps :=
      pushStep steps [Lit "La ecuación ya está balanceada con coeficientes 1"]
               (formatEquation reactants products) None in
    ret (BalanceResult.make equation reactants products
           (formatEquation reactants products) trial_and_error steps true None)
  else
    let reactantCoeffs := ones (List.length reactants) in
    let productCoeffs := ones (List.length products) in
    let steps :=
      pushStep steps
        [Lit "Iniciando tanteo sistemático (máximo "; Int maxIterations;
         Lit " combinaciones)"]
        [] None in
    search equation allElements (Z.to_nat maxIterations) 0
           reactantCoeffs productCoeffs steps.

(** The default of the parameter [maxIterations]. *)
Definition defaultMaxIterations : Z := 10000.

End TrialAndError.

(* ------------------------------------------------------------------ *)
(** ** The algebraic method *)

Definition Matrix := list (list RobustFraction.t).

(** [matrix[row][col]] followed by a method call: a [TypeError] when the
    row or the cell is [undefined]. *)
Definition cell (matrix : Matrix) (row col : nat) : Exc RobustFraction.t :=
  match nth_error matrix row with
  | Some r =>
    match nth_error r col with
    | Some f => ret f
    | None => Throw undefinedAccess
    end
  | None => Throw undefinedAccess
  end.

(** [list[i] = v] at an index of the list. *)
Fixpoint setNth {A} (l : list A) (i : nat) (v : A) : list A :=
  match l, i with
  | [], _ => []
  | _ :: l', O => v :: l'
  | x :: l', S i' => x :: setNth l' i' v
  end.

(** [matrix[row][col] = v]; the code writes only cells it has just read. *)
Definition setCell (matrix : Matrix) (row col : nat) (v : RobustFraction.t)
  : Matrix :=
  match nth_error matrix row with
  | Some r => setNth matrix row (setNth r col v)
  | None => matrix
  end.

(** The destructuring swap of two rows of the matrix. *)
Definition swapRows (matrix : Matrix) (i j : nat) : Matrix :=
  match nth_error matrix i, nth_error matrix j with
  | Some ri, Some rj => setNth (setNth matrix i rj) j ri
  | _, _ => matrix
  end.

Module ElementMatrix.
Record t := make {
  matrix : Matrix;
  elements : list str;
  compounds : list str;
  steps : list Text }.
End ElementMatrix.

Module Elimination.
Record t := make {
  reducedMatrix : Matrix;
  rank : nat;
  pivotCols : list nat }.
End Elimination.

Section Algebraic.

Variable periodicTable : list str.

Local Abbreviation parseChemicalFormula := (parseChemicalFormula periodicTable).

Definition buildElementMatrix (equation : ChemicalEquation.t)
  : Exc ElementMatrix.t :=
  let reactants := ChemicalEquation.reactants equation in
  let products := ChemicalEquation.products equation in
  let allCompounds := reactants ++ products in
  let compoundFormulas := map EquationCompound.formula allCompounds in
  '(elementSet, compoundElements) <-
    foldM (fun '(elementSet, compoundElements) compound =>
             parsed <- parseChemicalFormula (EquationCompound.formula compound) ;;
             if negb (ParsedFormula.isValid parsed)
             then Throw (newError [Lit "No se pudo parsear: ";
                                   Sub (EquationCompound.formula compound)])
             else
               let '(elementsDict, elementSet) :=
                 fold_left
                   (fun '(elementsDict, elementSet) element =>
                      (dict_set elementsDict (ParsedElement.symbol element)
                                (ParsedElement.count element),
                       setAdd elementSet (ParsedElement.symbol element)))
                   (ParsedFormula.elements parsed) ([], elementSet) in
               ret (elementSet, compoundElements ++ [elementsDict]))
          ([], []) allCompounds ;;
  let elements := sortStrings elementSet in
  let numReactants := List.length reactants in
  '(matrix, steps) <-
    foldM (fun '(matrix, steps) element =>
             reactantCells <-
               mapM (fun elementsDict =>
                       RobustFraction.of_int (dict_get_or_0 elementsDict element))
                    (firstn numReactants compoundElements) ;;
             productCells <-
               mapM (fun elementsDict =>
                       RobustFraction.of_int (- dict_get_or_0 elementsDict element))
                    (skipn numReactants compoundElements) ;;
             let row := reactantCells ++ productCells in
             let rowStr := join [Lit "  "] (map RobustFraction.toString row) in
             ret (matrix ++ [row],
                  steps ++ [[Sub element; Lit ": ["] ++ rowStr ++ [Lit "] = 0"]]))
          ([], []) elements ;;
  ret (ElementMatrix.make matrix elements compoundFormulas steps).

(** The scan of [gaussianEliminationRobust] for the pivot of a column:
    [None] stands for the row index [-1]. *)
Definition findPivot (workMatrix : Matrix) (rows currentRow col : nat)
  : Exc (option nat * RobustFraction.t) :=
  zero <- RobustFraction.of_int 0 ;;
  foldM (fun '(bestPivotRow, bestPivotValue) row =>
           value <- cell workMatrix row col ;;
           absValue <- RobustFraction.abs value ;;
           absBest <- RobustFraction.abs bestPivotValue ;;
           if RobustFraction.toDecimal_gtb absValue absBest
           then ret (Some row, value)
           else ret (bestPivotRow, bestPivotValue))
        (None, zero) (seq currentRow (rows - currentRow)).

(** Division of the pivot row by the pivot. *)
Definition normalizeRow (workMatrix : Matrix) (cols currentRow : nat)
           (pivotValue : RobustFraction.t) : Exc Matrix :=
  foldM (fun workMatrix c =>
           value <- cell workMatrix currentRow c ;;
           quotient <- RobustFraction.divide value pivotValue ;;
           ret (setCell workMatrix currentRow c quotient))
        workMatrix (seq 0 cols).

(** Elimination of column [col] from every row but the pivot row. *)
Definition eliminateColumn (workMatrix : Matrix) (rows cols currentRow col : nat)
  : Traced Matrix :=
  foldT (fun workMatrix row =>
           if Nat.eqb row currentRow then retT workMatrix
           else
             factor <~ liftT (cell workMatrix row col) ;;
             if RobustFraction.isZero factor then retT workMatrix
             else
               workMatrix <~
                 liftT
                   (foldM (fun workMatrix c =>
                             pivotCell <- cell workMatrix currentRow c ;;
                             subtraction <- RobustFraction.multiply pivotCell factor ;;
                             value <- cell workMatrix row c ;;
                             difference <- RobustFraction.subtract value subtraction ;;
                             ret (setCell workMatrix row c difference))
                          workMatrix (seq 0 cols)) ;;
               _ <~ pushT ([Lit "F"; Int (Z.of_nat row + 1); Lit " = F";
                            Int (Z.of_nat row + 1); Lit " - ("]
                           ++ RobustFraction.toString factor
                           ++ [Lit ") × F"; Int (Z.of_nat currentRow + 1)]) ;;
               retT workMatrix)
        workMatrix (seq 0 rows).

(** The loop over the columns, which stops once every row holds a pivot. *)
Fixpoint eliminate (rows cols : nat) (columns : list nat) (workMatrix : Matrix)
         (pivotCols : list nat) (currentRow : nat)
  : Traced (Matrix * list nat) :=
  match columns with
  | [] => retT (workMatrix, pivotCols)
  | col :: columns' =>
    if negb (currentRow <? rows)%nat then retT (workMatrix, pivotCols)
    else
      '(bestPivotRow, bestPivotValue) <~
        liftT (findPivot workMatrix rows currentRow col) ;;
      match bestPivotRow with
      | None => eliminate rows cols columns' workMatrix pivotCols currentRow
      | Some bestPivotRow =>
        if RobustFraction.isZero bestPivotValue
        then eliminate rows cols columns' workMatrix pivotCols currentRow
        else
          let workMatrix :=
            if negb (Nat.eqb bestPivotRow currentRow)
            then swapRows workMatrix currentRow bestPivotRow
            else workMatrix in
          let pivotCols := pivotCols ++ [col] in
          pivotValue <~ liftT (cell workMatrix currentRow col) ;;
          workMatrix <~
            (if negb (RobustFraction.isOne pivotValue)
             then
               workMatrix <~
                 liftT (normalizeRow workMatrix cols currentRow pivotValue) ;;
               _ <~ pushT ([Lit "F"; Int (Z.of_nat currentRow + 1); Lit " = F";
                            Int (Z.of_nat currentRow + 1); Lit " ÷ ("]
                           ++ RobustFraction.toString pivotValue ++ [Lit ")"]) ;;
               retT workMatrix
             else retT workMatrix) ;;
          workMatrix <~ eliminateColumn workMatrix rows cols currentRow col ;;
          eliminate rows cols columns' workMatrix pivotCols (currentRow + 1)
      end
  end.

(** [gaussianEliminationRobust(matrix, steps)], the array [steps] being the
    trace. Reading [matrix[0].length] of an empty matrix is a
    [TypeError]. *)
Definition gaussianEliminationRobust (matrix : Matrix) : Traced Elimination.t :=
  let rows := List.length matrix in
  match matrix with
  | [] => liftT (Throw undefinedAccess)
  | firstRow :: _ =>
    let cols := List.length firstRow in
    workMatrix <~
      liftT (mapM (fun row =>
                     mapM (fun f => RobustFraction.new (RobustFraction.num f)
                                                       (RobustFraction.den f)) row)
                  matrix) ;;
    '(workMatrix, pivotCols) <~
      eliminate rows cols (seq 0 cols) workMatrix [] 0 ;;
    retT (Elimination.make workMatrix (List.length pivotCols) pivotCols)
  end.

(** [solution[index] = v] for an index that is [-1] or an index of the
    array: at [-1] no element of the array changes. *)
Definition setAt {A} (l : list A) (index : Z) (v : A) : list A :=
  if index <? 0 then l else setNth l (Z.to_nat index) v.

Definition findNullSpace (reducedMatrix : Matrix) (rank : nat)
           (pivotCols : list nat) (numVars : nat)
  : Traced (list RobustFraction.t) :=
  let freeVars :=
    filter (fun i => negb (existsb (Nat.eqb i) pivotCols)) (seq 0 numVars) in
  let freeVarIndex : Z :=
    match freeVars with
    | first :: _ => Z.of_nat first
    | [] => Z.of_nat numVars - 1
    end in
  solution <~ liftT (mapM (fun _ => RobustFraction.of_int 0) (seq 0 numVars)) ;;
  one <~ liftT (RobustFraction.of_int 1) ;;
  let solution := setAt solution freeVarIndex one in
  foldT (fun solution i =>
           match nth_error pivotCols i with
           | None =>
             (* [pivotCols[i]] is [undefined]: no call passes such a rank *)
             _ <~ pushT [Lit "xNaN = "; Int 0] ;;
             retT solution
           | Some pivotCol =>
             if Z.of_nat pivotCol =? freeVarIndex then retT solution
             else
               zero <~ liftT (RobustFraction.of_int 0) ;;
               sum <~
                 liftT
                   (foldM (fun sum j =>
                             coefficient <- cell reducedMatrix i j ;;
                             match nth_error solution j with
                             | None => Throw undefinedAccess
                             | Some value =>
                               product <- RobustFraction.multiply coefficient value ;;
                               RobustFraction.add sum product
                             end)
                          zero (seq (pivotCol + 1) (numVars - (pivotCol + 1)))) ;;
               negated <~ liftT (RobustFraction.negate sum) ;;
               _ <~ pushT ([Lit "x"; Int (Z.of_nat pivotCol + 1); Lit " = "]
                           ++ RobustFraction.toString negated) ;;
               retT (setNth solution pivotCol negated)
           end)
        solution (rev (seq 0 rank)).

Definition normalizeToPositiveIntegers (fractionSolution : list RobustFraction.t)
  : Traced (list Z) :=
  let allNegative := forallb (fun f => RobustFraction.num f <=? 0) fractionSolution in
  fractionSolution <~
    liftT (if allNegative then mapM RobustFraction.negate fractionSolution
           else ret fractionSolution) ;;
  let denominators := map RobustFraction.den fractionSolution in
  lcmValue <~ liftT (foldM (fun a b => Helpers.lcm [a; b]) 1 denominators) ;;
  let integers :=
    map (fun f => (RobustFraction.num f * lcmValue) / RobustFraction.den f)
        fractionSolution in
  let positiveIntegers := filter (fun x => x >? 0) (map Z.abs integers) in
  gcdValue <~
    liftT (if (0 <? List.length positiveIntegers)%nat
           then Helpers.gcd positiveIntegers else ret 1) ;;
  _ <~ (if gcdValue >? 1
        then pushT [Lit "Simplificando por GCD = "; Int gcdValue]
        else retT tt) ;;
  retT (map (fun x => Z.abs x / gcdValue) integers).

(** The count of one side in [validateSolutionExhaustive]: the
    coefficients are read at [offset + i]. *)
Definition countWithCoefficients (compounds : list EquationCompound.t)
           (coefficients : list Z) (offset : Z) (element : str) : Exc Z :=
  foldM (fun count '(compound, i) =>
           parsed <- parseChemicalFormula (EquationCompound.formula compound) ;;
           if ParsedFormula.isValid parsed
           then
             match find (fun el => str_eqb (ParsedElement.symbol el) element)
                        (ParsedFormula.elements parsed) with
             | Some elementData =>
               ret (count + ParsedElement.count elementData
                            * coefficientAt coefficients (offset + i))
             | None => ret count
             end
           else ret count)
        0 (mapi (fun compound i => (compound, i)) compounds).

Fixpoint validateSolutionExhaustive (equation : ChemicalEquation.t)
         (coefficients : list Z) (elements : list str) : Traced bool :=
  match elements with
  | [] => retT true
  | element :: elements' =>
    let reactants := ChemicalEquation.reactants equation in
    let products := ChemicalEquation.products equation in
    reactantCount <~
      liftT (countWithCoefficients reactants coefficients 0 element) ;;
    productCount <~
      liftT (countWithCoefficients products coefficients
                                   (Z.of_nat (List.length reactants)) element) ;;
    if negb (reactantCount =? productCount) then retT false
    else
      _ <~ pushT [Lit "✅ "; Sub element; Lit ": "; Int reactantCount;
                  Lit " = "; Int productCount] ;;
      validateSolutionExhaustive equation coefficients elements'
  end.

Definition createErrorResult (equation : ChemicalEquation.t)
           (method : BalanceMethod) (steps : list Text) (error : Text)
  : BalanceResult.t :=
  BalanceResult.make equation
    (ChemicalEquation.reactants equation) (ChemicalEquation.products equation)
    [] method
    (mapi (fun step index => BalanceStep.make (index + 1) step [] None) steps)
    false (Some error).

Definition balanceByAlgebraicMethodRobust (equation : ChemicalEquation.t)
  : Exc BalanceResult.t :=
  let reactants := ChemicalEquation.reactants equation in
  let products := ChemicalEquation.products equation in
  tryT
    (built <~ liftT (buildElementMatrix equation) ;;
     let matrix := ElementMatrix.matrix built in
     let elements := ElementMatrix.elements built in
     let compounds := ElementMatrix.compounds built in
     eliminated <~ gaussianEliminationRobust matrix ;;
     let reducedMatrix := Elimination.reducedMatrix eliminated in
     let rank := Elimination.rank eliminated in
     let pivotCols := Elimination.pivotCols eliminated in
     let numVars := List.length compounds in
     if Nat.eqb rank numVars
     then
       allSteps <~ getT ;;
       retT (createErrorResult equation algebraic allSteps
               [Lit "Sistema sobredeterminado"])
     else
       fractionSolution <~ findNullSpace reducedMatrix rank pivotCols numVars ;;
       integerCoeffs <~ normalizeToPositiveIntegers fractionSolution ;;
       isValid <~ validateSolutionExhaustive equation integerCoeffs elements ;;
       allSteps <~ getT ;;
       if negb isValid
       then retT (createErrorResult equation algebraic allSteps
                    [Lit "La solución no balancea correctamente"])
       else
         let reactantCoeffs := firstn (List.length reactants) integerCoeffs in
         let productCoeffs := skipn (List.length reactants) integerCoeffs in
         let balancedReactants := withCoefficients reactants reactantCoeffs in
         let balancedProducts := withCoefficients products productCoeffs in
         let steps :=
           mapi (fun step index =>
                   BalanceStep.make (index + 1) step
                     (if index =? Z.of_nat (List.length allSteps) - 1
                      then formatEquation balancedReactants balancedProducts
                      else [])
                     None)
                allSteps in
         retT (BalanceResult.make equation balancedReactants balancedProducts
                 (formatEquation balancedReactants balancedProducts)
                 algebraic steps true None))
    (fun error allSteps =>
       ret (createErrorResult equation algebraic allSteps
              (Lit "Error en método algebraico: " :: errorToString error))).

Definition balanceChemicalEquation (input : BalanceInput.t) : Exc BalanceResult.t :=
  let equation := BalanceInput.equation input in
  let method :=
    match BalanceInput.method input with
    | Some method => method
    | None => trial_and_error
    end in
  parseResult <- parseChemicalEquation periodicTable equation ;;
  if negb (EquationParseResult.isValid parseResult)
  then ret (BalanceResult.make (ChemicalEquation.make [] []) [] [] [] method []
              false (EquationParseResult.error parseResult))
  else
    let chemicalEquation :=
      ChemicalEquation.make (EquationParseResult.reactants parseResult)
                            (EquationParseResult.products parseResult) in
    match method with
    | trial_and_error =>
      balanceByTrialAndError periodicTable chemicalEquation defaultMaxIterations
    | algebraic => balanceByAlgebraicMethodRobust chemicalEquation
    | other_method name =>
      ret (BalanceResult.make chemicalEquation [] [] [] method [] false
             (Some [Lit "Método de balance no soportado: "; Sub name]))
    end.

End Algebraic.

(* ------------------------------------------------------------------ *)
(** ** [utils/chemistry/formulaParser.ts]: queries on a formula *)

(** [new Set(list)]: the members in the order of their first occurrence. *)
Definition newSet (l : list str) : list str := fold_left setAdd l [].

Section FormulaQueries.

Variable periodicTable : list str.

Local Abbreviation parseChemicalFormula := (parseChemicalFormula periodicTable).

Definition extractElements (formula : str) : Exc (list str) :=
  parsed <- parseChemicalFormula formula ;;
  if negb (ParsedFormula.isValid parsed) then ret []
  else ret (map (fun element => ParsedElement.symbol element)
                (ParsedFormula.elements parsed)).

Definition getTotalAtomCount (formula : str) : Exc Z :=
  parsed <- parseChemicalFormula formula ;;
  if negb (ParsedFormula.isValid parsed) then ret 0
  else ret (fold_left (fun total element => total + ParsedElement.count element)
                      (ParsedFormula.elements parsed) 0).

Definition containsElement (formula elementSymbol : str) : Exc bool :=
  elements <- extractElements formula ;;
  ret (existsb (fun element => str_eqb element elementSymbol) elements).

Definition getElementCount (formula elementSymbol : str) : Exc Z :=
  parsed <- parseChemicalFormula formula ;;
  if negb (ParsedFormula.isValid parsed) then ret 0
  else
    match find (fun el => str_eqb (ParsedElement.symbol el) elementSymbol)
               (ParsedFormula.elements parsed) with
    | Some element => ret (ParsedElement.count element)
    | None => ret 0
    end.

Definition formulasHaveSameElements (formula1 formula2 : str) : Exc bool :=
  extracted1 <- extractElements formula1 ;;
  let elements1 := newSet extracted1 in
  extracted2 <- extractElements formula2 ;;
  let elements2 := newSet extracted2 in
  if negb (Z.of_nat (List.length elements1) =? Z.of_nat (List.length elements2))
  then ret false
  else
    ret (forallb (fun element => existsb (fun member => str_eqb member element)
                                         elements2)
                 elements1).

Definition multiplyFormula (formula : str) (coefficient : Z)
  : Exc (list ParsedElement.t) :=
  parsed <- parseChemicalFormula formula ;;
  if negb (ParsedFormula.isValid parsed) || (coefficient <=? 0) then ret []
  else
    ret (map (fun element =>
                ParsedElement.make (ParsedElement.symbol element)
                                   (ParsedElement.count element * coefficient))
             (ParsedFormula.elements parsed)).

(** [combineFormulas]; an entry of its argument has the fields of an
    [EquationCompound]. *)
Definition combineFormulas (formulas : list EquationCompound.t)
  : Exc (list ParsedElement.t) :=
  combinedElements <-
    foldM (fun combinedElements compound =>
             elements <- multiplyFormula (EquationCompound.formula compound)
                                         (EquationCompound.coefficient compound) ;;
             ret (fold_left
                    (fun combinedElements element =>
                       dict_set combinedElements (ParsedElement.symbol element)
                                (dict_get_or_0 combinedElements
                                               (ParsedElement.symbol element)
                                 + ParsedElement.count element))
                    elements combinedElements))
          [] formulas ;;
  ret (map (fun '(symbol, count) => ParsedElement.make symbol count)
           combinedElements).

End FormulaQueries.

(* ------------------------------------------------------------------ *)
(** ** [utils/chemistry/equationBalancer.ts]: checking a balanced equation *)

Module BalanceValidation.
Record t := make {
  isBalanced : bool;
  elementBalance : list ElementBalance.t;
  errors : list Text }.
End BalanceValidation.


Section BalanceValidation.

Variable periodicTable : list str.


End BalanceValidation.

(* ------------------------------------------------------------------ *)
(** ** [utils/chemistry/validator.ts]: several formulas *)

Section MultipleFormulas.

Variable periodicTable : list str.

Definition validateMultipleFormulas (formulas : list str)
  : Exc ValidationResult.t :=
  if Z.of_nat (List.length formulas) =? 0
  then ret (ValidationResult.make false
              [[Lit "No se proporcionaron fórmulas para validar"]])
  else
    errors <-
      foldM (fun errors '(formula, i) =>
               result <- validateChemicalFormula periodicTable formula ;;
               if negb (ValidationResult.isValid result)
               then ret (errors
                         ++ [[Lit "Fórmula "; Int (i + 1); Lit " ("; Sub formula;
                              Lit "): "]
                             ++ join [Lit ", "] (ValidationResult.errors result)])
               else ret errors)
            [] (mapi (fun formula i => (formula, i)) formulas) ;;
    ret (ValidationResult.make (Z.of_nat (List.length errors) =? 0) errors).

End MultipleFormulas.

(* ------------------------------------------------------------------ *)
(** ** The element table *)

(** Modelled from the spec: [shared/periodic-table.json] is not among the
    sources; the spec describes it as the periodic table data mapping an
    element symbol to its mass. The symbols of the 118 elements, by atomic
    number, stand for it where a concrete input is run. *)
Definition standardPeriodicTable : list str :=
  map lit
    ["H"; "He"; "Li"; "Be"; "B"; "C"; "N"; "O"; "F"; "Ne"; "Na"; "Mg"; "Al";
     "Si"; "P"; "S"; "Cl"; "Ar"; "K"; "Ca"; "Sc"; "Ti"; "V"; "Cr"; "Mn"; "Fe";
     "Co"; "Ni"; "Cu"; "Zn"; "Ga"; "Ge"; "As"; "Se"; "Br"; "Kr"; "Rb"; "Sr";
     "Y"; "Zr"; "Nb"; "Mo"; "Tc"; "Ru"; "Rh"; "Pd"; "Ag"; "Cd"; "In"; "Sn";
     "Sb"; "Te"; "I"; "Xe"; "Cs"; "Ba"; "La"; "Ce"; "Pr"; "Nd"; "Pm"; "Sm";
     "Eu"; "Gd"; "Tb"; "Dy"; "Ho"; "Er"; "Tm"; "Yb"; "Lu"; "Hf"; "Ta"; "W";
     "Re"; "Os"; "Ir"; "Pt"; "Au"; "Hg"; "Tl"; "Pb"; "Bi"; "Po"; "At"; "Rn";
     "Fr"; "Ra"; "Ac"; "Th"; "Pa"; "U"; "Np"; "Pu"; "Am"; "Cm"; "Bk"; "Cf";
     "Es"; "Fm"; "Md"; "No"; "Lr"; "Rf"; "Db"; "Sg"; "Bh"; "Hs"; "Mt"; "Ds";
     "Rg"; "Cn"; "Nh"; "Fl"; "Mc"; "Lv"; "Ts"; "Og"].

(** The coefficient vector of a result: the coefficients of the reactants
    followed by those of the products. *)
Definition coefficientVector (result : BalanceResult.t) : list Z :=
  map EquationCompound.coefficient
      (BalanceResult.balancedReactants result
       ++ BalanceResult.balancedProducts result).

(** A balance request on the text of an equation. *)
Definition request (equation : string) (method : BalanceMethod) : BalanceInput.t :=
  BalanceInput.make (lit equation) (Some method).

(* ------------------------------------------------------------------ *)
(** ** Vocabulary of the properties *)

(** [yields m P]: [m] returns normally, with a value that satisfies [P].
    [safe m P]: [m] does not run out of fuel, and a value it returns
    satisfies [P] (it may throw). *)
Definition yields {A} (m : Exc A) (P : A -> Prop) : Prop :=
  exists a, m = Ok a /\ P a.

Definition safe {A} (m : Exc A) (P : A -> Prop) : Prop :=
  match m with
  | Ok a => P a
  | Throw _ => True
  | OutOfFuel => False
  end.

(** [safe] for a traced computation, from every trace. *)
Definition safeT {A} (m : Traced A) (P : A -> Prop) : Prop :=
  forall trace, safe (fst (m trace)) P.

(** The postcondition that asks nothing. *)
Definition any {A} : A -> Prop := fun _ => True.

(** An invalid result carries an error. *)
Definition ParseResult_shape (r : ParseResult.t) : Prop :=
  ParseResult.isValid r = false -> ParseResult.error r <> None.

(** A result is valid without an error, or invalid with one. *)
Definition ParsedFormula_shape (r : ParsedFormula.t) : Prop :=
  (ParsedFormula.isValid r = true /\ ParsedFormula.error r = None)
  \/ (ParsedFormula.isValid r = false /\ ParsedFormula.error r <> None).






(** What a run answers: the validity flag and the coefficient vector of the
    result it returns. *)
Definition answer (m : Exc BalanceResult.t) : option (bool * list Z) :=
  match m with
  | Ok result => Some (BalanceResult.isValid result, coefficientVector result)
  | _ => None
  end.

(** The removal of every run of white space, the middle step of
    [normalizeFormula]. *)
Definition removeWhitespace (s : str) : str :=
  filter (fun c => negb (isWhitespace c)) s.

(** The inner loop of [tokenize_from] that extends a number. *)
Fixpoint tokenize_digits (num : str) (position : Z) (rest : str)
  : option (list Token.t) :=
  match rest with
  | next :: rest' =>
    if isDigit next
    then tokenize_digits (num ++ [next]) (position + 1) rest'
    else consToken (Token.make TokenType.number num position)
                   (tokenize_from (position + 1) rest)
  | [] => Some [Token.make TokenType.number num position]
  end.

(** The tokens without their positions. *)
Definition shape (tokens : list Token.t) : list (TokenType.t * str) :=
  map (fun token => (Token.type token, Token.value token)) tokens.

(** The first token is a number. *)
Definition startsWithNumber (tokens : list Token.t) : bool :=
  match tokens with
  | token :: _ =>
    match Token.type token with
    | TokenType.number => true
    | _ => false
    end
  | [] => false
  end.

(** No number token is followed by a number token. *)
Fixpoint noAdjacentNumbers (tokens : list Token.t) : Prop :=
  match tokens with
  | token :: rest =>
    (Token.type token = TokenType.number -> startsWithNumber rest = false)
    /\ noAdjacentNumbers rest
  | [] => True
  end.

(** Two outcomes of the parser that differ at most in the positions of the
    tokens left over. *)
Definition sameOutcome (r1 r2 : Exc (Dict * list Token.t)) : Prop :=
  match r1, r2 with
  | Ok (elements1, rest1), Ok (elements2, rest2) =>
    elements1 = elements2 /\ shape rest1 = shape rest2
  | Throw e1, Throw e2 => e1 = e2
  | OutOfFuel, OutOfFuel => True
  | _, _ => False
  end.

(** The greatest common divisor and the least common multiple of the
    numbers of a list. *)
Definition gcdOfList (l : list Z) : Z := fold_right Z.gcd 0 l.


Definition sumZ (l : list Z) : Z := fold_right Z.add 0 l.

(** The rank of a combination in the order of the search: its entries,
    each less 1, read as the digits of a number in base [maxCoeff], the
    first entry being the most significant. *)
Fixpoint odometerValue (maxCoeff : Z) (coefficients : list Z) : Z :=
  match coefficients with
  | [] => 0
  | c :: rest =>
    (c - 1) * maxCoeff ^ Z.of_nat (List.length rest) + odometerValue maxCoeff rest
  end.

(** [f] stands for the rational [n]/[d]. *)
Definition represents (f : RobustFraction.t) (n d : Z) : Prop :=
  RobustFraction.num f * d = n * RobustFraction.den f.



(** The keys of a dictionary, in the order of its entries. *)
Definition keys (d : Dict) : list str := map fst d.

(** The entries of a dictionary of the parser: no symbol twice, every
    symbol an element of the table, every count at least 1. *)
Definition goodEntries (periodicTable : list str) (d : Dict) : Prop :=
  NoDup (keys d)
  /\ forall k v, In (k, v) d -> isValidElement periodicTable k = true /\ 1 <= v.

Definition goodOutcome (periodicTable : list str) (r : Dict * list Token.t) : Prop :=
  goodEntries periodicTable (fst r).

(** The elements of a [ParsedFormula] made from the entries of the
    dictionary, and the total that [parseChemicalFormula] compares with the
    limit. *)
Definition toParsedElements (entries : Dict) : list ParsedElement.t :=
  map (fun '(symbol, count) => ParsedElement.make symbol count) entries.

Definition totalCount (elements : list ParsedElement.t) : Z :=
  fold_left (fun sum element => sum + ParsedElement.count element) elements 0.

(** The count that [elements.find(el => el.symbol === element)] leads to:
    the count of the first entry with that symbol, 0 without one. *)
Definition countOf (elements : list ParsedElement.t) (element : str) : Z :=
  match find (fun el => str_eqb (ParsedElement.symbol el) element) elements with
  | Some el => ParsedElement.count el
  | None => 0
  end.

(** The number of atoms of an element that a formula holds: what
    [getElementCount] returns. *)
Definition atomsOf (periodicTable : list str) (formula element : str) : Z :=
  match getElementCount periodicTable formula element with
  | Ok n => n
  | _ => 0
  end.

(** The atoms of an element on one side, compound [i] weighted by the
    coefficient at [offset + i]. *)
Definition weightedAtoms (periodicTable : list str)
           (compounds : list EquationCompound.t) (coefficients : list Z)
           (offset : Z) (element : str) : Z :=
  sumZ (mapi_from 0
          (fun compound i =>
             atomsOf periodicTable (EquationCompound.formula compound) element
             * coefficientAt coefficients (offset + i))
          compounds).

(** The atoms of an element on one side, each compound weighted by its own
    coefficient. *)
Definition sideAtoms (periodicTable : list str)
           (compounds : list EquationCompound.t) (element : str) : Z :=
  sumZ (map (fun compound =>
               atomsOf periodicTable (EquationCompound.formula compound) element
               * EquationCompound.coefficient compound)
            compounds).

(** A compound of a parsed equation: a coefficient within the limits and a
    formula that parses. *)
Definition goodCompound (periodicTable : list str) (compound : EquationCompound.t)
  : Prop :=
  1 <= EquationCompound.coefficient compound <= VALIDATION_LIMITS.MAX_COEFFICIENT
  /\ exists parsed,
      parseChemicalFormula periodicTable (EquationCompound.formula compound)
      = Ok parsed
      /\ ParsedFormula.isValid parsed = true.

(** Ascending, and strictly ascending, in the order of the code units. *)
Fixpoint ascending (l : list str) : Prop :=
  match l with
  | [] => True
  | x :: rest =>
    match rest with
    | y :: _ => str_ltb y x = false
    | [] => True
    end /\ ascending rest
  end.

Fixpoint strictlySorted (l : list str) : Prop :=
  match l with
  | [] => True
  | x :: rest =>
    match rest with
    | y :: _ => str_ltb x y = true
    | [] => True
    end /\ strictlySorted rest
  end.

(** The text of a token fits its kind. *)
Definition tokenWellFormed (token : Token.t) : bool :=
  match Token.type token, Token.value token with
  | TokenType.element, [upper] => isUpper upper
  | TokenType.element, [upper; lower] => isUpper upper && isLower lower
  | TokenType.number, digit :: digits => forallb isDigit (digit :: digits)
  | TokenType.open_paren, [c] => char_eqb c openParen
  | TokenType.close_paren, [c] => char_eqb c closeParen
  | _, _ => false
  end.

(** A code unit that a formula may hold: one of the class of
    [normalizeFormula], or white space. *)
Definition isFormulaText (c : char) : bool := isFormulaChar c || isWhitespace c.

(* ================================================================== *)
(** * Properties *)

(** ** The exception monad *)

Lemma yields_returns {A} (m : Exc A) (P : A -> Prop) : yields m P -> returns m.
Proof. intros [a [H _]]. now exists a. Qed.

Lemma yields_ret {A} (a : A) (P : A -> Prop) : P a -> yields (ret a) P.
Proof. intros H. now exists a. Qed.


Lemma yields_bind {A B} (m : Exc A) (k : A -> Exc B) (P : A -> Prop)
      (Q : B -> Prop) :
  yields m P -> (forall a, P a -> yields (k a) Q) -> yields (a <- m ;; k a) Q.
Proof. intros [a [-> HP]] Hk. simpl. now apply Hk. Qed.

Lemma yields_foldM {A B} (f : A -> B -> Exc A) (I : A -> Prop) (l : list B) :
  (forall a x, In x l -> I a -> yields (f a x) I) ->
  forall a, I a -> yields (foldM f a l) I.
Proof.
  induction l as [|x l IH]; intros Hf a Ha; simpl.
  - now apply yields_ret.
  - apply yields_bind with (P := I).
    + apply Hf; [now left | assumption].
    + intros a' Ha'. apply IH; [|assumption].
      intros a'' y Hy. apply Hf. now right.
Qed.



Lemma safe_ret {A} (a : A) (P : A -> Prop) : P a -> safe (ret a) P.
Proof. intros H. exact H. Qed.

Lemma safe_throw {A} (e : JsError) (P : A -> Prop) : safe (Throw e) P.
Proof. exact I. Qed.

Lemma safe_weaken {A} (m : Exc A) (P Q : A -> Prop) :
  safe m P -> (forall a, P a -> Q a) -> safe m Q.
Proof. destruct m; simpl; auto. Qed.

Lemma safe_bind {A B} (m : Exc A) (k : A -> Exc B) (P : A -> Prop)
      (Q : B -> Prop) :
  safe m P -> (forall a, P a -> safe (k a) Q) -> safe (a <- m ;; k a) Q.
Proof. destruct m as [a|e|]; simpl; auto. Qed.

Lemma safe_foldM {A B} (f : A -> B -> Exc A) (I : A -> Prop) (l : list B) :
  (forall a x, In x l -> I a -> safe (f a x) I) ->
  forall a, I a -> safe (foldM f a l) I.
Proof.
  induction l as [|x l IH]; intros Hf a Ha; simpl.
  - exact Ha.
  - apply safe_bind with (P := I).
    + apply Hf; [now left | assumption].
    + intros a' Ha'. apply IH; [|assumption].
      intros a'' y Hy. apply Hf. now right.
Qed.

Lemma safe_mapM {A B} (f : A -> Exc B) (P : B -> Prop) (l : list A) :
  (forall x, In x l -> safe (f x) P) -> safe (mapM f l) (Forall P).
Proof.
  induction l as [|x l IH]; intros Hf; simpl.
  - constructor.
  - apply safe_bind with (P := P); [apply Hf; now left|].
    intros y Hy. apply safe_bind with (P := Forall P).
    + apply IH. intros z Hz. apply Hf. now right.
    + intros ys Hys. simpl. now constructor.
Qed.

Lemma safeT_ret {A} (a : A) (P : A -> Prop) : P a -> safeT (retT a) P.
Proof. intros H trace. exact H. Qed.

Lemma safeT_lift {A} (m : Exc A) (P : A -> Prop) : safe m P -> safeT (liftT m) P.
Proof. intros H trace. exact H. Qed.

Lemma safeT_push (step : Text) : safeT (pushT step) any.
Proof. intros trace. exact I. Qed.


Lemma safeT_weaken {A} (m : Traced A) (P Q : A -> Prop) :
  safeT m P -> (forall a, P a -> Q a) -> safeT m Q.
Proof. intros H HQ trace. eapply safe_weaken; [apply H | exact HQ]. Qed.

Lemma safeT_bind {A B} (m : Traced A) (k : A -> Traced B) (P : A -> Prop)
      (Q : B -> Prop) :
  safeT m P -> (forall a, P a -> safeT (k a) Q) -> safeT (a <~ m ;; k a) Q.
Proof.
  intros Hm Hk trace. unfold bindT. specialize (Hm trace).
  destruct (m trace) as [[a|e|] trace']; simpl in *.
  - now apply Hk.
  - exact I.
  - contradiction.
Qed.

Lemma safeT_foldT {A B} (f : A -> B -> Traced A) (I : A -> Prop) (l : list B) :
  (forall a x, In x l -> I a -> safeT (f a x) I) ->
  forall a, I a -> safeT (foldT f a l) I.
Proof.
  induction l as [|x l IH]; intros Hf a Ha; simpl.
  - now apply safeT_ret.
  - apply safeT_bind with (P := I).
    + apply Hf; [now left | assumption].
    + intros a' Ha'. apply IH; [|assumption].
      intros a'' y Hy. apply Hf. now right.
Qed.

(** A [try] whose handler returns normally returns normally as soon as its
    body does not run out of fuel. *)
Lemma yields_catch {A} (body : Exc A) (handler : JsError -> Exc A)
      (P : A -> Prop) :
  safe body P -> (forall e, yields (handler e) P) -> yields (catch body handler) P.
Proof.
  intros Hb Hh. destruct body as [a|e|]; simpl in *.
  - now exists a.
  - apply Hh.
  - contradiction.
Qed.


(** ** Greatest common divisors *)

Lemma euclid_loop_gcd (loop : nat -> Z -> Z -> Exc Z) :
  (forall fuel a b,
      loop fuel a b =
      if b =? 0 then ret a
      else match fuel with
           | O => OutOfFuel
           | S fuel' => loop fuel' b (Z.rem a b)
           end) ->
  forall fuel a b,
    0 <= a -> 0 <= b -> (Z.to_nat b <= fuel)%nat ->
    loop fuel a b = Ok (Z.gcd a b).
Proof.
  intros Hloop. induction fuel as [|fuel IH]; intros a b Ha Hb Hfuel;
    rewrite Hloop; destruct (Z.eqb_spec b 0) as [->|Hb0].
  - rewrite Z.gcd_0_r, Z.abs_eq by assumption. reflexivity.
  - lia.
  - rewrite Z.gcd_0_r, Z.abs_eq by assumption. reflexivity.
  - assert (Hrem : 0 <= Z.rem a b < b) by (apply Z.rem_bound_pos; lia).
    rewrite IH by lia.
    rewrite Z.rem_mod_nonneg by lia.
    f_equal. rewrite Z.gcd_comm, Z.gcd_mod by lia. apply Z.gcd_comm.
Qed.

Lemma RobustFraction_gcd_spec (a b : Z) :
  0 <= a -> 0 <= b -> RobustFraction.gcd a b = Ok (Z.gcd a b).
Proof.
  intros Ha Hb. unfold RobustFraction.gcd.
  apply (euclid_loop_gcd RobustFraction.gcd_rec); try assumption; try lia.
  intros [|fuel] x y; reflexivity.
Qed.

Lemma gcdTwo_spec (a b : Z) : Helpers.gcdTwo a b = Ok (Z.gcd a b).
Proof.
  unfold Helpers.gcdTwo.
  rewrite (euclid_loop_gcd Helpers.gcdTwo_loop); try lia.
  - now rewrite Z.gcd_abs_l, Z.gcd_abs_r.
  - intros [|fuel] x y; reflexivity.
Qed.

(** ** Exact fractions *)

Lemma new_spec (n d : Z) :
  d <> 0 ->
  RobustFraction.new n d =
  Ok (RobustFraction.make (Z.sgn d * n / Z.gcd n d) (Z.abs d / Z.gcd n d)).
Proof.
  intros Hd. unfold RobustFraction.new.
  destruct (Z.eqb_spec d 0) as [|_]; [contradiction|].
  destruct (Z.ltb_spec d 0) as [Hneg|Hpos].
  - rewrite RobustFraction_gcd_spec by lia. simpl.
    rewrite Z.gcd_abs_l, Z.gcd_abs_r, Z.gcd_opp_l, Z.gcd_opp_r.
    replace (Z.sgn d) with (-1) by lia.
    replace (Z.abs d) with (- d) by lia.
    replace (-1 * n) with (- n) by lia. reflexivity.
  - rewrite RobustFraction_gcd_spec by lia. simpl.
    rewrite Z.gcd_abs_l, Z.gcd_abs_r.
    replace (Z.sgn d) with 1 by lia.
    replace (Z.abs d) with d by lia.
    rewrite Z.mul_1_l. reflexivity.
Qed.

Lemma new_wf (n d : Z) (f : RobustFraction.t) :
  RobustFraction.new n d = Ok f -> RobustFraction.wf f.
Proof.
  destruct (Z.eq_dec d 0) as [->|Hd].
  - discriminate.
  - rewrite new_spec by assumption. intros [= <-].
    set (g := Z.gcd n d).
    assert (Hg : 0 < g).
    { assert (0 <= g) by apply Z.gcd_nonneg.
      assert (g <> 0) by (unfold g; intros H0; apply Z.gcd_eq_0_r in H0; lia).
      lia. }
    assert (Hgd : (g | Z.abs d)).
    { apply Z.divide_abs_r. apply Z.gcd_divide_r. }
    assert (Hgn : (g | Z.sgn d * n)).
    { apply Z.divide_mul_r. apply Z.gcd_divide_l. }
    unfold RobustFraction.wf; simpl. split.
    + destruct Hgd as [k Hk]. rewrite Hk, Z.div_mul by lia. nia.
    + rewrite Z.gcd_abs_l.
      apply Z.gcd_div_gcd; [lia|].
      unfold g. rewrite Z.gcd_abs_r.
      destruct (Z.sgn_spec d) as [[_ ->]|[[Hd0 ->]|[_ ->]]].
      * now rewrite Z.mul_1_l.
      * lia.
      * replace (-1 * n) with (- n) by lia. now rewrite Z.gcd_opp_l.
Qed.

Lemma new_returns (n d : Z) :
  d <> 0 -> exists f, RobustFraction.new n d = Ok f /\ RobustFraction.wf f.
Proof.
  intros Hd. eexists. split; [apply new_spec; assumption|].
  eapply new_wf. apply new_spec. assumption.
Qed.

Lemma new_safe (n d : Z) : safe (RobustFraction.new n d) RobustFraction.wf.
Proof.
  destruct (RobustFraction.new n d) as [f| |] eqn:E; simpl; auto.
  - eapply new_wf. exact E.
  - destruct (Z.eq_dec d 0) as [->|Hd]; [discriminate|].
    rewrite new_spec in E by assumption. discriminate.
Qed.



(** ** The formula parser returns *)

Section ParserReturns.

Variable periodicTable : list str.

Lemma parseElement_safe (token : Token.t) (rest : list Token.t) (elements : Dict) :
  safe (parseElement periodicTable token rest elements)
       (fun r => (List.length (snd r) <= List.length rest)%nat).
Proof.
  unfold parseElement.
  destruct (negb (isValidElement periodicTable (Token.value token)));
    [exact I|].
  destruct rest as [|next rest']; simpl; [lia|].
  destruct (Token.type next); simpl; try lia.
  destruct (_ || _); simpl; [exact I | lia].
Qed.

Lemma parseParentheses_safe
      (parseGroup : list Token.t -> Exc (Dict * list Token.t))
      (rest : list Token.t) (elements : Dict) :
  safe (parseGroup rest)
       (fun r => (List.length (snd r) <= List.length rest)%nat) ->
  safe (parseParentheses parseGroup rest elements)
       (fun r => (List.length (snd r) < List.length rest)%nat).
Proof.
  intros Hpg. unfold parseParentheses.
  eapply safe_bind; [exact Hpg|].
  intros [groupElements rest1] Hlen; simpl in Hlen.
  destruct rest1 as [|token rest']; [exact I|].
  destruct (Token.type token); try exact I.
  destruct rest' as [|token' rest'']; simpl in *; [lia|].
  destruct (Token.type token'); simpl; try lia.
  destruct (_ || _); simpl; [exact I | lia].
Qed.

(** One unit of fuel per token, and one more, is enough for [parseGroup]. *)
Lemma parseGroup_loop_safe (fuel : nat) :
  forall (tokens : list Token.t) (elements : Dict),
    (List.length tokens < fuel)%nat ->
    safe (parseGroup_loop periodicTable fuel elements tokens)
         (fun r => (List.length (snd r) <= List.length tokens)%nat).
Proof.
  induction fuel as [|fuel IH]; intros tokens elements Hfuel; [lia|].
  simpl. destruct tokens as [|token rest]; [simpl; lia|].
  simpl in Hfuel.
  destruct (Token.type token).
  - eapply safe_bind; [apply parseElement_safe|].
    intros [elements' rest'] Hlen; simpl in Hlen.
    eapply safe_weaken; [apply IH; lia|].
    intros [? ?]; simpl; lia.
  - exact I.
  - eapply safe_bind.
    + apply parseParentheses_safe. apply IH. lia.
    + intros [elements' rest'] Hlen; simpl in Hlen.
      eapply safe_weaken; [apply IH; lia|].
      intros [? ?]; simpl; lia.
  - simpl. lia.
Qed.

Lemma parse_yields (tokens : list Token.t) :
  yields (parse periodicTable tokens) ParseResult_shape.
Proof.
  unfold parse. apply yields_catch.
  - eapply safe_bind.
    + unfold parseGroup. apply parseGroup_loop_safe. lia.
    + intros [elements rest] _. destruct rest; simpl; unfold ParseResult_shape;
        simpl; congruence.
  - intros e. apply yields_ret. unfold ParseResult_shape; simpl. congruence.
Qed.

Lemma parseChemicalFormula_yields (formula : str) :
  yields (parseChemicalFormula periodicTable formula) ParsedFormula_shape.
Proof.
  unfold parseChemicalFormula, ParsedFormula_shape.
  destruct (_ || _); [apply yields_ret; right; simpl; split; congruence|].
  destruct (_ >? _); [apply yields_ret; right; simpl; split; congruence|].
  destruct (_ =? _); [apply yields_ret; right; simpl; split; congruence|].
  eapply yields_bind; [apply parse_yields|].
  intros parseResult Hshape.
  destruct (ParseResult.isValid parseResult) eqn:Hvalid; simpl.
  - destruct (_ >? _); apply yields_ret; simpl;
      [right | left]; split; congruence.
  - apply yields_ret. right. simpl. split; [reflexivity | now apply Hshape].
Qed.

Lemma parseChemicalFormula_returns (formula : str) :
  returns (parseChemicalFormula periodicTable formula).
Proof. eapply yields_returns. apply parseChemicalFormula_yields. Qed.

Lemma validateChemicalFormula_returns (formula : str) :
  yields (validateChemicalFormula periodicTable formula) any.
Proof.
  unfold validateChemicalFormula.
  destruct (_ || _); [now apply yields_ret|].
  destruct (_ >? _); [now apply yields_ret|].
  destruct (negb (validateFormulaSyntax _)); [now apply yields_ret|].
  eapply yields_bind; [apply parseChemicalFormula_yields|].
  intros parsed _. destruct (negb _); now apply yields_ret.
Qed.



End ParserReturns.

(** ** The balancer returns *)




Section BalancerReturns.

Variable periodicTable : list str.


Lemma getAllElements_yields (compounds : list EquationCompound.t) :
  yields (getAllElements periodicTable compounds) any.
Proof.
  unfold getAllElements. eapply yields_bind.
  - apply yields_foldM with (I := any); [|exact I].
    intros elementSet compound _ _.
    eapply yields_bind; [apply parseChemicalFormula_yields|].
    intros parsed _. destruct (ParsedFormula.isValid parsed); now apply yields_ret.
  - intros elementSet _. now apply yields_ret.
Qed.


Lemma countElementInSide_yields (compounds : list EquationCompound.t)
      (element : str) :
  yields (countElementInSide periodicTable compounds element) any.
Proof.
  unfold countElementInSide. apply yields_foldM; [|exact I].
  intros totalCount compound _ _.
  eapply yields_bind; [apply parseChemicalFormula_yields|].
  intros parsed _. destruct (ParsedFormula.isValid parsed);
    [destruct (find _ _)|]; now apply yields_ret.
Qed.





(** The stages of the algebraic method do not run out of fuel. *)

Lemma of_int_safe (n : Z) : safe (RobustFraction.of_int n) any.
Proof.
  eapply safe_weaken; [apply new_safe | intros; exact I].
Qed.

Lemma cell_safe (matrix : Matrix) (row col : nat) : safe (cell matrix row col) any.
Proof.
  unfold cell. destruct (nth_error matrix row) as [r|]; [|exact I].
  destruct (nth_error r col); exact I.
Qed.

Ltac fraction_op :=
  unfold RobustFraction.add, RobustFraction.subtract, RobustFraction.multiply,
    RobustFraction.abs, RobustFraction.negate, RobustFraction.of_int;
  eapply safe_weaken; [apply new_safe | intros; exact I].

Lemma divide_safe (a b : RobustFraction.t) : safe (RobustFraction.divide a b) any.
Proof.
  unfold RobustFraction.divide. destruct (_ =? _); [exact I|]. fraction_op.
Qed.


Lemma findPivot_safe (workMatrix : Matrix) (rows currentRow col : nat) :
  safe (findPivot workMatrix rows currentRow col) any.
Proof.
  unfold findPivot. eapply safe_bind; [apply of_int_safe|]. intros zero _.
  apply safe_foldM with (I := any); [|exact I].
  intros [bestPivotRow bestPivotValue] row _ _.
  eapply safe_bind; [apply cell_safe|]. intros value _.
  eapply safe_bind; [fraction_op|]. intros absValue _.
  eapply safe_bind; [fraction_op|]. intros absBest _.
  destruct (RobustFraction.toDecimal_gtb _ _); exact I.
Qed.

Lemma normalizeRow_safe (workMatrix : Matrix) (cols currentRow : nat)
      (pivotValue : RobustFraction.t) :
  safe (normalizeRow workMatrix cols currentRow pivotValue) any.
Proof.
  unfold normalizeRow. apply safe_foldM with (I := any); [|exact I].
  intros m c _ _.
  eapply safe_bind; [apply cell_safe|]. intros value _.
  eapply safe_bind; [apply divide_safe|]. intros quotient _. exact I.
Qed.

Lemma eliminateColumn_safe (workMatrix : Matrix) (rows cols currentRow col : nat) :
  safeT (eliminateColumn workMatrix rows cols currentRow col) any.
Proof.
  unfold eliminateColumn. apply safeT_foldT with (I := any); [|exact I].
  intros m row _ _.
  destruct (Nat.eqb row currentRow); [now apply safeT_ret|].
  eapply safeT_bind; [apply safeT_lift, cell_safe|]. intros factor _.
  destruct (RobustFraction.isZero factor); [now apply safeT_ret|].
  eapply safeT_bind.
  - apply safeT_lift. apply safe_foldM with (I := any); [|exact I].
    intros m' c _ _.
    eapply safe_bind; [apply cell_safe|]. intros pivotCell _.
    eapply safe_bind; [fraction_op|]. intros subtraction _.
    eapply safe_bind; [apply cell_safe|]. intros value _.
    eapply safe_bind; [fraction_op|]. intros difference _. exact I.
  - intros m' _. eapply safeT_bind; [apply safeT_push|].
    intros _ _. now apply safeT_ret.
Qed.









End BalancerReturns.

(** ** Unfolding the parser on given tokens *)






(** ** The early return of the trial-and-error method *)

Section EarlyReturn.

Variable periodicTable : list str.

Lemma checkBalance_loop_conserved
      (tempReactants tempProducts : list EquationCompound.t)
      (allElements : list str) :
  (forall element,
      In element allElements ->
      countElementInSide periodicTable tempReactants element
      = countElementInSide periodicTable tempProducts element) ->
  checkBalance_loop periodicTable tempReactants tempProducts allElements = Ok true.
Proof.
  induction allElements as [|element allElements IH]; intros Hcons; simpl.
  - reflexivity.
  - assert (Hel := Hcons element (or_introl eq_refl)).
    destruct (countElementInSide_yields periodicTable tempReactants element)
      as [reactantCount [Hr _]].
    rewrite Hr in Hel. rewrite Hr, <- Hel. simpl.
    rewrite Z.eqb_refl. simpl.
    apply IH. intros e He. apply Hcons. now right.
Qed.

(** C9. When every element is conserved with all coefficients taken to be
    1, [balanceByTrialAndError] answers with a valid result whose
    [balancedReactants] and [balancedProducts] are the compound lists of the
    input as they came, with the coefficients the input carried. *)
Theorem balanceByTrialAndError_already_balanced
        (equation : ChemicalEquation.t) (maxIterations : Z) :
  let reactants := ChemicalEquation.reactants equation in
  let products := ChemicalEquation.products equation in
  (forall allElements element,
      getAllElements periodicTable (reactants ++ products) = Ok allElements ->
      In element allElements ->
      countElementInSide periodicTable
        (withCoefficients reactants (ones (List.length reactants))) element
      = countElementInSide periodicTable
          (withCoefficients products (ones (List.length products))) element) ->
  exists result,
    balanceByTrialAndError periodicTable equation maxIterations = Ok result
    /\ BalanceResult.isValid result = true
    /\ BalanceResult.error result = None
    /\ BalanceResult.balancedReactants result = reactants
    /\ BalanceResult.balancedProducts result = products.
Proof.
  intros reactants products Hcons.
  unfold balanceByTrialAndError. fold reactants products.
  destruct (getAllElements_yields periodicTable (reactants ++ products))
    as [allElements [Hall _]].
  rewrite Hall. simpl.
  unfold checkBalance.
  rewrite checkBalance_loop_conserved by (intros e He; now apply (Hcons allElements)).
  simpl. eexists. repeat split; reflexivity.
Qed.

End EarlyReturn.

(** C9 on the equation parsed from "2H2O = 2H2O": both coefficients 2 come
    back. *)
Lemma balanceByTrialAndError_already_balanced_witness :
  exists result,
    balanceByTrialAndError standardPeriodicTable
      (ChemicalEquation.make [EquationCompound.make (lit "H2O") 2]
                             [EquationCompound.make (lit "H2O") 2])
      defaultMaxIterations = Ok result
    /\ BalanceResult.isValid result = true
    /\ BalanceResult.error result = None
    /\ BalanceResult.balancedReactants result
       = [EquationCompound.make (lit "H2O") 2]
    /\ BalanceResult.balancedProducts result
       = [EquationCompound.make (lit "H2O") 2].
Proof.
  apply (balanceByTrialAndError_already_balanced standardPeriodicTable
           (ChemicalEquation.make [EquationCompound.make (lit "H2O") 2]
                                  [EquationCompound.make (lit "H2O") 2])).
  intros allElements element _ _. reflexivity.
Defined.

(** ** The overdetermined system *)

Section Overdetermined.

Variable periodicTable : list str.

Lemma buildElementMatrix_compounds (equation : ChemicalEquation.t)
      (built : ElementMatrix.t) :
  buildElementMatrix periodicTable equation = Ok built ->
  ElementMatrix.compounds built
  = map EquationCompound.formula
        (ChemicalEquation.reactants equation ++ ChemicalEquation.products equation).
Proof.
  unfold buildElementMatrix.
  destruct (foldM _ _ _) as [[elementSet compoundElements]| |]; simpl;
    try discriminate.
  destruct (foldM _ _ _) as [[matrix steps]| |]; simpl; try discriminate.
  now intros [= <-].
Qed.

(** C7. When the elimination finds as many pivot columns as there are
    compounds, [balanceByAlgebraicMethodRobust] answers with the invalid
    result of the overdetermined system; its trace is the trace of the
    elimination, so no step of the null-space extraction was run. *)
Theorem overdetermined_system_is_rejected
        (equation : ChemicalEquation.t) (built : ElementMatrix.t)
        (eliminated : Elimination.t) (trace : list Text) :
  buildElementMatrix periodicTable equation = Ok built ->
  gaussianEliminationRobust (ElementMatrix.matrix built) [] = (Ok eliminated, trace) ->
  Elimination.rank eliminated
  = (List.length (ChemicalEquation.reactants equation)
     + List.length (ChemicalEquation.products equation))%nat ->
  balanceByAlgebraicMethodRobust periodicTable equation
  = Ok (createErrorResult equation algebraic trace [Lit "Sistema sobredeterminado"])
  /\ BalanceResult.isValid
       (createErrorResult equation algebraic trace [Lit "Sistema sobredeterminado"])
     = false.
Proof.
  intros Hbuilt Helim Hrank. split; [|reflexivity].
  unfold balanceByAlgebraicMethodRobust, tryT, bindT, liftT.
  rewrite Hbuilt, Helim.
  rewrite (buildElementMatrix_compounds _ _ Hbuilt).
  rewrite length_map, length_app, Hrank, Nat.eqb_refl.
  reflexivity.
Qed.

End Overdetermined.

(** C7 on the equation "H2 = O2": two pivots for two compounds. *)
Lemma overdetermined_system_is_rejected_witness :
  exists trace,
    balanceByAlgebraicMethodRobust standardPeriodicTable
      (ChemicalEquation.make [EquationCompound.make (lit "H2") 1]
                             [EquationCompound.make (lit "O2") 1])
    = Ok (createErrorResult
            (ChemicalEquation.make [EquationCompound.make (lit "H2") 1]
                                   [EquationCompound.make (lit "O2") 1])
            algebraic trace [Lit "Sistema sobredeterminado"]).
Proof.
  eexists.
  refine (proj1 (overdetermined_system_is_rejected standardPeriodicTable
                   (ChemicalEquation.make [EquationCompound.make (lit "H2") 1]
                                          [EquationCompound.make (lit "O2") 1])
                   _ _ _ _ _ _)).
  - vm_compute. reflexivity.
  - vm_compute. reflexivity.
  - reflexivity.
Defined.

(** ** The algebraic method reads the formulas only *)






Section FormulasOnly.

Variable periodicTable : list str.





End FormulasOnly.



(** ** Runs on given equations *)

(** C4. On "H2 + O2 = H2O" both methods return a valid result with the
    coefficients 2, 1, 2, that is 2H2 + O2 -> 2H2O. *)
Theorem hydrogen_and_oxygen_give_water :
  answer (balanceChemicalEquation standardPeriodicTable
            (request "H2 + O2 = H2O" trial_and_error))
  = Some (true, [2; 1; 2])
  /\ answer (balanceChemicalEquation standardPeriodicTable
               (request "H2 + O2 = H2O" algebraic))
     = Some (true, [2; 1; 2])
  /\ answer (balanceChemicalEquation standardPeriodicTable
               (BalanceInput.make (lit "H2 + O2 = H2O") None))
     = Some (true, [2; 1; 2]).
Proof. repeat split; vm_compute; reflexivity. Qed.

(** C1, at the input where the code departs from it. On "2H2O = H2O" the
    trial-and-error method finds the equation balanced with all coefficients
    taken to be 1 and returns the compounds of the input: a valid result
    with 4 atoms of hydrogen on the left and 2 on the right. *)
Theorem early_return_reports_unbalanced_input_as_valid :
  exists result,
    balanceChemicalEquation standardPeriodicTable
      (request "2H2O = H2O" trial_and_error) = Ok result
    /\ BalanceResult.isValid result = true
    /\ coefficientVector result = [2; 1]
    /\ countElementInSide standardPeriodicTable
         (BalanceResult.balancedReactants result) (lit "H") = Ok 4
    /\ countElementInSide standardPeriodicTable
         (BalanceResult.balancedProducts result) (lit "H") = Ok 2.
Proof.
  destruct (balanceChemicalEquation standardPeriodicTable
              (request "2H2O = H2O" trial_and_error)) as [result| |] eqn:E;
    [|vm_compute in E; discriminate..].
  exists result. split; [reflexivity|].
  vm_compute in E. injection E as <-.
  repeat split; vm_compute; reflexivity.
Qed.

(** C2, at the input where the code departs from it. On
    "C + H2 + O2 = CO2 + H2O" the null space has two dimensions; the
    algebraic method sets the second free variable to 0 and returns a valid
    result in which H2 and H2O have the coefficient 0. *)
Theorem algebraic_method_returns_zero_coefficients :
  answer (balanceChemicalEquation standardPeriodicTable
            (request "C + H2 + O2 = CO2 + H2O" algebraic))
  = Some (true, [1; 0; 1; 1; 0])
  /\ answer (balanceChemicalEquation standardPeriodicTable
               (request "H2 + O2 = H2 + O2" algebraic))
     = Some (true, [1; 0; 1; 0]).
Proof. split; vm_compute; reflexivity. Qed.

(** C3, at the input where the code departs from it. On "2H2O = 2H2O" the
    trial-and-error method returns the compounds of the input: a valid
    result with the coefficients 2, 2, whose greatest common divisor
    is 2. *)
Theorem early_return_keeps_common_factor :
  answer (balanceChemicalEquation standardPeriodicTable
            (request "2H2O = 2H2O" trial_and_error))
  = Some (true, [2; 2])
  /\ Helpers.gcd [2; 2] = Ok 2.
Proof. split; vm_compute; reflexivity. Qed.

(** ** Character classes *)

Ltac charclass :=
  unfold isFormulaChar, isUpper, isLower, isDigit, isWhitespace,
    isLineTerminator, between, char_eqb, openParen, closeParen in *;
  repeat match goal with
         | |- _ = false => apply not_true_is_false; intro
         | H : _ = false |- _ => apply not_true_iff_false in H
         end;
  rewrite ?orb_true_iff, ?andb_true_iff, ?N.leb_le, ?N.eqb_eq in *;
  lia.

Lemma upper_not_space c : isUpper c = true -> isWhitespace c = false.
Proof. intros. charclass. Qed.

Lemma lower_not_space c : isLower c = true -> isWhitespace c = false.
Proof. intros. charclass. Qed.

Lemma digit_not_space c : isDigit c = true -> isWhitespace c = false.
Proof. intros. charclass. Qed.

Lemma open_not_space c : char_eqb c openParen = true -> isWhitespace c = false.
Proof. intros. charclass. Qed.

Lemma close_not_space c : char_eqb c closeParen = true -> isWhitespace c = false.
Proof. intros. charclass. Qed.

Lemma lower_not_upper c : isLower c = true -> isUpper c = false.
Proof. intros. charclass. Qed.

Lemma lower_not_digit c : isLower c = true -> isDigit c = false.
Proof. intros. charclass. Qed.

Lemma lower_not_open c : isLower c = true -> char_eqb c openParen = false.
Proof. intros. charclass. Qed.

Lemma lower_not_close c : isLower c = true -> char_eqb c closeParen = false.
Proof. intros. charclass. Qed.

Lemma digit_not_upper c : isDigit c = true -> isUpper c = false.
Proof. intros. charclass. Qed.

(** ** Removing white space *)

(** ** The tokenizer *)

Lemma tokenize_from_digit (position : Z) (char : char) (rest : str) :
  isDigit char = true ->
  tokenize_from position (char :: rest) = tokenize_digits [char] position rest.
Proof.
  intros Hd. simpl. rewrite (digit_not_upper _ Hd), Hd. reflexivity.
Qed.

Lemma tokenize_digits_spec (rest : str) :
  forall num position,
    tokenize_digits num position rest
    = consToken
        (Token.make TokenType.number (num ++ takeWhile isDigit rest)
                    (position + Z.of_nat (List.length (takeWhile isDigit rest))))
        (tokenize_from
           (position + Z.of_nat (List.length (takeWhile isDigit rest)) + 1)
           (dropWhile isDigit rest)).
Proof.
  induction rest as [|next rest IH]; intros num position;
    cbn [tokenize_digits takeWhile dropWhile].
  - simpl. now rewrite app_nil_r, Z.add_0_r.
  - destruct (isDigit next) eqn:Hd.
    + rewrite IH. simpl List.length. rewrite <- app_assoc. simpl app.
      rewrite Nat2Z.inj_succ.
      replace (position + 1 + Z.of_nat (List.length (takeWhile isDigit rest)))
        with (position + Z.succ (Z.of_nat (List.length (takeWhile isDigit rest))))
        by lia.
      reflexivity.
    + cbn [List.length Z.of_nat]. rewrite app_nil_r, !Z.add_0_r. reflexivity.
Qed.

Ltac invert_consToken H :=
  match type of H with
  | consToken _ ?m = Some _ =>
    let E := fresh "Htail" in
    destruct m eqn:E; simpl in H; [injection H as <- | discriminate H]
  | match ?m with Some _ => _ | None => _ end = Some _ =>
    let E := fresh "Htail" in
    destruct m eqn:E; simpl in H; [injection H as <- | discriminate H]
  end.

(** What the first code unit after the white space says about the first
    token. *)
Lemma tokenize_from_head (formula : str) :
  forall position tokens,
    tokenize_from position formula = Some tokens ->
    match removeWhitespace formula with
    | [] => tokens = []
    | char :: _ =>
      isLower char = false
      /\ (isDigit char = true -> startsWithNumber tokens = true)
      /\ tokens <> []
    end.
Proof.
  induction formula as [|char rest IH]; intros position tokens Htok.
  - simpl in *. now injection Htok as <-.
  - destruct (isWhitespace char) eqn:Hws.
    + unfold removeWhitespace. simpl filter. rewrite Hws. simpl negb. cbv iota.
      fold (removeWhitespace rest).
      assert (Hskip : tokenize_from position (char :: rest)
                      = tokenize_from (position + 1) rest).
      { simpl.
        destruct (isUpper char) eqn:Hu;
          [apply upper_not_space in Hu; congruence|].
        destruct (isDigit char) eqn:Hd;
          [apply digit_not_space in Hd; congruence|].
        destruct (char_eqb char openParen) eqn:Ho;
          [apply open_not_space in Ho; congruence|].
        destruct (char_eqb char closeParen) eqn:Hc;
          [apply close_not_space in Hc; congruence|].
        now rewrite Hws. }
      rewrite Hskip in Htok. eapply IH. exact Htok.
    + unfold removeWhitespace. simpl filter. rewrite Hws. simpl negb. cbv iota.
      destruct (isDigit char) eqn:Hd.
      * rewrite tokenize_from_digit, tokenize_digits_spec in Htok by assumption.
        invert_consToken Htok. repeat split; try discriminate.
        now apply not_true_is_false; intros Hl; apply lower_not_digit in Hl; congruence.
      * simpl in Htok. rewrite Hd in Htok.
        destruct (isUpper char) eqn:Hu.
        { assert (Hl : isLower char = false)
            by (apply not_true_is_false; intros Hl;
                apply lower_not_upper in Hl; congruence).
          split; [exact Hl|]. split; [discriminate|].
          destruct rest as [|next rest']; [now injection Htok as <-|].
          destruct (isLower next); invert_consToken Htok; discriminate. }
        destruct (char_eqb char openParen) eqn:Ho.
        { split; [apply not_true_is_false; intros Hl;
                  apply lower_not_open in Hl; congruence|].
          split; [discriminate|].
          invert_consToken Htok; discriminate. }
        destruct (char_eqb char closeParen) eqn:Hc.
        { split; [apply not_true_is_false; intros Hl;
                  apply lower_not_close in Hl; congruence|].
          split; [discriminate|].
          invert_consToken Htok; discriminate. }
        rewrite Hws in Htok. discriminate.
Qed.

(** The equations of [tokenize_from], one for each kind of code unit. *)

Lemma tokenize_from_space position char rest :
  isWhitespace char = true ->
  tokenize_from position (char :: rest) = tokenize_from (position + 1) rest.
Proof.
  intros Hws. simpl.
  destruct (isUpper char) eqn:Hu; [apply upper_not_space in Hu; congruence|].
  destruct (isDigit char) eqn:Hd; [apply digit_not_space in Hd; congruence|].
  destruct (char_eqb char openParen) eqn:Ho;
    [apply open_not_space in Ho; congruence|].
  destruct (char_eqb char closeParen) eqn:Hc;
    [apply close_not_space in Hc; congruence|].
  now rewrite Hws.
Qed.

Lemma tokenize_from_upper_lower position char next rest :
  isUpper char = true -> isLower next = true ->
  tokenize_from position (char :: next :: rest)
  = consToken (Token.make TokenType.element [char; next] (position + 1))
              (tokenize_from (position + 2) rest).
Proof. intros Hu Hl. simpl. now rewrite Hu, Hl. Qed.

Lemma tokenize_from_upper position char rest :
  isUpper char = true ->
  match rest with
  | next :: _ => isLower next = false
  | [] => True
  end ->
  tokenize_from position (char :: rest)
  = consToken (Token.make TokenType.element [char] position)
              (tokenize_from (position + 1) rest).
Proof.
  intros Hu Hnext. cbn [tokenize_from]. rewrite Hu.
  destruct rest as [|next rest']; [reflexivity|]. now rewrite Hnext.
Qed.

Lemma tokenize_from_open position char rest :
  char_eqb char openParen = true ->
  tokenize_from position (char :: rest)
  = consToken (Token.make TokenType.open_paren [char] position)
              (tokenize_from (position + 1) rest).
Proof.
  intros Ho. cbn [tokenize_from].
  assert (Hu : isUpper char = false) by charclass.
  assert (Hd : isDigit char = false) by charclass.
  now rewrite Hu, Hd, Ho.
Qed.

Lemma tokenize_from_close position char rest :
  char_eqb char closeParen = true ->
  tokenize_from position (char :: rest)
  = consToken (Token.make TokenType.close_paren [char] position)
              (tokenize_from (position + 1) rest).
Proof.
  intros Hc. cbn [tokenize_from].
  assert (Hu : isUpper char = false) by charclass.
  assert (Hd : isDigit char = false) by charclass.
  assert (Ho : char_eqb char openParen = false) by charclass.
  now rewrite Hu, Hd, Ho, Hc.
Qed.

Lemma tokenize_from_other position char rest :
  isUpper char = false -> isDigit char = false ->
  char_eqb char openParen = false -> char_eqb char closeParen = false ->
  isWhitespace char = false ->
  tokenize_from position (char :: rest) = None.
Proof. intros Hu Hd Ho Hc Hws. simpl. now rewrite Hu, Hd, Ho, Hc, Hws. Qed.

Lemma removeWhitespace_space char rest :
  isWhitespace char = true ->
  removeWhitespace (char :: rest) = removeWhitespace rest.
Proof. intros H. unfold removeWhitespace. simpl. now rewrite H. Qed.

Lemma removeWhitespace_keep char rest :
  isWhitespace char = false ->
  removeWhitespace (char :: rest) = char :: removeWhitespace rest.
Proof. intros H. unfold removeWhitespace. simpl. now rewrite H. Qed.

Lemma removeWhitespace_digits (rest : str) :
  removeWhitespace rest
  = takeWhile isDigit rest ++ removeWhitespace (dropWhile isDigit rest).
Proof.
  induction rest as [|next rest IH]; [reflexivity|].
  cbn [takeWhile dropWhile]. destruct (isDigit next) eqn:Hd; [|reflexivity].
  rewrite removeWhitespace_keep by now apply digit_not_space.
  simpl. now rewrite IH.
Qed.

Lemma takeWhile_all (l : list char) : forallb isDigit (takeWhile isDigit l) = true.
Proof.
  induction l as [|x l IH]; [reflexivity|]. simpl.
  destruct (isDigit x) eqn:Hd; [|reflexivity]. simpl. now rewrite Hd.
Qed.

Lemma takeWhile_app_stop (p : char -> bool) (l1 l2 : list char) :
  forallb p l1 = true ->
  match l2 with
  | x :: _ => p x = false
  | [] => True
  end ->
  takeWhile p (l1 ++ l2) = l1 /\ dropWhile p (l1 ++ l2) = l2.
Proof.
  intros Hall Hstop. induction l1 as [|x l1 IH]; simpl in *.
  - destruct l2 as [|y l2]; [now split|]. simpl. now rewrite Hstop.
  - apply andb_true_iff in Hall as [Hx Hl1]. rewrite Hx.
    destruct (IH Hl1) as [-> ->]. now split.
Qed.

Lemma length_dropWhile {A} (p : A -> bool) (l : list A) :
  (List.length (dropWhile p l) <= List.length l)%nat.
Proof.
  induction l as [|x l IH]; simpl; [lia|]. destruct (p x); simpl; lia.
Qed.

(** Tokenizing after the white space has been removed gives the same tokens,
    positions apart, provided no two numbers are adjacent; and only code
    units of formulas are left. *)
Lemma tokenize_from_removeWhitespace (n : nat) :
  forall formula position tokens,
    (List.length formula <= n)%nat ->
    tokenize_from position formula = Some tokens ->
    noAdjacentNumbers tokens ->
    forallb isFormulaChar (removeWhitespace formula) = true
    /\ forall position',
        exists tokens',
          tokenize_from position' (removeWhitespace formula) = Some tokens'
          /\ shape tokens' = shape tokens.
Proof.
  induction n as [|n IH]; intros formula position tokens Hlen Htok Hadj.
  { destruct formula; [|simpl in Hlen; lia]. simpl in Htok.
    injection Htok as <-. split; [reflexivity|]. intros p'. now exists []. }
  destruct formula as [|char rest].
  { simpl in Htok. injection Htok as <-. split; [reflexivity|].
    intros p'. now exists []. }
  simpl in Hlen.
  destruct (isWhitespace char) eqn:Hws.
  { rewrite tokenize_from_space in Htok by assumption.
    rewrite removeWhitespace_space by assumption.
    apply (IH rest (position + 1) tokens); [lia | assumption..]. }
  rewrite removeWhitespace_keep by assumption.
  destruct (isUpper char) eqn:Hu.
  { assert (Hfc : isFormulaChar char = true) by (unfold isFormulaChar; now rewrite Hu).
    destruct rest as [|next rest'].
    - rewrite tokenize_from_upper in Htok by (auto; exact I).
      simpl in Htok. injection Htok as <-.
      split; [simpl; now rewrite Hfc|].
      intros p'. eexists. split.
      { cbn [removeWhitespace filter].
        rewrite tokenize_from_upper by (auto; exact I). reflexivity. }
      reflexivity.
    - destruct (isLower next) eqn:Hl.
      + rewrite tokenize_from_upper_lower in Htok by assumption.
        invert_consToken Htok. destruct Hadj as [_ Hadj].
        simpl in Hlen.
        destruct (IH rest' _ _ ltac:(lia) Htail Hadj) as [Hchars Hrec].
        rewrite removeWhitespace_keep by now apply lower_not_space.
        split.
        * cbn [forallb]. rewrite Hfc, Hchars.
          unfold isFormulaChar. now rewrite Hl, orb_true_r.
        * intros p'. destruct (Hrec (p' + 2)) as [tokens' [Htok' Hshape]].
          eexists. split.
          { rewrite tokenize_from_upper_lower by assumption.
            rewrite Htok'. reflexivity. }
          simpl. now rewrite Hshape.
      + rewrite tokenize_from_upper in Htok by assumption.
        invert_consToken Htok. destruct Hadj as [_ Hadj].
        destruct (IH (next :: rest') _ _ ltac:(simpl in *; lia) Htail Hadj)
          as [Hchars Hrec].
        split; [cbn [forallb]; now rewrite Hfc, Hchars|].
        intros p'. destruct (Hrec (p' + 1)) as [tokens' [Htok' Hshape]].
        eexists. split.
        { rewrite tokenize_from_upper; [rewrite Htok'; reflexivity | assumption |].
          pose proof (tokenize_from_head _ _ _ Htail) as Hhead.
          destruct (removeWhitespace (next :: rest')); [exact I | apply Hhead]. }
        simpl. now rewrite Hshape. }
  destruct (isDigit char) eqn:Hd.
  { assert (Hfc : isFormulaChar char = true)
      by (unfold isFormulaChar; now rewrite Hd, !orb_true_r).
    rewrite tokenize_from_digit, tokenize_digits_spec in Htok by assumption.
    invert_consToken Htok. destruct Hadj as [Hstart Hadj].
    specialize (Hstart eq_refl).
    pose proof (length_dropWhile isDigit rest) as Hdrop.
    destruct (IH (dropWhile isDigit rest) _ _ ltac:(lia) Htail Hadj)
      as [Hchars Hrec].
    pose proof (tokenize_from_head _ _ _ Htail) as Hhead.
    assert (Hstop :
              match removeWhitespace (dropWhile isDigit rest) with
              | x :: _ => isDigit x = false
              | [] => True
              end).
    { destruct (removeWhitespace (dropWhile isDigit rest)) as [|x r];
        [exact I|].
      destruct Hhead as [_ [Hnum _]].
      destruct (isDigit x); [|reflexivity].
      rewrite Hnum in Hstart by reflexivity. discriminate. }
    destruct (takeWhile_app_stop isDigit _ _ (takeWhile_all rest) Hstop)
      as [Htake Hdrop'].
    rewrite <- removeWhitespace_digits in Htake, Hdrop'.
    split.
    - cbn [forallb]. rewrite Hfc. cbn [andb].
      rewrite (removeWhitespace_digits rest), forallb_app, Hchars, andb_true_r.
      pose proof (takeWhile_all rest) as Hall.
      rewrite forallb_forall in *. intros x Hx. unfold isFormulaChar.
      now rewrite (Hall x Hx), !orb_true_r.
    - intros p'.
      destruct (Hrec (p' + Z.of_nat (List.length (takeWhile isDigit rest)) + 1))
        as [tokens' [Htok' Hshape]].
      eexists. split.
      { rewrite tokenize_from_digit, tokenize_digits_spec by assumption.
        rewrite Htake, Hdrop', Htok'. reflexivity. }
      simpl. now rewrite Hshape. }
  destruct (char_eqb char openParen) eqn:Ho.
  { assert (Hfc : isFormulaChar char = true)
      by (unfold isFormulaChar; now rewrite Ho, !orb_true_r).
    rewrite tokenize_from_open in Htok by assumption.
    invert_consToken Htok. destruct Hadj as [_ Hadj].
    destruct (IH rest _ _ ltac:(lia) Htail Hadj) as [Hchars Hrec].
    split; [cbn [forallb]; now rewrite Hfc, Hchars|].
    intros p'. destruct (Hrec (p' + 1)) as [tokens' [Htok' Hshape]].
    eexists. split.
    { rewrite tokenize_from_open by assumption. rewrite Htok'. reflexivity. }
    simpl. now rewrite Hshape. }
  destruct (char_eqb char closeParen) eqn:Hc.
  { assert (Hfc : isFormulaChar char = true)
      by (unfold isFormulaChar; now rewrite Hc, !orb_true_r).
    rewrite tokenize_from_close in Htok by assumption.
    invert_consToken Htok. destruct Hadj as [_ Hadj].
    destruct (IH rest _ _ ltac:(lia) Htail Hadj) as [Hchars Hrec].
    split; [cbn [forallb]; now rewrite Hfc, Hchars|].
    intros p'. destruct (Hrec (p' + 1)) as [tokens' [Htok' Hshape]].
    eexists. split.
    { rewrite tokenize_from_close by assumption. rewrite Htok'. reflexivity. }
    simpl. now rewrite Hshape. }
  rewrite tokenize_from_other in Htok by assumption. discriminate.
Qed.

(** ** The parser reads the kind and the text of a token only *)

Lemma sameOutcome_bind (m1 m2 : Exc (Dict * list Token.t))
      (k1 k2 : Dict * list Token.t -> Exc (Dict * list Token.t)) :
  sameOutcome m1 m2 ->
  (forall elements rest1 rest2,
      shape rest1 = shape rest2 ->
      sameOutcome (k1 (elements, rest1)) (k2 (elements, rest2))) ->
  sameOutcome (x <- m1 ;; k1 x) (x <- m2 ;; k2 x).
Proof.
  destruct m1 as [[e1 r1]|err1|], m2 as [[e2 r2]|err2|]; simpl;
    try contradiction; auto.
  intros [-> Hshape] Hk. now apply Hk.
Qed.

Section Positions.

Variable periodicTable : list str.

Lemma parseElement_shape token1 token2 rest1 rest2 elements :
  Token.type token1 = Token.type token2 ->
  Token.value token1 = Token.value token2 ->
  shape rest1 = shape rest2 ->
  sameOutcome (parseElement periodicTable token1 rest1 elements)
              (parseElement periodicTable token2 rest2 elements).
Proof.
  intros Htype Hvalue Hshape. unfold parseElement. rewrite Hvalue.
  destruct (negb _); [reflexivity|].
  destruct rest1 as [|n1 rest1], rest2 as [|n2 rest2]; try discriminate;
    [simpl; auto|].
  unfold shape in *.
  simpl in Hshape. injection Hshape as Ht Hv Hrest. rewrite Ht, Hv.
  destruct (Token.type n2) eqn:Ht2; simpl;
    try (split; [reflexivity|]; unfold shape; congruence).
  destruct (_ || _); simpl; auto.
Qed.

Lemma parseParentheses_shape
      (parseGroup1 parseGroup2 : list Token.t -> Exc (Dict * list Token.t))
      rest1 rest2 elements :
  (forall r1 r2, shape r1 = shape r2 -> sameOutcome (parseGroup1 r1) (parseGroup2 r2)) ->
  shape rest1 = shape rest2 ->
  sameOutcome (parseParentheses parseGroup1 rest1 elements)
              (parseParentheses parseGroup2 rest2 elements).
Proof.
  intros Hpg Hshape. unfold parseParentheses.
  apply sameOutcome_bind; [now apply Hpg|].
  intros groupElements r1 r2 Hr.
  destruct r1 as [|t1 r1], r2 as [|t2 r2]; try discriminate; [reflexivity|].
  simpl in Hr. injection Hr as Ht Hv Hr. rewrite Ht.
  destruct (Token.type t2); try reflexivity.
  destruct r1 as [|n1 r1], r2 as [|n2 r2]; try discriminate; [simpl; auto|].
  unfold shape in *.
  simpl in Hr. injection Hr as Ht' Hv' Hr. rewrite Ht', Hv'.
  destruct (Token.type n2) eqn:Ht2; simpl;
    try (split; [reflexivity|]; unfold shape; congruence).
  destruct (_ || _); simpl; auto.
Qed.

Lemma parseGroup_loop_shape (fuel : nat) :
  forall elements tokens1 tokens2,
    shape tokens1 = shape tokens2 ->
    sameOutcome (parseGroup_loop periodicTable fuel elements tokens1)
                (parseGroup_loop periodicTable fuel elements tokens2).
Proof.
  induction fuel as [|fuel IH]; intros elements tokens1 tokens2 Hshape;
    [exact I|].
  destruct tokens1 as [|t1 rest1], tokens2 as [|t2 rest2]; try discriminate;
    [simpl; auto|].
  pose proof Hshape as Hall.
  simpl in Hshape. injection Hshape as Ht Hv Hrest.
  cbn [parseGroup_loop]. rewrite Ht.
  destruct (Token.type t2) eqn:Htype.
  - apply sameOutcome_bind.
    + apply parseElement_shape; congruence.
    + intros elements' r1 r2 Hr. now apply IH.
  - reflexivity.
  - apply sameOutcome_bind.
    + apply parseParentheses_shape; [|assumption].
      intros r1 r2 Hr. now apply IH.
    + intros elements' r1 r2 Hr. now apply IH.
  - simpl. auto.
Qed.

Lemma shape_length tokens1 tokens2 :
  shape tokens1 = shape tokens2 -> List.length tokens1 = List.length tokens2.
Proof.
  intros H. apply (f_equal (@List.length _)) in H. unfold shape in H.
  now rewrite !length_map in H.
Qed.

Lemma parse_shape tokens1 tokens2 :
  shape tokens1 = shape tokens2 ->
  parse periodicTable tokens1 = parse periodicTable tokens2.
Proof.
  intros Hshape. unfold parse, parseGroup.
  rewrite (shape_length _ _ Hshape).
  pose proof (parseGroup_loop_shape (S (List.length tokens2)) [] _ _ Hshape) as H.
  destruct (parseGroup_loop _ _ _ tokens1) as [[e1 r1]|err1|],
           (parseGroup_loop _ _ _ tokens2) as [[e2 r2]|err2|];
    simpl in H; try contradiction; simpl.
  - destruct H as [-> Hr].
    destruct r1, r2; try discriminate; reflexivity.
  - now subst.
  - reflexivity.
Qed.

(** ** A formula that parses has no two adjacent numbers *)

Ltac numbers_done :=
  simpl in *;
  repeat match goal with
         | H : Token.type _ = _ |- _ => rewrite H in *
         end;
  intuition (try congruence).

Lemma parseGroup_loop_numbers (fuel : nat) :
  forall elements tokens elements' rest,
    parseGroup_loop periodicTable fuel elements tokens = Ok (elements', rest) ->
    startsWithNumber tokens = false
    /\ startsWithNumber rest = false
    /\ (noAdjacentNumbers rest -> noAdjacentNumbers tokens).
Proof.
  induction fuel as [|fuel IH]; intros elements tokens elements' rest Hparse;
    [discriminate|].
  destruct tokens as [|token tokens0].
  { simpl in Hparse. injection Hparse as <- <-. auto. }
  cbn [parseGroup_loop] in Hparse.
  destruct (Token.type token) eqn:Htype.
  - (* an element, with or without a count *)
    unfold parseElement in Hparse.
    destruct (negb _); [discriminate|].
    destruct tokens0 as [|next tokens1].
    + simpl in Hparse. apply IH in Hparse as [_ [Hrest Hadj]]. numbers_done.
    + destruct (Token.type next) eqn:Hnext;
        [| destruct (_ || _); [discriminate|] | |];
        simpl in Hparse; apply IH in Hparse as [Hstart [Hrest Hadj]];
        numbers_done.
  - discriminate.
  - (* a parenthesised group *)
    unfold parseParentheses in Hparse.
    destruct (parseGroup_loop periodicTable fuel [] tokens0)
      as [[groupElements rest1]| |] eqn:Hgroup; try discriminate.
    apply IH in Hgroup as [Hstart0 [Hstart1 Hadj1]].
    simpl in Hparse.
    destruct rest1 as [|close rest2]; [discriminate|].
    destruct (Token.type close) eqn:Hclose; try discriminate.
    destruct rest2 as [|next rest3].
    + simpl in Hparse. apply IH in Hparse as [Hstart3 [Hrest Hadj3]].
      numbers_done.
    + destruct (Token.type next) eqn:Hnext;
        [| destruct (_ || _); [discriminate|] | |];
        simpl in Hparse; apply IH in Hparse as [Hstart3 [Hrest Hadj3]];
        numbers_done.
  - simpl in Hparse. injection Hparse as <- <-. numbers_done.
Qed.

Lemma parse_valid_numbers tokens parseResult :
  parse periodicTable tokens = Ok parseResult ->
  ParseResult.isValid parseResult = true ->
  noAdjacentNumbers tokens.
Proof.
  unfold parse, parseGroup. intros Hparse Hvalid.
  destruct (parseGroup_loop _ _ _ tokens) as [[elements rest]| |] eqn:Hloop;
    simpl in Hparse.
  - apply parseGroup_loop_numbers in Hloop as [_ [_ Hadj]].
    destruct rest; [now apply Hadj|].
    injection Hparse as <-. discriminate.
  - injection Hparse as <-. discriminate.
  - discriminate.
Qed.

End Positions.

(** ** Patterns and trimming *)

Lemma matches_Empty (s : str) : Regex.matches Regex.Empty s = false.
Proof. induction s as [|c s IH]; [reflexivity | exact IH]. Qed.

Lemma matches_star_class (p : char -> bool) (s : str) :
  forallb p s = true -> Regex.matches (Regex.Star (Regex.Class p)) s = true.
Proof.
  induction s as [|c s IH]; intros Hall; [reflexivity|].
  simpl in Hall. apply andb_true_iff in Hall as [Hc Hs].
  simpl. rewrite Hc. simpl. now apply IH.
Qed.

Lemma matches_plus_class (p : char -> bool) (s : str) :
  s <> [] -> forallb p s = true ->
  Regex.matches (Regex.Seq (Regex.Class p) (Regex.Star (Regex.Class p))) s = true.
Proof.
  destruct s as [|c s]; [congruence|]. intros _ Hall.
  simpl in Hall. apply andb_true_iff in Hall as [Hc Hs].
  simpl. rewrite Hc. simpl. now apply matches_star_class.
Qed.

Lemma dropWhile_head {A} (p : A -> bool) (l : list A) :
  match l with
  | x :: _ => p x = false
  | [] => True
  end ->
  dropWhile p l = l.
Proof. destruct l as [|x l]; [reflexivity|]. simpl. now intros ->. Qed.

Lemma trim_without_space (s : str) :
  forallb (fun c => negb (isWhitespace c)) s = true -> trim s = s.
Proof.
  intros Hall. unfold trim.
  assert (Hhead : forall l : str,
             forallb (fun c => negb (isWhitespace c)) l = true ->
             dropWhile isWhitespace l = l).
  { intros l Hl. apply dropWhile_head. destruct l as [|x l]; [exact I|].
    simpl in Hl. apply andb_true_iff in Hl as [Hx _].
    now apply negb_true_iff in Hx. }
  rewrite (Hhead s Hall), Hhead, rev_involutive; [reflexivity|].
  rewrite forallb_forall in *. intros x Hx. apply Hall. now apply in_rev.
Qed.

Lemma removeWhitespace_clean (s : str) :
  forallb (fun c => negb (isWhitespace c)) (removeWhitespace s) = true.
Proof.
  apply forallb_forall. intros x Hx. unfold removeWhitespace in Hx.
  now apply filter_In in Hx.
Qed.

Lemma removeWhitespace_length (s : str) :
  JS.length (removeWhitespace s) <= JS.length s.
Proof.
  unfold JS.length, removeWhitespace. apply inj_le. apply filter_length_le.
Qed.

(** ** Parser idempotence *)

Section Idempotence.

Variable periodicTable : list str.

(** C5. When [parseChemicalFormula] accepts a formula it accepts the
    normalized formula as well, with the same elements and counts in the
    same order. *)
Theorem parseChemicalFormula_normalizeFormula
        (formula : str) (parsed : ParsedFormula.t) :
  parseChemicalFormula periodicTable formula = Ok parsed ->
  ParsedFormula.isValid parsed = true ->
  exists parsed',
    parseChemicalFormula periodicTable (normalizeFormula formula) = Ok parsed'
    /\ ParsedFormula.isValid parsed' = true
    /\ ParsedFormula.elements parsed' = ParsedFormula.elements parsed.
Proof.
  intros Hparsed Hvalid.
  unfold parseChemicalFormula in Hparsed.
  destruct (isEmptyString formula) eqn:Hempty;
    [simpl in Hparsed; injection Hparsed as <-; discriminate|].
  simpl orb in Hparsed.
  destruct (JS.length (trim formula) =? 0) eqn:Hlen0;
    [injection Hparsed as <-; discriminate|].
  destruct (JS.length (trim formula) >? VALIDATION_LIMITS.MAX_FORMULA_LENGTH)
    eqn:Hlong; [injection Hparsed as <-; discriminate|].
  destruct (Z.of_nat (List.length (tokenize (trim formula))) =? 0) eqn:Hnone;
    [injection Hparsed as <-; discriminate|].
  destruct (parse periodicTable (tokenize (trim formula)))
    as [parseResult| |] eqn:Hparse; try discriminate.
  simpl in Hparsed.
  destruct (ParseResult.isValid parseResult) eqn:Hok;
    [|injection Hparsed as <-; discriminate].
  simpl in Hparsed.
  match type of Hparsed with
  | (if ?c then _ else _) = _ => destruct c eqn:Htotal
  end; [injection Hparsed as <-; discriminate|].
  injection Hparsed as <-.
  (* the tokens of the formula and of the formula without white space *)
  unfold tokenize in Hnone, Hparse.
  destruct (tokenize_from 0 (trim formula)) as [tokens|] eqn:Htokens;
    [|discriminate].
  pose proof (parse_valid_numbers _ _ _ Hparse Hok) as Hadjacent.
  destruct (tokenize_from_removeWhitespace _ _ _ _ (le_n _) Htokens Hadjacent)
    as [Hchars Hsame].
  destruct (Hsame 0) as [tokens' [Htokens' Hshape]].
  assert (Hnonempty : removeWhitespace (trim formula) <> []).
  { intros Hnil. rewrite Hnil in Htokens'. simpl in Htokens'.
    injection Htokens' as <-. apply shape_length in Hshape.
    destruct tokens; [discriminate | discriminate]. }
  (* the normalized formula *)
  assert (Hnormal : normalizeFormula formula = removeWhitespace (trim formula)).
  { unfold normalizeFormula. rewrite Hempty.
    fold (removeWhitespace (trim formula)).
    now rewrite (matches_plus_class _ _ Hnonempty Hchars). }
  rewrite Hnormal. unfold parseChemicalFormula.
  rewrite (trim_without_space _ (removeWhitespace_clean _)).
  destruct (removeWhitespace (trim formula)) as [|c s] eqn:Hclean;
    [congruence|]. rewrite <- Hclean in *.
  assert (Hempty' : isEmptyString (removeWhitespace (trim formula)) = false)
    by now rewrite Hclean.
  rewrite Hempty'. simpl orb.
  assert (Hlen0' : (JS.length (removeWhitespace (trim formula)) =? 0) = false).
  { apply Z.eqb_neq. rewrite Hclean. unfold JS.length. simpl. lia. }
  rewrite Hlen0'.
  assert (Hlong' : (JS.length (removeWhitespace (trim formula))
                    >? VALIDATION_LIMITS.MAX_FORMULA_LENGTH) = false).
  { pose proof (removeWhitespace_length (trim formula)).
    rewrite Z.gtb_ltb in *. apply Z.ltb_ge. apply Z.ltb_ge in Hlong. lia. }
  rewrite Hlong'.
  unfold tokenize. rewrite Htokens'.
  rewrite (shape_length _ _ Hshape), Hnone.
  rewrite (parse_shape _ _ _ Hshape), Hparse. simpl. rewrite Hok. simpl.
  match goal with
  | |- context [if ?c then _ else _] =>
    replace c with false by (symmetry; exact Htotal)
  end.
  eexists. repeat split; reflexivity.
Qed.

End Idempotence.

(** C5 on " Ca (OH) 2 ", which normalizes to "Ca(OH)2". *)
Lemma parseChemicalFormula_normalizeFormula_witness :
  exists parsed',
    parseChemicalFormula standardPeriodicTable
      (normalizeFormula (lit " Ca (OH) 2 ")) = Ok parsed'
    /\ ParsedFormula.isValid parsed' = true
    /\ ParsedFormula.elements parsed'
       = [ParsedElement.make (lit "Ca") 1; ParsedElement.make (lit "O") 2;
          ParsedElement.make (lit "H") 2].
Proof.
  refine (parseChemicalFormula_normalizeFormula standardPeriodicTable
            (lit " Ca (OH) 2 ")
            (ParsedFormula.make
               [ParsedElement.make (lit "Ca") 1; ParsedElement.make (lit "O") 2;
                ParsedElement.make (lit "H") 2]
               (lit "Ca (OH) 2") true None) _ _).
  - vm_compute. reflexivity.
  - reflexivity.
Defined.

(* ================================================================== *)
(** * Further properties *)

(** ** Divisors and multiples of a list *)

Lemma gcdOfList_nonneg (l : list Z) : 0 <= gcdOfList l.
Proof. destruct l; simpl; [lia|apply Z.gcd_nonneg]. Qed.

Lemma fold_left_gcd (l : list Z) (a : Z) :
  0 <= a -> fold_left Z.gcd l a = Z.gcd a (gcdOfList l).
Proof.
  revert a. induction l as [|x l IH]; intros a Ha; simpl.
  - rewrite Z.gcd_0_r. symmetry. now apply Z.abs_eq.
  - rewrite IH by apply Z.gcd_nonneg. symmetry. apply Z.gcd_assoc.
Qed.

Lemma foldM_gcdTwo (l : list Z) (a : Z) :
  foldM (fun acc curr => Helpers.gcdTwo acc (Z.abs curr)) a l
  = Ok (fold_left Z.gcd l a).
Proof.
  revert a. induction l as [|x l IH]; intros a; simpl; [reflexivity|].
  rewrite gcdTwo_spec. simpl. rewrite IH, Z.gcd_abs_r. reflexivity.
Qed.

Lemma gcd_spec (numbers : list Z) :
  numbers <> [] -> Helpers.gcd numbers = Ok (gcdOfList numbers).
Proof.
  destruct numbers as [|n [|m rest]]; intros H; [contradiction| |].
  - simpl. now rewrite Z.gcd_0_r.
  - unfold Helpers.gcd, Helpers.reduce1. rewrite foldM_gcdTwo.
    change (fold_left Z.gcd (m :: rest) n) with (fold_left Z.gcd rest (Z.gcd n m)).
    rewrite fold_left_gcd by apply Z.gcd_nonneg.
    simpl. now rewrite Z.gcd_assoc.
Qed.

Lemma gcdOfList_divide (l : list Z) (n : Z) : In n l -> (gcdOfList l | n).
Proof.
  induction l as [|x l IH]; simpl; [contradiction|].
  intros [->|Hin].
  - apply Z.gcd_divide_l.
  - eapply Z.divide_trans; [apply Z.gcd_divide_r|now apply IH].
Qed.

Lemma gcdOfList_greatest (l : list Z) (d : Z) :
  (forall n, In n l -> (d | n)) -> (d | gcdOfList l).
Proof.
  induction l as [|x l IH]; simpl; intros H.
  - apply Z.divide_0_r.
  - apply Z.gcd_greatest; [apply H; now left|].
    apply IH. intros n Hn. apply H. now right.
Qed.

Lemma gcdOfList_eq_0 (l : list Z) : gcdOfList l = 0 -> forall n, In n l -> n = 0.
Proof.
  intros H n Hn. apply gcdOfList_divide in Hn. rewrite H in Hn.
  now apply Z.divide_0_l.
Qed.

Lemma gcdOfList_mul (k : Z) (l : list Z) :
  gcdOfList (map (Z.mul k) l) = Z.abs k * gcdOfList l.
Proof.
  induction l as [|x l IH]; simpl; [lia|].
  rewrite IH. rewrite <- (Z.gcd_abs_l (k * x)), Z.abs_mul.
  rewrite Z.gcd_mul_mono_l_nonneg by apply Z.abs_nonneg.
  now rewrite Z.gcd_abs_l.
Qed.

Lemma map_div_mul (g : Z) (l : list Z) :
  g <> 0 -> (forall n, In n l -> (g | n)) ->
  map (Z.mul g) (map (fun n => n / g) l) = l.
Proof.
  intros Hg Hdiv. rewrite map_map. rewrite <- (map_id l) at 2.
  apply map_ext_in. intros n Hn. destruct (Hdiv n Hn) as [q ->].
  rewrite Z.div_mul by assumption. lia.
Qed.

Lemma simplifyCoefficients_spec (coefficients : list Z) :
  (exists c, In c coefficients /\ c <> 0) ->
  exists g simplified,
    simplifyCoefficients coefficients = Ok simplified
    /\ g = gcdOfList coefficients
    /\ 0 < g
    /\ simplified = map (fun c => c / g) coefficients
    /\ coefficients = map (Z.mul g) simplified
    /\ gcdOfList simplified = 1.
Proof.
  intros [c [Hc Hc0]].
  assert (Hne : coefficients <> []) by (intros ->; contradiction).
  set (g := gcdOfList coefficients).
  assert (Hg : 0 < g).
  { assert (0 <= g) by apply gcdOfList_nonneg.
    assert (g <> 0) by (intros H0; apply Hc0; eapply gcdOfList_eq_0; eauto).
    lia. }
  assert (Hback : map (Z.mul g) (map (fun n => n / g) coefficients) = coefficients).
  { apply map_div_mul; [lia|]. intros n Hn. now apply gcdOfList_divide. }
  assert (Hone : gcdOfList (map (fun n => n / g) coefficients) = 1).
  { assert (H : gcdOfList (map (Z.mul g) (map (fun n => n / g) coefficients)) = g)
      by now rewrite Hback.
    rewrite gcdOfList_mul, Z.abs_eq in H by lia. nia. }
  exists g, (map (fun n => n / g) coefficients).
  unfold simplifyCoefficients. rewrite gcd_spec by assumption. simpl. fold g.
  split; [|repeat split; try assumption; try (now symmetry)].
  destruct (Z.gtb_spec g 1) as [H1|H1]; [reflexivity|].
  assert (E : g = 1) by lia. unfold ret. f_equal.
  rewrite <- (map_id coefficients) at 1. apply map_ext. intros a.
  rewrite E. now rewrite Z.div_1_r.
Qed.









(** ** The odometer of the search *)

Lemma getNextCombination_cons (c : Z) (rest : list Z) (maxCoeff : Z) :
  getNextCombination (c :: rest) maxCoeff
  = getNextCombination_step maxCoeff c (getNextCombination rest maxCoeff).
Proof. reflexivity. Qed.

Lemma getNextCombination_spec (maxCoeff : Z) (coefficients : list Z) :
  (forall c, In c coefficients -> 1 <= c <= maxCoeff) ->
  let '(advanced, next) := getNextCombination coefficients maxCoeff in
  List.length next = List.length coefficients
  /\ (forall c, In c next -> 1 <= c <= maxCoeff)
  /\ (advanced = true ->
      odometerValue maxCoeff next = odometerValue maxCoeff coefficients + 1)
  /\ (advanced = false ->
      (forall c, In c coefficients -> c = maxCoeff)
      /\ next = ones (List.length coefficients)
      /\ odometerValue maxCoeff next = 0
      /\ odometerValue maxCoeff coefficients
         = maxCoeff ^ Z.of_nat (List.length coefficients) - 1)
  /\ ((forall c, In c coefficients -> c = maxCoeff) -> advanced = false).
Proof.
  induction coefficients as [|c rest IH]; intros Hrange.
  - simpl. repeat split; try discriminate; try contradiction; reflexivity.
  - rewrite getNextCombination_cons.
    assert (Hc : 1 <= c <= maxCoeff) by (apply Hrange; now left).
    assert (Hrest : forall x, In x rest -> 1 <= x <= maxCoeff)
      by (intros x Hx; apply Hrange; now right).
    specialize (IH Hrest).
    destruct (getNextCombination rest maxCoeff) as [done next].
    destruct IH as [Hlen [Hnext [Htrue [Hfalse Hall]]]].
    unfold getNextCombination_step.
    destruct done.
    + split; [simpl; now rewrite Hlen|].
      split; [intros x [<-|Hx]; auto|].
      split; [intros _; simpl; rewrite Hlen, Htrue by reflexivity; lia|].
      split; [discriminate|].
      intros Hmax. assert (true = false); [|discriminate].
      apply Hall. intros x Hx. apply Hmax. now right.
    + destruct (Hfalse eq_refl) as [Hmax [Hones [Hzero Hfull]]].
      destruct (Z.ltb_spec c maxCoeff) as [Hlt|Hge].
      * split; [simpl; now rewrite Hlen|].
        split; [intros x [<-|Hx]; [lia|auto]|].
        split; [intros _; simpl; rewrite Hlen, Hzero, Hfull; lia|].
        split; [discriminate|].
        intros Hmax'. assert (c = maxCoeff) by (apply Hmax'; now left). lia.
      * assert (c = maxCoeff) by lia. subst c.
        split; [simpl; now rewrite Hlen|].
        split; [intros x [<-|Hx]; [lia|auto]|].
        split; [discriminate|].
        split; [|reflexivity].
        intros _.
        split; [intros x [<-|Hx]; auto|].
        split; [simpl; now rewrite Hones|].
        split; [simpl; rewrite Hzero; lia|].
        simpl List.length. rewrite Nat2Z.inj_succ, Z.pow_succ_r by lia.
        simpl. rewrite Hfull. lia.
Qed.


(** ** The value of a fraction *)

Lemma new_represents (n d : Z) (f : RobustFraction.t) :
  RobustFraction.new n d = Ok f -> represents f n d.
Proof.
  destruct (Z.eq_dec d 0) as [->|Hd]; [discriminate|].
  rewrite new_spec by assumption. intros [= <-].
  unfold represents; simpl.
  set (g := Z.gcd n d).
  assert (Hg : 0 < g).
  { assert (0 <= g) by apply Z.gcd_nonneg.
    assert (g <> 0) by (unfold g; intros H0; apply Z.gcd_eq_0_r in H0; lia).
    lia. }
  destruct (Z.gcd_divide_l n d) as [n' Hn].
  destruct (Z.gcd_divide_r n d) as [d' Hd'].
  fold g in Hn, Hd'.
  assert (E1 : Z.sgn d * n = (Z.sgn d * n') * g) by (rewrite Hn at 1; ring).
  assert (E2 : Z.abs d = Z.abs d' * g).
  { rewrite Hd' at 1. rewrite Z.abs_mul, (Z.abs_eq g) by lia. reflexivity. }
  rewrite E1, E2, !Z.div_mul by lia.
  rewrite Hn at 1. rewrite Hd' at 2.
  assert (Z.sgn d * d' = Z.abs d'); [|nia].
  assert (Z.sgn d = Z.sgn d').
  { rewrite Hd'. rewrite Z.sgn_mul. rewrite (Z.sgn_pos g) by lia. lia. }
  rewrite H, Z.mul_comm. apply Z.sgn_abs.
Qed.


Lemma wf_unique (f g : RobustFraction.t) :
  RobustFraction.wf f -> RobustFraction.wf g ->
  RobustFraction.num f * RobustFraction.den g
  = RobustFraction.num g * RobustFraction.den f ->
  f = g.
Proof.
  destruct f as [n d], g as [n' d']. intros [Hd Hg] [Hd' Hg'] E; simpl in *.
  rewrite Z.gcd_abs_l in Hg, Hg'.
  assert (D1 : (d | d')).
  { apply Z.gauss with n; [|now rewrite Z.gcd_comm].
    exists n'. lia. }
  assert (D2 : (d' | d)).
  { apply Z.gauss with n'; [|now rewrite Z.gcd_comm].
    exists n. lia. }
  assert (d = d').
  { apply Z.divide_antisym_nonneg; try lia; assumption. }
  subst d'. f_equal. nia.
Qed.

Lemma represents_unique (f g : RobustFraction.t) (n d : Z) :
  d <> 0 -> RobustFraction.wf f -> RobustFraction.wf g ->
  represents f n d -> represents g n d -> f = g.
Proof.
  unfold represents. intros Hd Hf Hg Ef Eg.
  apply wf_unique; try assumption.
  apply Z.mul_reg_r with d; [assumption|].
  destruct Hf as [Hdf _], Hg as [Hdg _]. nia.
Qed.

Lemma new_eq_iff (n d n' d' : Z) :
  d <> 0 -> d' <> 0 ->
  (RobustFraction.new n d = RobustFraction.new n' d' <-> n * d' = n' * d).
Proof.
  intros Hd Hd'.
  destruct (new_returns n d Hd) as [f [Ef Wf]].
  destruct (new_returns n' d' Hd') as [f' [Ef' Wf']].
  pose proof (new_represents _ _ _ Ef) as Rf.
  pose proof (new_represents _ _ _ Ef') as Rf'.
  rewrite Ef, Ef'. unfold represents in *.
  destruct Wf as [Hpos Hg], Wf' as [Hpos' Hg'].
  split.
  - intros [= <-].
    apply Z.mul_reg_r with (RobustFraction.den f); [lia|].
    replace (n * d' * RobustFraction.den f)
      with ((n * RobustFraction.den f) * d') by ring.
    replace (n' * d * RobustFraction.den f)
      with ((n' * RobustFraction.den f) * d) by ring.
    rewrite <- Rf, <- Rf'. ring.
  - intros E. f_equal. apply wf_unique; try (split; assumption).
    apply Z.mul_reg_r with (d * d'); [nia|].
    replace (RobustFraction.num f * RobustFraction.den f' * (d * d'))
      with ((RobustFraction.num f * d) * (RobustFraction.den f' * d')) by ring.
    replace (RobustFraction.num f' * RobustFraction.den f * (d * d'))
      with ((RobustFraction.num f' * d') * (RobustFraction.den f * d)) by ring.
    rewrite Rf, Rf'.
    replace (n * RobustFraction.den f * (RobustFraction.den f' * d'))
      with ((n * d') * (RobustFraction.den f * RobustFraction.den f')) by ring.
    rewrite E. ring.
Qed.









Lemma new_isZero_isOne (n d : Z) (f : RobustFraction.t) :
  RobustFraction.new n d = Ok f ->
  RobustFraction.isZero f = (n =? 0) /\ RobustFraction.isOne f = (n =? d).
Proof.
  intros E.
  assert (Hd : d <> 0) by (intros ->; discriminate).
  pose proof (new_wf _ _ _ E) as [Hden _].
  apply new_represents in E. unfold represents in E.
  unfold RobustFraction.isZero, RobustFraction.isOne. split.
  - destruct (Z.eqb_spec n 0) as [->|Hn].
    + apply Z.eqb_eq. nia.
    + apply Z.eqb_neq. intros E0. rewrite E0 in E. nia.
  - destruct (Z.eqb_spec n d) as [->|Hn].
    + apply Z.eqb_eq. apply Z.mul_reg_r with d; [assumption|]. lia.
    + apply Z.eqb_neq. intros E0. rewrite E0 in E. apply Hn.
      apply Z.mul_reg_l with (RobustFraction.den f); [lia|]. lia.
Qed.



(** ** Dictionaries and the invariant of the parser *)

Lemma char_eqb_eq (a b : char) : char_eqb a b = true <-> a = b.
Proof. unfold char_eqb. apply N.eqb_eq. Qed.

Lemma str_eqb_eq (a b : str) : str_eqb a b = true <-> a = b.
Proof.
  revert b. induction a as [|x a IH]; intros [|y b]; simpl;
    try (split; [discriminate|discriminate]); [tauto|].
  rewrite andb_true_iff, char_eqb_eq, IH.
  split; [intros [-> ->]; reflexivity | intros [= -> ->]; now split].
Qed.

Lemma str_eqb_refl (a : str) : str_eqb a a = true.
Proof. now apply str_eqb_eq. Qed.

Lemma str_eqb_neq (a b : str) : str_eqb a b = false <-> a <> b.
Proof.
  rewrite <- str_eqb_eq. destruct (str_eqb a b); split; congruence.
Qed.

Lemma str_eqb_sym (a b : str) : str_eqb a b = str_eqb b a.
Proof.
  destruct (str_eqb a b) eqn:E; symmetry.
  - apply str_eqb_eq. apply str_eqb_eq in E. congruence.
  - apply str_eqb_neq. apply str_eqb_neq in E. congruence.
Qed.

Lemma dict_get_None (d : Dict) (key : str) :
  dict_get d key = None <-> ~ In key (keys d).
Proof.
  induction d as [|[k v] d IH]; simpl; [tauto|].
  destruct (str_eqb k key) eqn:E.
  - apply str_eqb_eq in E. split; [discriminate|]. intros H. exfalso. apply H. now left.
  - apply str_eqb_neq in E. rewrite IH. tauto.
Qed.

Lemma dict_get_Some (d : Dict) (key : str) (v : Z) :
  dict_get d key = Some v -> In (key, v) d.
Proof.
  induction d as [|[k w] d IH]; simpl; [discriminate|].
  destruct (str_eqb k key) eqn:E.
  - apply str_eqb_eq in E. intros [= ->]. left. congruence.
  - intros H. right. now apply IH.
Qed.

Lemma dict_get_In (d : Dict) (key : str) (v : Z) :
  NoDup (keys d) -> In (key, v) d -> dict_get d key = Some v.
Proof.
  induction d as [|[k w] d IH]; simpl; [contradiction|].
  intros Hnd [[= -> ->]|Hin].
  - now rewrite str_eqb_refl.
  - inversion Hnd as [|? ? Hk Hd]; subst.
    destruct (str_eqb k key) eqn:E.
    + apply str_eqb_eq in E. subst. exfalso. apply Hk.
      change key with (fst (key, v)). now apply in_map.
    + now apply IH.
Qed.

Lemma dict_set_keys (d : Dict) (key : str) (v : Z) :
  keys (dict_set d key v) = if existsb (str_eqb key) (keys d) then keys d
                            else keys d ++ [key].
Proof.
  induction d as [|[k w] d IH]; simpl; [reflexivity|].
  rewrite (str_eqb_sym key k).
  destruct (str_eqb k key) eqn:E; simpl; [reflexivity|].
  rewrite IH. now destruct (existsb _ _).
Qed.

Lemma existsb_str_eqb (key : str) (l : list str) :
  existsb (str_eqb key) l = true <-> In key l.
Proof.
  rewrite existsb_exists. split.
  - intros [x [Hx E]]. apply str_eqb_eq in E. now subst.
  - intros H. exists key. split; [assumption|apply str_eqb_refl].
Qed.

Lemma dict_set_NoDup (d : Dict) (key : str) (v : Z) :
  NoDup (keys d) -> NoDup (keys (dict_set d key v)).
Proof.
  intros H. rewrite dict_set_keys.
  destruct (existsb (str_eqb key) (keys d)) eqn:E; [assumption|].
  apply NoDup_app; [assumption|constructor; [intros []|constructor]|].
  intros x Hx [<-|[]].
  apply existsb_str_eqb in Hx. congruence.
Qed.

Lemma dict_set_In (d : Dict) (key : str) (v : Z) (k : str) (w : Z) :
  In (k, w) (dict_set d key v) -> (k = key /\ w = v) \/ In (k, w) d.
Proof.
  induction d as [|[k' w'] d IH]; simpl.
  - intros [[= <- <-]|[]]. now left.
  - destruct (str_eqb k' key) eqn:E.
    + apply str_eqb_eq in E. subst k'.
      intros [[= <- <-]|H]; [now left|right; now right].
    + intros [H|H]; [right; now left|].
      destruct (IH H) as [?|?]; [now left|right; now right].
Qed.

Lemma dict_get_set_same (d : Dict) (key : str) (v : Z) :
  dict_get (dict_set d key v) key = Some v.
Proof.
  induction d as [|[k w] d IH]; simpl.
  - now rewrite str_eqb_refl.
  - destruct (str_eqb k key) eqn:E; simpl; rewrite E; [reflexivity|assumption].
Qed.

Lemma dict_get_set_other (d : Dict) (key : str) (v : Z) (k : str) :
  k <> key -> dict_get (dict_set d key v) k = dict_get d k.
Proof.
  intros Hne. induction d as [|[k' w] d IH]; simpl.
  - assert (E : str_eqb key k = false) by (apply str_eqb_neq; congruence).
    now rewrite E.
  - destruct (str_eqb k' key) eqn:E; simpl.
    + apply str_eqb_eq in E. subst k'.
      assert (E : str_eqb key k = false) by (apply str_eqb_neq; congruence).
      now rewrite E.
    + destruct (str_eqb k' k); [reflexivity|assumption].
Qed.

Section ParserInvariant.

Variable periodicTable : list str.

Local Abbreviation goodEntries := (goodEntries periodicTable).
Local Abbreviation goodOutcome := (goodOutcome periodicTable).

Lemma goodEntries_nil : goodEntries [].
Proof. split; [constructor|intros k v []]. Qed.

Lemma goodEntries_get (d : Dict) (key : str) :
  goodEntries d -> 0 <= dict_get_or_0 d key.
Proof.
  intros [_ H]. unfold dict_get_or_0.
  destruct (dict_get d key) as [v|] eqn:E; [|lia].
  apply dict_get_Some in E. apply H in E. lia.
Qed.

Lemma goodEntries_set (d : Dict) (key : str) (count : Z) :
  goodEntries d -> isValidElement periodicTable key = true -> 1 <= count ->
  goodEntries (dict_set d key (dict_get_or_0 d key + count)).
Proof.
  intros Hd Hkey Hcount.
  pose proof (goodEntries_get d key Hd) as Hget.
  destruct Hd as [Hnd Hall]. split; [now apply dict_set_NoDup|].
  intros k v Hin. apply dict_set_In in Hin as [[-> ->]|Hin].
  - split; [assumption|lia].
  - now apply Hall.
Qed.

Lemma mergeGroup_good (groupElements : Dict) (multiplier : Z) :
  (forall k v, In (k, v) groupElements ->
               isValidElement periodicTable k = true /\ 1 <= v) ->
  1 <= multiplier ->
  forall elements,
    goodEntries elements ->
    goodEntries (mergeGroup elements groupElements multiplier).
Proof.
  intros Hgroup Hmul. unfold mergeGroup.
  induction groupElements as [|[k v] group IH]; intros elements He; simpl.
  - assumption.
  - apply IH.
    + intros k' v' H. apply Hgroup. now right.
    + destruct (Hgroup k v (or_introl eq_refl)) as [Hk Hv].
      apply goodEntries_set; try assumption. nia.
Qed.

Lemma parseElement_good (token : Token.t) (rest : list Token.t) (elements : Dict) :
  goodEntries elements ->
  safe (parseElement periodicTable token rest elements) goodOutcome.
Proof.
  intros He. unfold parseElement.
  destruct (isValidElement periodicTable (Token.value token)) eqn:Hv; simpl;
    [|exact I].
  destruct rest as [|next rest']; simpl.
  - apply goodEntries_set; [assumption..|lia].
  - destruct (Token.type next); simpl;
      try (apply goodEntries_set; [assumption..|lia]).
    destruct (Z.leb_spec (parseInt (Token.value next)) 0); simpl; [exact I|].
    destruct (_ >? _); simpl; [exact I|].
    apply goodEntries_set; [assumption..|lia].
Qed.

Lemma parseParentheses_good
      (parseGroup : list Token.t -> Exc (Dict * list Token.t))
      (rest : list Token.t) (elements : Dict) :
  safe (parseGroup rest) goodOutcome ->
  goodEntries elements ->
  safe (parseParentheses parseGroup rest elements) goodOutcome.
Proof.
  intros Hpg He. unfold parseParentheses.
  eapply safe_bind; [exact Hpg|].
  intros [groupElements rest1] [_ Hg]; simpl in Hg.
  destruct rest1 as [|token rest']; [exact I|].
  destruct (Token.type token); try exact I.
  destruct rest' as [|token' rest'']; simpl.
  - apply mergeGroup_good; [assumption|lia|assumption].
  - destruct (Token.type token'); simpl;
      try (apply mergeGroup_good; [assumption|lia|assumption]).
    destruct (Z.leb_spec (parseInt (Token.value token')) 0); simpl; [exact I|].
    destruct (_ >? _); simpl; [exact I|].
    apply mergeGroup_good; [assumption|lia|assumption].
Qed.

Lemma parseGroup_loop_good (fuel : nat) :
  forall (tokens : list Token.t) (elements : Dict),
    (List.length tokens < fuel)%nat ->
    goodEntries elements ->
    safe (parseGroup_loop periodicTable fuel elements tokens) goodOutcome.
Proof.
  induction fuel as [|fuel IH]; intros tokens elements Hfuel He; [lia|].
  simpl. destruct tokens as [|token rest]; [exact He|].
  simpl in Hfuel.
  destruct (Token.type token).
  - assert (H : safe (parseElement periodicTable token rest elements)
                     (fun r => goodOutcome r
                               /\ (List.length (snd r) <= List.length rest)%nat)).
    { pose proof (parseElement_good token rest elements He) as H1.
      pose proof (parseElement_safe periodicTable token rest elements) as H2.
      destruct (parseElement periodicTable token rest elements); simpl in *; auto. }
    eapply safe_bind; [exact H|].
    intros [elements' rest'] [Hg Hlen]; simpl in Hlen.
    apply IH; [lia|exact Hg].
  - exact I.
  - assert (H : safe (parseParentheses
                        (parseGroup_loop periodicTable fuel []) rest elements)
                     (fun r => goodOutcome r
                               /\ (List.length (snd r) < List.length rest)%nat)).
    { pose proof (parseParentheses_good
                    (parseGroup_loop periodicTable fuel []) rest elements
                    (IH rest [] ltac:(lia) goodEntries_nil) He) as H1.
      pose proof (parseParentheses_safe
                    (parseGroup_loop periodicTable fuel []) rest elements
                    (parseGroup_loop_safe periodicTable fuel rest [] ltac:(lia)))
        as H2.
      destruct (parseParentheses _ _ _); simpl in *; auto. }
    eapply safe_bind; [exact H|].
    intros [elements' rest'] [Hg Hlen]; simpl in Hlen.
    apply IH; [lia|exact Hg].
  - exact He.
Qed.

Lemma parse_good (tokens : list Token.t) (parseResult : ParseResult.t) :
  parse periodicTable tokens = Ok parseResult ->
  ParseResult.isValid parseResult = true ->
  goodEntries (ParseResult.elements parseResult).
Proof.
  unfold parse, parseGroup.
  pose proof (parseGroup_loop_good (S (List.length tokens)) tokens []
                ltac:(lia) goodEntries_nil) as H.
  destruct (parseGroup_loop _ _ _ _) as [[elements rest]| |]; simpl in *.
  - destruct rest; intros [= <-]; simpl; [intros _; exact H|discriminate].
  - intros [= <-]. discriminate.
  - contradiction.
Qed.

End ParserInvariant.


(** ** Counting atoms *)

Section ParsedFormulaInvariant.

Variable periodicTable : list str.

Lemma parseChemicalFormula_valid (formula : str) (parsed : ParsedFormula.t) :
  parseChemicalFormula periodicTable formula = Ok parsed ->
  ParsedFormula.isValid parsed = true ->
  exists entries,
    goodEntries periodicTable entries
    /\ ParsedFormula.elements parsed = toParsedElements entries
    /\ totalCount (ParsedFormula.elements parsed) <= 1000
    /\ ParsedFormula.formula parsed = trim formula
    /\ ParsedFormula.error parsed = None
    /\ 1 <= JS.length (trim formula) <= 50
    /\ tokenize (trim formula) <> [].
Proof.
  unfold parseChemicalFormula.
  destruct (isEmptyString formula || (JS.length (trim formula) =? 0)) eqn:Hblank;
    [intros [= <-]; discriminate|].
  apply orb_false_iff in Hblank as [_ Hlen0]. apply Z.eqb_neq in Hlen0.
  destruct (Z.gtb_spec (JS.length (trim formula)) VALIDATION_LIMITS.MAX_FORMULA_LENGTH)
    as [|Hlen]; [intros [= <-]; discriminate|].
  destruct (Z.eqb_spec (Z.of_nat (List.length (tokenize (trim formula)))) 0)
    as [|Htok]; [intros [= <-]; discriminate|].
  destruct (parse periodicTable (tokenize (trim formula))) as [parseResult| |] eqn:Hparse;
    simpl; try discriminate.
  destruct (ParseResult.isValid parseResult) eqn:Hvalid; simpl;
    [|intros [= <-]; discriminate].
  fold (toParsedElements (ParseResult.elements parseResult)).
  fold (totalCount (toParsedElements (ParseResult.elements parseResult))).
  destruct (Z.gtb_spec (totalCount (toParsedElements (ParseResult.elements parseResult)))
                       VALIDATION_LIMITS.MAX_ATOMS_PER_MOLECULE) as [|Htotal];
    intros [= <-]; [discriminate|]. intros _. simpl.
  exists (ParseResult.elements parseResult).
  split; [eapply parse_good; eassumption|].
  split; [reflexivity|].
  split; [exact Htotal|].
  split; [reflexivity|].
  split; [reflexivity|].
  unfold VALIDATION_LIMITS.MAX_FORMULA_LENGTH in Hlen.
  split; [unfold JS.length in *; lia|].
  intros E. rewrite E in Htok. simpl in Htok. lia.
Qed.

End ParsedFormulaInvariant.

Section Counting.

Variable periodicTable : list str.

Lemma getElementCount_returns (formula element : str) :
  getElementCount periodicTable formula element
  = Ok (atomsOf periodicTable formula element).
Proof.
  unfold atomsOf, getElementCount.
  destruct (parseChemicalFormula_returns periodicTable formula) as [parsed ->].
  simpl. destruct (negb _); [reflexivity|]. now destruct (find _ _).
Qed.

Lemma count_step (formula element : str) (total coefficient : Z) :
  (parsed <- parseChemicalFormula periodicTable formula ;;
   if ParsedFormula.isValid parsed
   then
     match find (fun el => str_eqb (ParsedElement.symbol el) element)
                (ParsedFormula.elements parsed) with
     | Some elementData =>
       ret (total + ParsedElement.count elementData * coefficient)
     | None => ret total
     end
   else ret total)
  = Ok (total + atomsOf periodicTable formula element * coefficient).
Proof.
  unfold atomsOf, getElementCount.
  destruct (parseChemicalFormula_returns periodicTable formula) as [parsed ->].
  simpl. destruct (ParsedFormula.isValid parsed); simpl.
  - destruct (find _ _); simpl; unfold ret; f_equal; lia.
  - unfold ret. f_equal. lia.
Qed.

Lemma countElementInSide_spec (compounds : list EquationCompound.t)
      (element : str) :
  countElementInSide periodicTable compounds element
  = Ok (sideAtoms periodicTable compounds element).
Proof.
  unfold countElementInSide, sideAtoms.
  assert (H : forall total,
             foldM (fun totalCount compound =>
                      parsed <- parseChemicalFormula periodicTable
                                  (EquationCompound.formula compound) ;;
                      if ParsedFormula.isValid parsed
                      then
                        match find (fun el => str_eqb (ParsedElement.symbol el) element)
                                   (ParsedFormula.elements parsed) with
                        | Some elementData =>
                          ret (totalCount
                               + ParsedElement.count elementData
                                 * EquationCompound.coefficient compound)
                        | None => ret totalCount
                        end
                      else ret totalCount) total compounds
             = Ok (total
                   + sumZ (map (fun compound =>
                                  atomsOf periodicTable
                                          (EquationCompound.formula compound) element
                                  * EquationCompound.coefficient compound)
                               compounds))).
  { induction compounds as [|compound compounds IH]; intros total; simpl.
    - unfold ret. f_equal. lia.
    - rewrite count_step. simpl. rewrite IH. f_equal. lia. }
  now rewrite H.
Qed.


Lemma mapi_from_ext {A B} (f g : A -> Z -> B) (l : list A) :
  forall i,
    (forall k x, nth_error l k = Some x ->
                 f x (i + Z.of_nat k) = g x (i + Z.of_nat k)) ->
    mapi_from i f l = mapi_from i g l.
Proof.
  induction l as [|x l IH]; intros i H; simpl; [reflexivity|].
  f_equal.
  - specialize (H O x eq_refl). now rewrite Z.add_0_r in H.
  - apply IH. intros k y Hk. specialize (H (S k) y Hk).
    rewrite Nat2Z.inj_succ in H.
    now replace (i + 1 + Z.of_nat k) with (i + Z.succ (Z.of_nat k)) by lia.
Qed.

Lemma mapi_from_map {A B C} (f : A -> Z -> B) (h : B -> C) (l : list A) :
  forall i, map h (mapi_from i f l) = mapi_from i (fun x i => h (f x i)) l.
Proof.
  induction l as [|x l IH]; intros i; simpl; [reflexivity|]. now rewrite IH.
Qed.

Lemma sideAtoms_withCoefficients (compounds : list EquationCompound.t)
      (coefficients : list Z) (element : str) :
  sideAtoms periodicTable (withCoefficients compounds coefficients) element
  = weightedAtoms periodicTable compounds coefficients 0 element.
Proof.
  unfold sideAtoms, withCoefficients, weightedAtoms, mapi.
  rewrite mapi_from_map. reflexivity.
Qed.

Lemma coefficientAt_firstn (n : nat) (l : list Z) (k : nat) :
  (k < n)%nat ->
  coefficientAt (firstn n l) (Z.of_nat k) = coefficientAt l (Z.of_nat k).
Proof.
  unfold coefficientAt. rewrite Nat2Z.id. revert l k.
  induction n as [|n IH]; intros l k Hk; [lia|].
  destruct l as [|x l]; [reflexivity|]. destruct k as [|k]; [reflexivity|].
  simpl. apply IH. lia.
Qed.

Lemma coefficientAt_skipn (n : nat) (l : list Z) (k : nat) :
  coefficientAt (skipn n l) (Z.of_nat k) = coefficientAt l (Z.of_nat n + Z.of_nat k).
Proof.
  unfold coefficientAt. rewrite <- Nat2Z.inj_add, !Nat2Z.id. revert l.
  induction n as [|n IH]; intros l; [reflexivity|].
  destruct l as [|x l]; simpl; [now destruct k|]. apply IH.
Qed.

Lemma weightedAtoms_firstn (compounds : list EquationCompound.t)
      (coefficients : list Z) (element : str) :
  weightedAtoms periodicTable compounds
                (firstn (List.length compounds) coefficients) 0 element
  = weightedAtoms periodicTable compounds coefficients 0 element.
Proof.
  unfold weightedAtoms. f_equal. apply mapi_from_ext.
  intros k x Hk. f_equal. simpl. apply coefficientAt_firstn.
  apply nth_error_Some. congruence.
Qed.

Lemma weightedAtoms_skipn (compounds : list EquationCompound.t)
      (coefficients : list Z) (n : nat) (element : str) :
  weightedAtoms periodicTable compounds (skipn n coefficients) 0 element
  = weightedAtoms periodicTable compounds coefficients (Z.of_nat n) element.
Proof.
  unfold weightedAtoms. f_equal. apply mapi_from_ext.
  intros k x Hk. f_equal. simpl. apply coefficientAt_skipn.
Qed.

End Counting.


(** ** The elements of the matrix and the check of a solution *)

Lemma bind_inv {A B} (m : Exc A) (k : A -> Exc B) (b : B) :
  (a <- m ;; k a) = Ok b -> exists a, m = Ok a /\ k a = Ok b.
Proof. destruct m as [a| |]; simpl; try discriminate. intros H. now exists a. Qed.

Lemma bindT_inv {A B} (m : Traced A) (k : A -> Traced B) (trace : list Text)
      (b : B) (trace'' : list Text) :
  (a <~ m ;; k a) trace = (Ok b, trace'') ->
  exists a trace', m trace = (Ok a, trace') /\ k a trace' = (Ok b, trace'').
Proof.
  unfold bindT. destruct (m trace) as [[a|e|] trace']; try discriminate.
  intros H. now exists a, trace'.
Qed.

Lemma liftT_inv {A} (m : Exc A) (trace : list Text) (a : A) (trace' : list Text) :
  liftT m trace = (Ok a, trace') -> m = Ok a /\ trace' = trace.
Proof. unfold liftT. intros [= -> ->]. now split. Qed.

Lemma setAdd_In (set : list str) (x y : str) :
  In y (setAdd set x) <-> In y set \/ y = x.
Proof.
  unfold setAdd. destruct (existsb (str_eqb x) set) eqn:E.
  - apply existsb_str_eqb in E. split; [tauto|]. intros [H|H]; [|subst y]; assumption.
  - rewrite in_app_iff. simpl. intuition (subst; auto).
Qed.

Lemma fold_setAdd_In (l : list str) (set : list str) (y : str) :
  In y (fold_left setAdd l set) <-> In y set \/ In y l.
Proof.
  revert set. induction l as [|x l IH]; intros set; simpl; [tauto|].
  rewrite IH, setAdd_In. split; intros H; intuition (subst; auto).
Qed.

Lemma setAdd_NoDup (set : list str) (x : str) :
  NoDup set -> NoDup (setAdd set x).
Proof.
  intros H. unfold setAdd. destruct (existsb (str_eqb x) set) eqn:E; [assumption|].
  apply NoDup_app; [assumption|constructor; [intros []|constructor]|].
  intros y Hy [<-|[]]. apply existsb_str_eqb in Hy. congruence.
Qed.

Lemma fold_setAdd_NoDup (l : list str) (set : list str) :
  NoDup set -> NoDup (fold_left setAdd l set).
Proof.
  revert set. induction l as [|x l IH]; intros set H; simpl; [assumption|].
  apply IH. now apply setAdd_NoDup.
Qed.

Lemma insertSorted_In (x : str) (l : list str) (y : str) :
  In y (insertSorted x l) <-> y = x \/ In y l.
Proof.
  induction l as [|z l IH]; simpl; [intuition auto|].
  destruct (str_ltb z x); simpl; [rewrite IH|]; intuition auto.
Qed.

Lemma sortStrings_In (l : list str) (y : str) : In y (sortStrings l) <-> In y l.
Proof.
  unfold sortStrings. induction l as [|x l IH]; simpl; [tauto|].
  rewrite insertSorted_In, IH. intuition auto.
Qed.

Section Conservation.

Variable periodicTable : list str.

(** An element with atoms in a formula is one of the symbols of its
    parse. *)
Lemma atomsOf_symbol (formula element : str) :
  atomsOf periodicTable formula element <> 0 ->
  exists parsed,
    parseChemicalFormula periodicTable formula = Ok parsed
    /\ ParsedFormula.isValid parsed = true
    /\ In element (map ParsedElement.symbol (ParsedFormula.elements parsed)).
Proof.
  unfold atomsOf, getElementCount.
  destruct (parseChemicalFormula_returns periodicTable formula) as [parsed E].
  rewrite E. simpl. intros H. exists parsed. split; [reflexivity|].
  destruct (ParsedFormula.isValid parsed); simpl in H;
    [|exfalso; apply H; reflexivity].
  split; [reflexivity|].
  destruct (find _ _) as [el|] eqn:F; [|exfalso; apply H; reflexivity].
  apply find_some in F as [Hin Heq]. apply str_eqb_eq in Heq. subst element.
  now apply in_map.
Qed.


Lemma weightedAtoms_zero (compounds : list EquationCompound.t)
      (coefficients : list Z) (offset : Z) (element : str) :
  (forall compound, In compound compounds ->
                    atomsOf periodicTable (EquationCompound.formula compound) element = 0) ->
  weightedAtoms periodicTable compounds coefficients offset element = 0.
Proof.
  unfold weightedAtoms. intros H.
  assert (G : forall i,
             sumZ (mapi_from i
                     (fun compound i =>
                        atomsOf periodicTable (EquationCompound.formula compound)
                                element
                        * coefficientAt coefficients (offset + i))
                     compounds) = 0); [|apply G].
  induction compounds as [|compound compounds IH]; intros i; simpl; [reflexivity|].
  rewrite H by now left. rewrite IH by (intros c Hc; apply H; now right). lia.
Qed.



End Conservation.

Section AlgebraicConservation.

Variable periodicTable : list str.

Lemma withCoefficients_formulas (compounds : list EquationCompound.t)
      (coefficients : list Z) :
  map EquationCompound.formula (withCoefficients compounds coefficients)
  = map EquationCompound.formula compounds.
Proof.
  unfold withCoefficients, mapi. rewrite mapi_from_map. simpl.
  generalize 0. induction compounds as [|c l IH]; intros i; simpl; [reflexivity|].
  now rewrite IH.
Qed.



End AlgebraicConservation.


(** ** The elements of an equation, sorted *)

Section Elements.

Variable periodicTable : list str.

Lemma find_symbol (elements : list ParsedElement.t) (element : str) :
  In element (map ParsedElement.symbol elements) ->
  exists el,
    find (fun el => str_eqb (ParsedElement.symbol el) element) elements = Some el
    /\ In el elements.
Proof.
  induction elements as [|e elements IH]; simpl; [contradiction|].
  intros [<-|Hin].
  - rewrite str_eqb_refl. exists e. split; [reflexivity|now left].
  - destruct (str_eqb (ParsedElement.symbol e) element).
    + exists e. split; [reflexivity|now left].
    + destruct (IH Hin) as [el [Hf Hel]]. exists el. split; [assumption|now right].
Qed.

Lemma toParsedElements_In (entries : Dict) (el : ParsedElement.t) :
  In el (toParsedElements entries) ->
  In (ParsedElement.symbol el, ParsedElement.count el) entries.
Proof.
  unfold toParsedElements. rewrite in_map_iff.
  intros [[k v] [<- Hin]]. exact Hin.
Qed.

Lemma toParsedElements_symbols (entries : Dict) :
  map ParsedElement.symbol (toParsedElements entries) = keys entries.
Proof.
  unfold toParsedElements, keys. rewrite map_map. apply map_ext.
  now intros [k v].
Qed.

(** The symbols of a valid parse are the elements with atoms in the
    formula. *)
Lemma symbol_atomsOf (formula element : str) (parsed : ParsedFormula.t) :
  parseChemicalFormula periodicTable formula = Ok parsed ->
  ParsedFormula.isValid parsed = true ->
  In element (map ParsedElement.symbol (ParsedFormula.elements parsed)) ->
  1 <= atomsOf periodicTable formula element.
Proof.
  intros Hparse Hvalid Hin.
  destruct (parseChemicalFormula_valid _ _ _ Hparse Hvalid)
    as [entries [[_ Hgood] [Hel _]]].
  unfold atomsOf, getElementCount. rewrite Hparse. simpl. rewrite Hvalid. simpl.
  destruct (find_symbol _ _ Hin) as [el [-> Hel']]. simpl.
  rewrite Hel in Hel'. apply toParsedElements_In in Hel'.
  now apply Hgood in Hel'.
Qed.

Lemma atomsOf_nonneg (formula element : str) :
  0 <= atomsOf periodicTable formula element.
Proof.
  destruct (Z.eq_dec (atomsOf periodicTable formula element) 0) as [->|H]; [lia|].
  destruct (atomsOf_symbol _ _ _ H) as [parsed [Hp [Hv Hin]]].
  pose proof (symbol_atomsOf _ _ _ Hp Hv Hin). lia.
Qed.

Lemma getAllElements_fold (compounds : list EquationCompound.t) :
  forall elementSet,
  exists elementSet',
    foldM (fun elementSet compound =>
             parsed <- parseChemicalFormula periodicTable
                         (EquationCompound.formula compound) ;;
             if ParsedFormula.isValid parsed
             then ret (fold_left
                         (fun set element => setAdd set (ParsedElement.symbol element))
                         (ParsedFormula.elements parsed) elementSet)
             else ret elementSet)
          elementSet compounds = Ok elementSet'
    /\ (NoDup elementSet -> NoDup elementSet')
    /\ forall element,
        In element elementSet'
        <-> In element elementSet
            \/ exists compound,
                In compound compounds
                /\ 1 <= atomsOf periodicTable (EquationCompound.formula compound)
                                element.
Proof.
  induction compounds as [|c l IH]; intros set0; simpl.
  - exists set0. split; [reflexivity|]. split; [auto|].
    intros element. split; [auto|]. intros [H|[x [[] _]]]. exact H.
  - destruct (parseChemicalFormula_returns periodicTable (EquationCompound.formula c))
      as [parsed Hparse].
    rewrite Hparse. simpl.
    assert (Hfold : forall (els : list ParsedElement.t) s,
               fold_left (fun set element => setAdd set (ParsedElement.symbol element))
                         els s
               = fold_left setAdd (map ParsedElement.symbol els) s).
    { induction els as [|e els IHe]; intros s; simpl; [reflexivity|apply IHe]. }
    destruct (ParsedFormula.isValid parsed) eqn:Hvalid; simpl.
    + rewrite Hfold.
      destruct (IH (fold_left setAdd
                      (map ParsedElement.symbol (ParsedFormula.elements parsed)) set0))
        as [set' [-> [Hnd Hin]]].
      exists set'. split; [reflexivity|].
      split; [intros H; apply Hnd; now apply fold_setAdd_NoDup|].
      intros element. rewrite Hin, fold_setAdd_In. split.
      * intros [[H|H]|[x [Hx Ha]]]; [now left| |right; exists x; split; [now right|assumption]].
        right. exists c. split; [now left|].
        eapply symbol_atomsOf; eassumption.
      * intros [H|[x [[<-|Hx] Ha]]]; [left; now left| |right; exists x; now split].
        left. right.
        destruct (atomsOf_symbol periodicTable (EquationCompound.formula c) element)
          as [parsed' [Hp' [_ Hin']]]; [lia|].
        congruence.
    + destruct (IH set0) as [set' [-> [Hnd Hin]]].
      exists set'. split; [reflexivity|]. split; [assumption|].
      intros element. rewrite Hin. split.
      * intros [H|[x [Hx Ha]]]; [now left|right; exists x; split; [now right|assumption]].
      * intros [H|[x [[<-|Hx] Ha]]]; [now left| |right; exists x; now split].
        exfalso.
        destruct (atomsOf_symbol periodicTable (EquationCompound.formula c) element)
          as [parsed' [Hp' [Hv' _]]]; [lia|].
        congruence.
Qed.

End Elements.

Lemma str_ltb_asym (a b : str) : str_ltb a b = true -> str_ltb b a = false.
Proof.
  revert b. induction a as [|x a IH]; intros [|y b]; simpl; try congruence.
  destruct (N.ltb_spec x y), (N.ltb_spec y x); try congruence; try lia.
  apply IH.
Qed.

Lemma str_ltb_total (a b : str) :
  str_ltb a b = false -> str_ltb b a = false -> a = b.
Proof.
  revert b. induction a as [|x a IH]; intros [|y b]; simpl; try congruence.
  destruct (N.ltb_spec x y), (N.ltb_spec y x); try congruence; try lia.
  intros H1 H2. assert (x = y) by lia. subst. f_equal. now apply IH.
Qed.

Lemma insertSorted_ascending (x : str) (l : list str) :
  ascending l -> ascending (insertSorted x l).
Proof.
  induction l as [|y l IH]; intros Hl; [simpl; auto|].
  cbn [insertSorted]. destruct (str_ltb y x) eqn:E.
  - destruct Hl as [Hhead Htail]. specialize (IH Htail).
    split; [|exact IH].
    destruct l as [|z l]; cbn [insertSorted] in *.
    + now apply str_ltb_asym.
    + destruct (str_ltb z x); [assumption|now apply str_ltb_asym].
  - split; [exact E|exact Hl].
Qed.

Lemma sortStrings_ascending (l : list str) : ascending (sortStrings l).
Proof.
  unfold sortStrings. induction l as [|x l IH]; simpl; [exact I|].
  now apply insertSorted_ascending.
Qed.

Lemma insertSorted_NoDup (x : str) (l : list str) :
  NoDup l -> ~ In x l -> NoDup (insertSorted x l).
Proof.
  induction l as [|y l IH]; intros Hl Hx; simpl.
  - constructor; [intros []|constructor].
  - inversion Hl as [|? ? Hy Hl']; subst.
    destruct (str_ltb y x).
    + constructor.
      * rewrite insertSorted_In. intros [->|H]; [apply Hx; now left|contradiction].
      * apply IH; [assumption|]. intros H. apply Hx. now right.
    + constructor; assumption.
Qed.

Lemma sortStrings_NoDup (l : list str) : NoDup l -> NoDup (sortStrings l).
Proof.
  unfold sortStrings. induction l as [|x l IH]; intros H; simpl; [constructor|].
  inversion H; subst. apply insertSorted_NoDup; [now apply IH|].
  fold (sortStrings l). now rewrite sortStrings_In.
Qed.

Lemma ascending_strictly (l : list str) :
  ascending l -> NoDup l -> strictlySorted l.
Proof.
  induction l as [|x l IH]; intros Ha Hn; [exact I|].
  destruct Ha as [Hhead Htail]. inversion Hn as [|? ? Hx Hl]; subst.
  split; [|now apply IH].
  destruct l as [|y l]; [exact I|].
  destruct (str_ltb x y) eqn:E; [reflexivity|].
  exfalso. apply Hx. left. now apply str_ltb_total.
Qed.

Section AllElements.

Variable periodicTable : list str.

Lemma getAllElements_spec (compounds : list EquationCompound.t) :
  exists allElements,
    getAllElements periodicTable compounds = Ok allElements
    /\ strictlySorted allElements
    /\ forall element,
        In element allElements
        <-> exists compound,
            In compound compounds
            /\ 1 <= atomsOf periodicTable (EquationCompound.formula compound) element.
Proof.
  unfold getAllElements.
  destruct (getAllElements_fold periodicTable compounds []) as [set [-> [Hnd Hin]]].
  simpl. exists (sortStrings set). split; [reflexivity|].
  split.
  - apply ascending_strictly; [apply sortStrings_ascending|].
    apply sortStrings_NoDup. apply Hnd. constructor.
  - intros element. rewrite sortStrings_In, Hin. simpl. tauto.
Qed.

Lemma checkBalance_loop_spec (tempReactants tempProducts : list EquationCompound.t)
      (allElements : list str) :
  checkBalance_loop periodicTable tempReactants tempProducts allElements
  = Ok (forallb (fun element =>
                   sideAtoms periodicTable tempReactants element
                   =? sideAtoms periodicTable tempProducts element)
                allElements).
Proof.
  induction allElements as [|element allElements IH]; simpl; [reflexivity|].
  rewrite !countElementInSide_spec. simpl.
  destruct (_ =? _); simpl; [exact IH|reflexivity].
Qed.

End AllElements.


(** ** The search of the trial-and-error method *)

Section SearchBranch.

Variable periodicTable : list str.

Lemma coefficientAt_map_mul (k : Z) (l : list Z) (i : Z) :
  coefficientAt (map (Z.mul k) l) i = k * coefficientAt l i.
Proof.
  unfold coefficientAt. generalize (Z.to_nat i). clear i.
  induction l as [|x l IH]; intros [|n]; simpl; try lia. apply IH.
Qed.

Lemma sumZ_mapi_scale {A} (k : Z) (f g : A -> Z -> Z) (l : list A) :
  (forall x i, f x i = k * g x i) ->
  forall i, sumZ (mapi_from i f l) = k * sumZ (mapi_from i g l).
Proof.
  intros H. induction l as [|x l IH]; intros i; simpl; [lia|].
  rewrite H, IH. lia.
Qed.

Lemma weightedAtoms_scale (compounds : list EquationCompound.t) (k : Z)
      (coefficients : list Z) (offset : Z) (element : str) :
  weightedAtoms periodicTable compounds (map (Z.mul k) coefficients) offset element
  = k * weightedAtoms periodicTable compounds coefficients offset element.
Proof.
  unfold weightedAtoms. apply sumZ_mapi_scale.
  intros x i. rewrite coefficientAt_map_mul. lia.
Qed.

Lemma firstn_length_app {A} (l1 l2 : list A) :
  firstn (List.length l1) (l1 ++ l2) = l1.
Proof. induction l1; simpl; [now destruct l2|]. now f_equal. Qed.

Lemma skipn_length_app {A} (l1 l2 : list A) :
  skipn (List.length l1) (l1 ++ l2) = l2.
Proof. induction l1; simpl; [reflexivity|assumption]. Qed.

Lemma withCoefficients_coefficients (compounds : list EquationCompound.t)
      (coefficients : list Z) :
  List.length coefficients = List.length compounds ->
  map EquationCompound.coefficient (withCoefficients compounds coefficients)
  = coefficients.
Proof.
  unfold withCoefficients, mapi. rewrite mapi_from_map. simpl.
  assert (G : forall (pre : list Z),
             List.length coefficients = List.length compounds ->
             mapi_from (Z.of_nat (List.length pre))
                       (fun (_ : EquationCompound.t) i =>
                          coefficientAt (pre ++ coefficients) i) compounds
             = coefficients).
  { revert coefficients.
    induction compounds as [|c l IH]; intros [|x cs] pre Hlen; simpl in *;
      try discriminate; [reflexivity|].
    f_equal.
    - unfold coefficientAt. rewrite Nat2Z.id.
      rewrite app_nth2 by lia. now rewrite Nat.sub_diag.
    - specialize (IH cs (pre ++ [x]) ltac:(lia)).
      rewrite <- app_assoc in IH. simpl in IH.
      rewrite length_app in IH. simpl in IH.
      rewrite Nat2Z.inj_add in IH. exact IH. }
  intros Hlen. exact (G [] Hlen).
Qed.

Lemma ones_range (n : nat) (c : Z) : In c (ones n) -> c = 1.
Proof. unfold ones. intros H. now apply repeat_spec in H. Qed.

Lemma ones_length (n : nat) : List.length (ones n) = n.
Proof. apply repeat_length. Qed.

(** What a valid result of the search is made of. *)
Lemma search_valid_inv (equation : ChemicalEquation.t) (allElements : list str)
      (remaining : nat) :
  forall iteration reactantCoeffs productCoeffs steps result,
    List.length reactantCoeffs = List.length (ChemicalEquation.reactants equation) ->
    List.length productCoeffs = List.length (ChemicalEquation.products equation) ->
    (forall c, In c (reactantCoeffs ++ productCoeffs) -> 1 <= c <= maxCoefficient) ->
    search periodicTable equation allElements remaining iteration
           reactantCoeffs productCoeffs steps = Ok result ->
    BalanceResult.isValid result = true ->
    exists reactantCoeffs' productCoeffs' simplified,
      List.length reactantCoeffs' = List.length (ChemicalEquation.reactants equation)
      /\ List.length productCoeffs' = List.length (ChemicalEquation.products equation)
      /\ (forall c, In c (reactantCoeffs' ++ productCoeffs') ->
                    1 <= c <= maxCoefficient)
      /\ checkBalance periodicTable (ChemicalEquation.reactants equation)
                      (ChemicalEquation.products equation)
                      reactantCoeffs' productCoeffs' allElements = Ok true
      /\ simplifyCoefficients (reactantCoeffs' ++ productCoeffs') = Ok simplified
      /\ BalanceResult.balancedReactants result
         = withCoefficients (ChemicalEquation.reactants equation)
             (firstn (List.length (ChemicalEquation.reactants equation)) simplified)
      /\ BalanceResult.balancedProducts result
         = withCoefficients (ChemicalEquation.products equation)
             (skipn (List.length (ChemicalEquation.reactants equation)) simplified).
Proof.
  induction remaining as [|remaining IH];
    intros iteration rc pc steps result Hrc Hpc Hrange; simpl.
  - intros [= <-]. discriminate.
  - intros Hrun Hvalid.
    apply bind_inv in Hrun as [balanced [Hbal Hrun]].
    destruct balanced.
    + apply bind_inv in Hrun as [simplified [Hsimp Hrun]].
      apply bind_inv in Hrun as [gcdAll [_ Hrun]].
      apply bind_inv in Hrun as [finalBalance [_ Hrun]].
      injection Hrun as <-.
      exists rc, pc, simplified. simpl.
      split; [assumption|]. split; [assumption|]. split; [assumption|].
      split; [assumption|]. split; [assumption|]. split; reflexivity.
    + assert (Hrange_r : forall c, In c rc -> 1 <= c <= maxCoefficient)
        by (intros c Hc; apply Hrange; apply in_or_app; now left).
      assert (Hrange_p : forall c, In c pc -> 1 <= c <= maxCoefficient)
        by (intros c Hc; apply Hrange; apply in_or_app; now right).
      pose proof (getNextCombination_spec maxCoefficient pc Hrange_p) as Hp.
      destruct (getNextCombination pc maxCoefficient) as [advanced pc1].
      destruct Hp as [Hlen1 [Hrange1 _]].
      destruct advanced.
      * eapply IH; [| | |exact Hrun|exact Hvalid]; try congruence.
        intros c Hc. apply in_app_or in Hc as [Hc|Hc]; auto.
      * pose proof (getNextCombination_spec maxCoefficient rc Hrange_r) as Hr.
        destruct (getNextCombination rc maxCoefficient) as [advanced rc1].
        destruct Hr as [Hlen2 [Hrange2 _]].
        destruct advanced.
        -- eapply IH; [| | |exact Hrun|exact Hvalid]; try congruence.
           ++ rewrite ones_length. congruence.
           ++ intros c Hc. apply in_app_or in Hc as [Hc|Hc]; auto.
              apply ones_range in Hc. subst c. unfold maxCoefficient. lia.
        -- injection Hrun as <-. discriminate.
Qed.

Lemma forallb_balance (reactants products : list EquationCompound.t)
      (allElements : list str) :
  (forall compound element,
      In compound (reactants ++ products) ->
      atomsOf periodicTable (EquationCompound.formula compound) element <> 0 ->
      In element allElements) ->
  forall rc pc offset,
    forallb (fun element =>
               weightedAtoms periodicTable reactants rc 0 element
               =? weightedAtoms periodicTable products pc offset element)
            allElements = true ->
    forall element,
      weightedAtoms periodicTable reactants rc 0 element
      = weightedAtoms periodicTable products pc offset element.
Proof.
  intros Hall rc pc offset Hcheck element.
  destruct (In_dec (list_eq_dec N.eq_dec) element allElements) as [Hin|Hout].
  - rewrite forallb_forall in Hcheck. apply Z.eqb_eq. now apply Hcheck.
  - assert (Hzero : forall compound,
               In compound (reactants ++ products) ->
               atomsOf periodicTable (EquationCompound.formula compound) element = 0).
    { intros compound Hc.
      destruct (Z.eq_dec (atomsOf periodicTable
                                  (EquationCompound.formula compound) element) 0)
        as [E|E]; [exact E|].
      exfalso. apply Hout. eapply Hall; eassumption. }
    rewrite !weightedAtoms_zero; [reflexivity| |];
      intros compound Hc; apply Hzero; apply in_or_app; auto.
Qed.

Lemma checkBalance_true (reactants products : list EquationCompound.t)
      (rc pc : list Z) (allElements : list str) :
  (forall compound element,
      In compound (reactants ++ products) ->
      atomsOf periodicTable (EquationCompound.formula compound) element <> 0 ->
      In element allElements) ->
  checkBalance periodicTable reactants products rc pc allElements = Ok true ->
  forall element,
    weightedAtoms periodicTable reactants rc 0 element
    = weightedAtoms periodicTable products pc 0 element.
Proof.
  intros Hall Hcheck. unfold checkBalance in Hcheck.
  rewrite checkBalance_loop_spec in Hcheck. injection Hcheck as Hcheck.
  apply (forallb_balance reactants products allElements Hall rc pc 0).
  rewrite forallb_forall in *. intros element Hin.
  specialize (Hcheck element Hin).
  now rewrite !sideAtoms_withCoefficients in Hcheck.
Qed.

Lemma search_valid_result (equation : ChemicalEquation.t) (allElements : list str)
      (remaining : nat) (iteration : Z) (steps : list BalanceStep.t)
      (result : BalanceResult.t) :
  (forall compound element,
      In compound (ChemicalEquation.reactants equation
                   ++ ChemicalEquation.products equation) ->
      atomsOf periodicTable (EquationCompound.formula compound) element <> 0 ->
      In element allElements) ->
  search periodicTable equation allElements remaining iteration
         (ones (List.length (ChemicalEquation.reactants equation)))
         (ones (List.length (ChemicalEquation.products equation))) steps
  = Ok result ->
  BalanceResult.isValid result = true ->
  (forall element,
      sideAtoms periodicTable (BalanceResult.balancedReactants result) element
      = sideAtoms periodicTable (BalanceResult.balancedProducts result) element)
  /\ (forall c, In c (coefficientVector result) -> 1 <= c <= maxCoefficient)
  /\ Helpers.gcd (coefficientVector result) = Ok 1
  /\ map EquationCompound.formula (BalanceResult.balancedReactants result)
     = map EquationCompound.formula (ChemicalEquation.reactants equation)
  /\ map EquationCompound.formula (BalanceResult.balancedProducts result)
     = map EquationCompound.formula (ChemicalEquation.products equation).
Proof.
  intros Hall Hrun Hvalid.
  set (reactants := ChemicalEquation.reactants equation) in *.
  set (products := ChemicalEquation.products equation) in *.
  destruct (search_valid_inv equation allElements remaining iteration _ _ steps
              result (ones_length _) (ones_length _)) as
      [rc [pc [simplified [Hrc [Hpc [Hrange [Hbal [Hsimp [Hr Hp]]]]]]]]];
    try assumption.
  { intros c Hc. apply in_app_or in Hc as [Hc|Hc]; apply ones_range in Hc;
      subst c; unfold maxCoefficient; lia. }
  fold reactants in Hrc, Hbal, Hr, Hp. fold products in Hpc, Hbal, Hp.
  assert (Hconserved := checkBalance_true reactants products rc pc allElements
                          Hall Hbal).
  assert (Hsplit : rc ++ pc = [] \/ exists c, In c (rc ++ pc) /\ c <> 0).
  { destruct (rc ++ pc) as [|c l] eqn:E; [now left|right].
    exists c. split; [now left|].
    assert (1 <= c <= maxCoefficient) by (apply Hrange; now left). lia. }
  destruct Hsplit as [Hempty|Hnonzero].
  - apply app_eq_nil in Hempty as [-> ->].
    simpl in Hsimp. injection Hsimp as <-.
    destruct reactants; [|discriminate]. destruct products; [|discriminate].
    unfold coefficientVector. rewrite Hr, Hp. simpl.
    split; [intros element; reflexivity|]. split; [intros c0 []|].
    split; [reflexivity|]. split; reflexivity.
  - destruct (simplifyCoefficients_spec _ Hnonzero)
      as [g [simplified' [Hsimp' [_ [Hg [_ [Hmul Hone]]]]]]].
    rewrite Hsimp in Hsimp'. injection Hsimp' as <-.
    assert (Hlen : List.length simplified
                   = (List.length reactants + List.length products)%nat).
    { rewrite <- Hrc, <- Hpc, <- length_app, Hmul. now rewrite length_map. }
    assert (Hvector : coefficientVector result = simplified).
    { unfold coefficientVector. rewrite Hr, Hp, map_app.
      rewrite !withCoefficients_coefficients.
      - apply firstn_skipn.
      - rewrite length_skipn. lia.
      - rewrite length_firstn. lia. }
    split.
    { intros element. rewrite Hr, Hp, !sideAtoms_withCoefficients.
      rewrite weightedAtoms_firstn, weightedAtoms_skipn.
      specialize (Hconserved element).
      rewrite <- (firstn_length_app rc pc) in Hconserved at 1.
      rewrite <- (skipn_length_app rc pc) in Hconserved at 2.
      rewrite Hrc in Hconserved.
      rewrite weightedAtoms_firstn, weightedAtoms_skipn in Hconserved.
      rewrite Hmul, !weightedAtoms_scale in Hconserved.
      apply Z.mul_reg_l with g; [lia|exact Hconserved]. }
    split.
    { rewrite Hvector. intros c Hc.
      assert (Hgc : 1 <= g * c <= maxCoefficient).
      { apply Hrange. rewrite Hmul. now apply in_map. }
      unfold maxCoefficient in *. nia. }
    split.
    { rewrite Hvector, gcd_spec, Hone; [reflexivity|].
      intros ->. destruct Hnonzero as [c [Hc _]]. rewrite Hmul in Hc. contradiction. }
    rewrite Hr, Hp, !withCoefficients_formulas. now split.
Qed.

End SearchBranch.



(** ** Checking a balanced equation *)

Section BalanceValidationProps.

Variable periodicTable : list str.



End BalanceValidationProps.


(** ** The text of the tokens *)

Lemma forallb_takeWhile_dropWhile {A} (p q : A -> bool) (l : list A) :
  forallb q (takeWhile p l) = true -> forallb q (dropWhile p l) = true ->
  forallb q l = true.
Proof.
  induction l as [|x l IH]; simpl; [reflexivity|].
  destruct (p x); simpl.
  - rewrite andb_true_iff. intros [Hx Ht] Hd. rewrite Hx. simpl. now apply IH.
  - intros _ H. exact H.
Qed.

Lemma tokenize_from_values (n : nat) :
  forall formula position tokens,
    (List.length formula <= n)%nat ->
    tokenize_from position formula = Some tokens ->
    List.concat (map Token.value tokens) = removeWhitespace formula
    /\ forallb tokenWellFormed tokens = true
    /\ forallb isFormulaText formula = true.
Proof.
  induction n as [|n IH]; intros formula position tokens Hlen Htok.
  { destruct formula; [|simpl in Hlen; lia]. simpl in Htok.
    injection Htok as <-. repeat split. }
  destruct formula as [|char rest].
  { simpl in Htok. injection Htok as <-. repeat split. }
  simpl in Hlen.
  destruct (isWhitespace char) eqn:Hws.
  { rewrite tokenize_from_space in Htok by assumption.
    rewrite removeWhitespace_space by assumption.
    destruct (IH rest (position + 1) tokens ltac:(lia) Htok) as [Hv [Hw Hc]].
    split; [assumption|]. split; [assumption|].
    cbn [forallb]. unfold isFormulaText at 1. now rewrite Hws, orb_true_r. }
  rewrite removeWhitespace_keep by assumption.
  destruct (isUpper char) eqn:Hu.
  { assert (Hfc : isFormulaText char = true)
      by (unfold isFormulaText, isFormulaChar; now rewrite Hu).
    destruct rest as [|next rest'].
    - rewrite tokenize_from_upper in Htok by (auto; exact I).
      simpl in Htok. injection Htok as <-.
      split; [reflexivity|]. split; [simpl; unfold tokenWellFormed; simpl;
                                     now rewrite Hu|].
      simpl. now rewrite Hfc.
    - destruct (isLower next) eqn:Hl.
      + rewrite tokenize_from_upper_lower in Htok by assumption.
        invert_consToken Htok. simpl in Hlen.
        destruct (IH rest' _ _ ltac:(lia) Htail) as [Hv [Hw Hc]].
        rewrite removeWhitespace_keep by now apply lower_not_space.
        split; [simpl; now rewrite Hv|].
        split; [cbn [forallb]; rewrite Hw; unfold tokenWellFormed; simpl;
                now rewrite Hu, Hl|].
        cbn [forallb]. rewrite Hfc, Hc.
        unfold isFormulaText, isFormulaChar. now rewrite Hl, !orb_true_r.
      + rewrite tokenize_from_upper in Htok by assumption.
        invert_consToken Htok.
        destruct (IH (next :: rest') _ _ ltac:(simpl in *; lia) Htail)
          as [Hv [Hw Hc]].
        split; [simpl; now rewrite Hv|].
        split; [cbn [forallb]; rewrite Hw; unfold tokenWellFormed; simpl;
                now rewrite Hu|].
        cbn [forallb] in *. now rewrite Hfc, Hc. }
  destruct (isDigit char) eqn:Hd.
  { assert (Hfc : isFormulaText char = true)
      by (unfold isFormulaText, isFormulaChar; now rewrite Hd, !orb_true_r).
    rewrite tokenize_from_digit, tokenize_digits_spec in Htok by assumption.
    invert_consToken Htok.
    pose proof (length_dropWhile isDigit rest) as Hdrop.
    destruct (IH (dropWhile isDigit rest) _ _ ltac:(lia) Htail) as [Hv [Hw Hc]].
    split.
    { simpl. rewrite Hv. f_equal. symmetry. apply removeWhitespace_digits. }
    split.
    { cbn [forallb]. rewrite Hw, andb_true_r.
      unfold tokenWellFormed. simpl. rewrite Hd. simpl. apply takeWhile_all. }
    cbn [forallb]. rewrite Hfc. simpl.
    apply (forallb_takeWhile_dropWhile isDigit); [|assumption].
    pose proof (takeWhile_all rest) as Hall.
    rewrite forallb_forall in *. intros x Hx.
    unfold isFormulaText, isFormulaChar. now rewrite (Hall x Hx), !orb_true_r. }
  destruct (char_eqb char openParen) eqn:Ho.
  { assert (Hfc : isFormulaText char = true)
      by (unfold isFormulaText, isFormulaChar; now rewrite Ho, !orb_true_r).
    rewrite tokenize_from_open in Htok by assumption.
    invert_consToken Htok.
    destruct (IH rest _ _ ltac:(lia) Htail) as [Hv [Hw Hc]].
    split; [simpl; now rewrite Hv|].
    split; [cbn [forallb]; rewrite Hw; unfold tokenWellFormed; simpl;
            now rewrite Ho|].
    cbn [forallb]. now rewrite Hfc, Hc. }
  destruct (char_eqb char closeParen) eqn:Hc'.
  { assert (Hfc : isFormulaText char = true)
      by (unfold isFormulaText, isFormulaChar; now rewrite Hc', !orb_true_r).
    rewrite tokenize_from_close in Htok by assumption.
    invert_consToken Htok.
    destruct (IH rest _ _ ltac:(lia) Htail) as [Hv [Hw Hc]].
    split; [simpl; now rewrite Hv|].
    split; [cbn [forallb]; rewrite Hw; unfold tokenWellFormed; simpl;
            now rewrite Hc'|].
    cbn [forallb]. now rewrite Hfc, Hc. }
  rewrite tokenize_from_other in Htok by assumption. discriminate.
Qed.

Lemma tokenize_values (formula : str) :
  tokenize formula <> [] ->
  List.concat (map Token.value (tokenize formula)) = removeWhitespace formula
  /\ forallb tokenWellFormed (tokenize formula) = true
  /\ forallb isFormulaText formula = true.
Proof.
  unfold tokenize. destruct (tokenize_from 0 formula) as [tokens|] eqn:E;
    [|congruence].
  intros _. eapply tokenize_from_values; [apply Nat.le_refl|exact E].
Qed.


(** ** Foreign code units and normalized formulas *)

Lemma dropWhile_In (c : char) (s : str) :
  In c s -> isWhitespace c = false -> In c (dropWhile isWhitespace s).
Proof.
  induction s as [|x s IH]; simpl; [contradiction|].
  intros [->|Hin] Hc.
  - rewrite Hc. now left.
  - destruct (isWhitespace x); [now apply IH|now right].
Qed.

Lemma trim_In (c : char) (s : str) :
  In c s -> isWhitespace c = false -> In c (trim s).
Proof.
  intros Hin Hc. unfold trim. apply in_rev. rewrite rev_involutive.
  apply dropWhile_In; [|assumption]. apply -> in_rev.
  now apply dropWhile_In.
Qed.

Section ForeignCharacter.

Variable periodicTable : list str.

Lemma parseChemicalFormula_foreign (formula : str) (c : char) :
  In c formula -> isFormulaChar c = false -> isWhitespace c = false ->
  JS.length (trim formula) <= VALIDATION_LIMITS.MAX_FORMULA_LENGTH ->
  parseChemicalFormula periodicTable formula
  = Ok (ParsedFormula.make [] (trim formula) false
          (Some ERROR_MESSAGES.PARSING.INVALID_SYNTAX)).
Proof.
  intros Hin Hfc Hws Hlen.
  pose proof (trim_In c formula Hin Hws) as Htrim.
  unfold parseChemicalFormula.
  destruct formula as [|x formula]; [contradiction|]. simpl isEmptyString. simpl orb.
  destruct (Z.eqb_spec (JS.length (trim (x :: formula))) 0) as [E|_].
  { unfold JS.length in E. destruct (trim (x :: formula)); [contradiction|].
    simpl in E. lia. }
  destruct (Z.gtb_spec (JS.length (trim (x :: formula)))
                       VALIDATION_LIMITS.MAX_FORMULA_LENGTH) as [|_]; [lia|].
  assert (Hnone : tokenize (trim (x :: formula)) = []).
  { destruct (tokenize (trim (x :: formula))) as [|t ts] eqn:E; [reflexivity|].
    exfalso.
    destruct (tokenize_values (trim (x :: formula))) as [_ [_ Hall]];
      [congruence|].
    rewrite forallb_forall in Hall. specialize (Hall c Htrim).
    unfold isFormulaText in Hall. rewrite Hfc, Hws in Hall. discriminate. }
  rewrite Hnone. reflexivity.
Qed.

End ForeignCharacter.

Lemma matches_star_class_inv (p : char -> bool) (s : str) :
  Regex.matches (Regex.Star (Regex.Class p)) s = true -> forallb p s = true.
Proof.
  induction s as [|c s IH]; [reflexivity|]. simpl.
  destruct (p c); simpl; [exact IH|]. now rewrite matches_Empty.
Qed.

Lemma matches_plus_class_inv (p : char -> bool) (s : str) :
  Regex.matches (Regex.Seq (Regex.Class p) (Regex.Star (Regex.Class p))) s = true ->
  s <> [] /\ forallb p s = true.
Proof.
  destruct s as [|c s]; simpl; [discriminate|].
  destruct (p c); simpl; [|now rewrite matches_Empty].
  intros H. split; [discriminate|]. now apply matches_star_class_inv.
Qed.

Lemma removeWhitespace_id (s : str) :
  forallb (fun c => negb (isWhitespace c)) s = true -> removeWhitespace s = s.
Proof.
  induction s as [|c s IH]; [reflexivity|]. simpl.
  rewrite andb_true_iff. intros [Hc Hs]. unfold removeWhitespace. simpl.
  rewrite Hc. f_equal. now apply IH.
Qed.

Lemma normalizeFormula_cases (formula : str) :
  normalizeFormula formula = []
  \/ (normalizeFormula formula = removeWhitespace (trim formula)
      /\ normalizeFormula formula <> []
      /\ forallb isFormulaChar (normalizeFormula formula) = true).
Proof.
  unfold normalizeFormula. destruct (isEmptyString formula); [now left|].
  fold (removeWhitespace (trim formula)).
  destruct (Regex.matches _ (removeWhitespace (trim formula))) eqn:E; simpl;
    [|now left].
  right. apply matches_plus_class_inv in E as [Hne Hall]. now repeat split.
Qed.

Lemma normalizeFormula_fixed (s : str) :
  s <> [] -> forallb isFormulaChar s = true -> normalizeFormula s = s.
Proof.
  intros Hne Hall.
  assert (Hclean : forallb (fun c => negb (isWhitespace c)) s = true).
  { rewrite forallb_forall in *. intros c Hc. specialize (Hall c Hc).
    apply negb_true_iff. clear - Hall. charclass. }
  unfold normalizeFormula. destruct s as [|c s]; [congruence|]. simpl isEmptyString.
  cbv iota. rewrite (trim_without_space _ Hclean).
  fold (removeWhitespace (c :: s)). rewrite (removeWhitespace_id _ Hclean).
  now rewrite matches_plus_class.
Qed.

Lemma normalizeFormula_idem (formula : str) :
  normalizeFormula (normalizeFormula formula) = normalizeFormula formula
  /\ forallb isFormulaChar (normalizeFormula formula) = true.
Proof.
  destruct (normalizeFormula_cases formula) as [->|[_ [Hne Hall]]].
  - now split.
  - split; [now apply normalizeFormula_fixed|assumption].
Qed.


(** ** Queries on a formula *)

Lemma sumZ_fold_left {A} (f : A -> Z) (l : list A) :
  forall total, fold_left (fun total x => total + f x) l total
                = total + sumZ (map f l).
Proof.
  induction l as [|x l IH]; intros total; simpl; [lia|]. rewrite IH. lia.
Qed.

Lemma countOf_not_In (elements : list ParsedElement.t) (element : str) :
  ~ In element (map ParsedElement.symbol elements) -> countOf elements element = 0.
Proof.
  unfold countOf. intros H.
  destruct (find _ elements) as [el|] eqn:F; [|reflexivity].
  apply find_some in F as [Hin Heq]. apply str_eqb_eq in Heq. subst element.
  exfalso. apply H. now apply in_map.
Qed.

Lemma countOf_In (elements : list ParsedElement.t) (el : ParsedElement.t) :
  NoDup (map ParsedElement.symbol elements) -> In el elements ->
  countOf elements (ParsedElement.symbol el) = ParsedElement.count el.
Proof.
  unfold countOf. induction elements as [|x l IH]; simpl; [contradiction|].
  intros Hnd [->|Hin].
  - now rewrite str_eqb_refl.
  - inversion Hnd as [|? ? Hx Hl]; subst.
    destruct (str_eqb (ParsedElement.symbol x) (ParsedElement.symbol el)) eqn:E.
    + apply str_eqb_eq in E. exfalso. apply Hx. rewrite E. now apply in_map.
    + now apply IH.
Qed.

Lemma sumZ_countOf (elements : list ParsedElement.t) :
  NoDup (map ParsedElement.symbol elements) ->
  sumZ (map (countOf elements) (map ParsedElement.symbol elements))
  = sumZ (map ParsedElement.count elements).
Proof.
  intros Hnd. rewrite map_map. f_equal. apply map_ext_in.
  intros el Hel. now apply countOf_In.
Qed.

Section Queries.

Variable periodicTable : list str.

(** The outcome of the queries on one formula, by the parse of the
    formula. *)
Lemma queries_spec (formula : str) :
  exists elements : list ParsedElement.t,
    NoDup (map ParsedElement.symbol elements)
    /\ (forall el, In el elements ->
                   isValidElement periodicTable (ParsedElement.symbol el) = true
                   /\ 1 <= ParsedElement.count el)
    /\ sumZ (map ParsedElement.count elements) <= 1000
    /\ extractElements periodicTable formula
       = Ok (map ParsedElement.symbol elements)
    /\ getTotalAtomCount periodicTable formula
       = Ok (sumZ (map ParsedElement.count elements))
    /\ (forall element,
           getElementCount periodicTable formula element
           = Ok (countOf elements element))
    /\ (forall coefficient,
           multiplyFormula periodicTable formula coefficient
           = Ok (if coefficient <=? 0 then []
                 else map (fun el => ParsedElement.make
                                       (ParsedElement.symbol el)
                                       (ParsedElement.count el * coefficient))
                          elements)).
Proof.
  unfold extractElements, getTotalAtomCount, getElementCount, multiplyFormula.
  destruct (parseChemicalFormula_returns periodicTable formula) as [parsed Hparse].
  rewrite Hparse. simpl.
  destruct (ParsedFormula.isValid parsed) eqn:Hvalid; simpl.
  - destruct (parseChemicalFormula_valid _ _ _ Hparse Hvalid)
      as [entries [[Hnd Hgood] [Hel [Htotal _]]]].
    exists (ParsedFormula.elements parsed).
    split; [rewrite Hel, toParsedElements_symbols; exact Hnd|].
    split.
    { intros el Hin. rewrite Hel in Hin. apply toParsedElements_In in Hin.
      now apply Hgood in Hin. }
    unfold totalCount in Htotal. rewrite sumZ_fold_left in Htotal.
    split; [lia|].
    split; [reflexivity|].
    split; [rewrite sumZ_fold_left; reflexivity|].
    split.
    { intros element. unfold countOf. now destruct (find _ _). }
    intros coefficient. now destruct (coefficient <=? 0).
  - exists []. simpl.
    split; [constructor|]. split; [intros el []|]. split; [lia|].
    repeat split. intros coefficient. now destruct (coefficient <=? 0).
Qed.

End Queries.

Lemma dict_get_or_0_set_same (d : Dict) (key : str) (v : Z) :
  dict_get_or_0 (dict_set d key v) key = v.
Proof. unfold dict_get_or_0. now rewrite dict_get_set_same. Qed.

Lemma dict_get_or_0_set_other (d : Dict) (key : str) (v : Z) (k : str) :
  k <> key -> dict_get_or_0 (dict_set d key v) k = dict_get_or_0 d k.
Proof. intros H. unfold dict_get_or_0. now rewrite dict_get_set_other. Qed.

Lemma countOf_cons (el : ParsedElement.t) (elements : list ParsedElement.t)
      (element : str) :
  countOf (el :: elements) element
  = if str_eqb (ParsedElement.symbol el) element then ParsedElement.count el
    else countOf elements element.
Proof. unfold countOf. simpl. now destruct (str_eqb _ _). Qed.

(** Adding the entries of one formula to the dictionary of
    [combineFormulas]. *)
Lemma combine_step (elements : list ParsedElement.t) (element : str) :
  NoDup (map ParsedElement.symbol elements) ->
  forall combined,
    dict_get_or_0
      (fold_left
         (fun combinedElements el =>
            dict_set combinedElements (ParsedElement.symbol el)
                     (dict_get_or_0 combinedElements (ParsedElement.symbol el)
                      + ParsedElement.count el))
         elements combined)
      element
    = dict_get_or_0 combined element + countOf elements element.
Proof.
  induction elements as [|el elements IH]; intros Hnd combined; simpl.
  - unfold countOf. simpl. lia.
  - inversion Hnd as [|? ? Hx Hl]; subst.
    rewrite IH by assumption. rewrite countOf_cons.
    destruct (str_eqb (ParsedElement.symbol el) element) eqn:E.
    + apply str_eqb_eq in E. subst element.
      rewrite dict_get_or_0_set_same, countOf_not_In by assumption. lia.
    + apply str_eqb_neq in E.
      rewrite dict_get_or_0_set_other by congruence. reflexivity.
Qed.

Lemma combine_step_keys (elements : list ParsedElement.t) :
  forall combined,
    NoDup (keys combined) ->
    NoDup (keys (fold_left
                   (fun combinedElements el =>
                      dict_set combinedElements (ParsedElement.symbol el)
                               (dict_get_or_0 combinedElements
                                              (ParsedElement.symbol el)
                                + ParsedElement.count el))
                   elements combined)).
Proof.
  induction elements as [|el elements IH]; intros combined H; simpl; [assumption|].
  apply IH. now apply dict_set_NoDup.
Qed.

Lemma countOf_toParsedElements (d : Dict) (element : str) :
  countOf (toParsedElements d) element = dict_get_or_0 d element.
Proof.
  unfold countOf, dict_get_or_0, toParsedElements.
  induction d as [|[k v] d IH]; simpl; [reflexivity|].
  destruct (str_eqb k element); [reflexivity|exact IH].
Qed.

Lemma countOf_scaled (elements : list ParsedElement.t) (k : Z) (element : str) :
  countOf (map (fun el => ParsedElement.make (ParsedElement.symbol el)
                                             (ParsedElement.count el * k))
               elements) element
  = countOf elements element * k.
Proof.
  unfold countOf. induction elements as [|el l IH]; simpl; [reflexivity|].
  destruct (str_eqb (ParsedElement.symbol el) element); [reflexivity|exact IH].
Qed.

Section Combine.

Variable periodicTable : list str.

Lemma atomsOf_countOf (formula : str) (elements : list ParsedElement.t) :
  (forall element,
      getElementCount periodicTable formula element = Ok (countOf elements element)) ->
  forall element, atomsOf periodicTable formula element = countOf elements element.
Proof. intros H element. unfold atomsOf. now rewrite H. Qed.

Lemma combineFormulas_spec (formulas : list EquationCompound.t) :
  exists combined,
    combineFormulas periodicTable formulas = Ok combined
    /\ NoDup (map ParsedElement.symbol combined)
    /\ forall element,
        countOf combined element
        = sumZ (map (fun compound =>
                       if EquationCompound.coefficient compound <=? 0 then 0
                       else atomsOf periodicTable
                                    (EquationCompound.formula compound) element
                            * EquationCompound.coefficient compound)
                    formulas).
Proof.
  unfold combineFormulas.
  assert (G : forall l combined0,
             NoDup (keys combined0) ->
             exists combined,
               foldM (fun combinedElements compound =>
                        elements <- multiplyFormula periodicTable
                                      (EquationCompound.formula compound)
                                      (EquationCompound.coefficient compound) ;;
                        ret (fold_left
                               (fun combinedElements element =>
                                  dict_set combinedElements
                                           (ParsedElement.symbol element)
                                           (dict_get_or_0 combinedElements
                                              (ParsedElement.symbol element)
                                            + ParsedElement.count element))
                               elements combinedElements))
                     combined0 l = Ok combined
               /\ NoDup (keys combined)
               /\ forall element,
                   dict_get_or_0 combined element
                   = dict_get_or_0 combined0 element
                     + sumZ (map (fun compound =>
                                    if EquationCompound.coefficient compound <=? 0
                                    then 0
                                    else atomsOf periodicTable
                                           (EquationCompound.formula compound) element
                                         * EquationCompound.coefficient compound)
                                 l)).
  { induction l as [|c l IH]; intros combined0 Hnd; simpl.
    - exists combined0. split; [reflexivity|]. split; [assumption|].
      intros element. lia.
    - destruct (queries_spec periodicTable (EquationCompound.formula c))
        as [elements [Hnd' [_ [_ [_ [_ [Hcount Hmul]]]]]]].
      rewrite Hmul. simpl.
      pose proof (atomsOf_countOf _ _ Hcount) as Hatoms.
      destruct (EquationCompound.coefficient c <=? 0) eqn:Hk.
      + simpl. destruct (IH combined0 Hnd) as [combined [-> [Hnd2 Hget]]].
        exists combined. split; [reflexivity|]. split; [assumption|].
        intros element. rewrite Hget. lia.
      + match goal with
        | |- context [foldM _ ?d l] =>
          destruct (IH d) as [combined [-> [Hnd2 Hget]]]
        end.
        { now apply combine_step_keys. }
        exists combined. split; [reflexivity|]. split; [assumption|].
        intros element. rewrite Hget, combine_step.
        * rewrite countOf_scaled, Hatoms. lia.
        * rewrite map_map. simpl. exact Hnd'. }
  destruct (G formulas [] ltac:(constructor)) as [combined [-> [Hnd Hget]]].
  simpl. eexists. split; [reflexivity|].
  fold (toParsedElements combined).
  split; [rewrite toParsedElements_symbols; exact Hnd|].
  intros element. rewrite countOf_toParsedElements, Hget. reflexivity.
Qed.

End Combine.

Lemma fold_setAdd_fresh (l : list str) :
  forall set, NoDup (set ++ l) -> fold_left setAdd l set = set ++ l.
Proof.
  induction l as [|x l IH]; intros set Hnd; simpl; [now rewrite app_nil_r|].
  assert (Hx : existsb (str_eqb x) set = false).
  { apply not_true_is_false. intros H. apply existsb_str_eqb in H.
    apply NoDup_remove_2 in Hnd. apply Hnd. apply in_or_app. now left. }
  unfold setAdd at 2. rewrite Hx.
  rewrite IH; rewrite <- app_assoc; [reflexivity|exact Hnd].
Qed.

Lemma newSet_NoDup (l : list str) : NoDup l -> newSet l = l.
Proof. intros H. unfold newSet. now rewrite fold_setAdd_fresh. Qed.

Lemma existsb_member (l : list str) (element : str) :
  existsb (fun member => str_eqb member element) l = true <-> In element l.
Proof.
  rewrite existsb_exists. split.
  - intros [x [Hx E]]. apply str_eqb_eq in E. now subst.
  - intros H. exists element. split; [assumption|apply str_eqb_refl].
Qed.

Section SameElements.

Variable periodicTable : list str.

Lemma formulasHaveSameElements_spec (formula1 formula2 : str) :
  exists elements1 elements2 same,
    extractElements periodicTable formula1 = Ok elements1
    /\ extractElements periodicTable formula2 = Ok elements2
    /\ formulasHaveSameElements periodicTable formula1 formula2 = Ok same
    /\ (same = true <-> forall element, In element elements1 <-> In element elements2).
Proof.
  destruct (queries_spec periodicTable formula1) as [els1 [Hnd1 [_ [_ [He1 _]]]]].
  destruct (queries_spec periodicTable formula2) as [els2 [Hnd2 [_ [_ [He2 _]]]]].
  unfold formulasHaveSameElements. rewrite He1, He2. simpl.
  rewrite !newSet_NoDup by assumption.
  set (l1 := map ParsedElement.symbol els1) in *.
  set (l2 := map ParsedElement.symbol els2) in *.
  destruct (Z.eqb_spec (Z.of_nat (List.length l1)) (Z.of_nat (List.length l2)))
    as [Hlen|Hlen]; simpl.
  - exists l1, l2. eexists. split; [reflexivity|]. split; [reflexivity|].
    split; [reflexivity|]. split.
    + intros Hall element.
      assert (Hincl : incl l1 l2).
      { intros x Hx. rewrite forallb_forall in Hall.
        apply existsb_member. now apply Hall. }
      split; [apply Hincl|].
      apply (NoDup_length_incl Hnd1); [lia|exact Hincl].
    + intros Hsame. apply forallb_forall. intros x Hx.
      apply existsb_member. now apply Hsame.
  - exists l1, l2, false. split; [reflexivity|]. split; [reflexivity|].
    split; [reflexivity|]. split; [discriminate|].
    intros Hsame. exfalso. apply Hlen. f_equal.
    apply Nat.le_antisymm; apply NoDup_incl_length; try assumption;
      intros x Hx; now apply Hsame.
Qed.

End SameElements.


(** ** Parsed equations and validated formulas *)

Section EquationInvariant.

Variable periodicTable : list str.

Lemma parseCompoundsList_loop_valid (type : string) (compoundParts : list str) :
  forall compounds result,
    Forall (goodCompound periodicTable) compounds ->
    parseCompoundsList_loop periodicTable type compoundParts compounds = Ok result ->
    CompoundsList.isValid result = true ->
    Forall (goodCompound periodicTable) (CompoundsList.compounds result)
    /\ CompoundsList.error result = None.
Proof.
  induction compoundParts as [|part parts IH]; intros compounds result Hgood; simpl.
  - intros [= <-] _. now split.
  - destruct (isEmptyString part); [now apply IH|].
    destruct (matchCoefficient part) as [[coefficientStr rest]|];
      [|intros [= <-]; discriminate].
    set (coefficient := if isEmptyString coefficientStr then 1
                        else parseInt coefficientStr).
    destruct (Z.leb_spec coefficient 0); simpl; [intros [= <-]; discriminate|].
    destruct (Z.gtb_spec coefficient VALIDATION_LIMITS.MAX_COEFFICIENT);
      simpl; [intros [= <-]; discriminate|].
    destruct (parseChemicalFormula periodicTable (trim rest)) as [parsed| |] eqn:Hp;
      simpl; try discriminate.
    destruct (ParsedFormula.isValid parsed) eqn:Hv; simpl;
      [|intros [= <-]; discriminate].
    apply IH. apply Forall_app. split; [assumption|].
    constructor; [|constructor].
    split; [simpl; lia|]. exists parsed. now split.
Qed.

Lemma parseChemicalEquation_valid (equation : str) (result : EquationParseResult.t) :
  parseChemicalEquation periodicTable equation = Ok result ->
  EquationParseResult.isValid result = true ->
  EquationParseResult.error result = None
  /\ Forall (goodCompound periodicTable)
            (EquationParseResult.reactants result
             ++ EquationParseResult.products result)
  /\ getAllElements periodicTable
       (EquationParseResult.reactants result ++ EquationParseResult.products result)
     = Ok (EquationParseResult.allElements result)
  /\ exists validation,
      validateChemicalEquation periodicTable equation = Ok validation
      /\ ValidationResult.isValid validation = true.
Proof.
  unfold parseChemicalEquation. intros Hrun Hvalid.
  apply bind_inv in Hrun as [validation [Hval Hrun]].
  destruct (ValidationResult.isValid validation) eqn:Hv; cbn [negb] in Hrun;
    [|injection Hrun as <-; discriminate].
  match type of Hrun with
  | match ?f with _ => _ end = _ =>
    destruct f as [arrowSymbol|]; [|injection Hrun as <-; discriminate]
  end.
  apply bind_inv in Hrun as [reactants [Hr Hrun]].
  destruct (CompoundsList.isValid reactants) eqn:Hrv; cbn [negb] in Hrun;
    [|injection Hrun as <-; discriminate].
  apply bind_inv in Hrun as [products [Hp Hrun]].
  destruct (CompoundsList.isValid products) eqn:Hpv; cbn [negb] in Hrun;
    [|injection Hrun as <-; discriminate].
  apply bind_inv in Hrun as [allElements [Hall Hrun]].
  injection Hrun as <-. simpl.
  unfold parseCompoundsList in Hr, Hp.
  destruct (parseCompoundsList_loop_valid _ _ _ _ (Forall_nil _) Hr Hrv) as [Gr _].
  destruct (parseCompoundsList_loop_valid _ _ _ _ (Forall_nil _) Hp Hpv) as [Gp _].
  split; [reflexivity|]. split; [apply Forall_app; now split|].
  split; [assumption|]. exists validation. now split.
Qed.

End EquationInvariant.

Lemma count_le_sumZ (elements : list ParsedElement.t) (el : ParsedElement.t) :
  (forall x, In x elements -> 0 <= ParsedElement.count x) ->
  In el elements ->
  ParsedElement.count el <= sumZ (map ParsedElement.count elements).
Proof.
  induction elements as [|x l IH]; simpl; [contradiction|].
  intros Hpos [->|Hin].
  - assert (0 <= sumZ (map ParsedElement.count l)); [|lia].
    clear IH. induction l as [|y l IHl]; simpl; [lia|].
    assert (0 <= ParsedElement.count y) by (apply Hpos; right; now left).
    assert (0 <= sumZ (map ParsedElement.count l)); [|lia].
    apply IHl. intros z [->|Hz]; apply Hpos; [now left|right; now right].
  - assert (0 <= ParsedElement.count x) by (apply Hpos; now left).
    specialize (IH ltac:(intros z Hz; apply Hpos; now right) Hin). lia.
Qed.

Section FormulaValidation.

Variable periodicTable : list str.

Lemma validateChemicalFormula_spec (formula : str) (validation : ValidationResult.t) :
  validateChemicalFormula periodicTable formula = Ok validation ->
  (ValidationResult.isValid validation = true
   /\ ValidationResult.errors validation = []
   /\ validateFormulaSyntax (trim formula) = true
   /\ exists parsed,
       parseChemicalFormula periodicTable (trim formula) = Ok parsed
       /\ ParsedFormula.isValid parsed = true)
  \/ (ValidationResult.isValid validation = false
      /\ exists error, ValidationResult.errors validation = [error]).
Proof.
  unfold validateChemicalFormula.
  destruct (_ || _); [intros [= <-]; right; simpl; eauto|].
  destruct (_ >? _); [intros [= <-]; right; simpl; eauto|].
  destruct (validateFormulaSyntax (trim formula)) eqn:Hsyntax; simpl;
    [|intros [= <-]; right; simpl; eauto].
  destruct (parseChemicalFormula periodicTable (trim formula)) as [parsed| |] eqn:Hp;
    simpl; try discriminate.
  destruct (ParsedFormula.isValid parsed) eqn:Hv; simpl;
    [|intros [= <-]; right; simpl; eauto].
  destruct (parseChemicalFormula_valid _ _ _ Hp Hv)
    as [entries [[Hnd Hgood] [Hel [Htotal _]]]].
  match goal with
  | |- context [flat_map ?f ?l] => assert (Hnone : flat_map f l = [])
  end.
  { assert (Hall : forall el, In el (ParsedFormula.elements parsed) ->
                              isValidElement periodicTable (ParsedElement.symbol el)
                              = true
                              /\ 1 <= ParsedElement.count el <= 1000).
    { intros el Hin. pose proof Hin as Hin'.
      rewrite Hel in Hin. apply toParsedElements_In in Hin.
      apply Hgood in Hin as [Hvalid Hone]. split; [assumption|].
      split; [assumption|].
      unfold totalCount in Htotal. rewrite sumZ_fold_left in Htotal.
      pose proof (count_le_sumZ (ParsedFormula.elements parsed) el) as Hle.
      assert (ParsedElement.count el
              <= sumZ (map ParsedElement.count (ParsedFormula.elements parsed))).
      { apply Hle; [|assumption]. intros x Hx.
        rewrite Hel in Hx. apply toParsedElements_In in Hx.
        apply Hgood in Hx. lia. }
      lia. }
    clear Hel Htotal.
    induction (ParsedFormula.elements parsed) as [|el l IH]; [reflexivity|].
    simpl. destruct (Hall el (or_introl eq_refl)) as [-> [Hlo Hhi]]. simpl.
    destruct (Z.leb_spec (ParsedElement.count el) 0); [lia|].
    destruct (Z.gtb_spec (ParsedElement.count el)
                         VALIDATION_LIMITS.MAX_ATOMS_PER_MOLECULE);
      [unfold VALIDATION_LIMITS.MAX_ATOMS_PER_MOLECULE in *; lia|].
    simpl. apply IH. intros x Hx. apply Hall. now right. }
  rewrite Hnone. intros [= <-]. left. simpl.
  repeat split. exists parsed. now split.
Qed.

Lemma validateMultipleFormulas_spec (formulas : list str) :
  exists validation,
    validateMultipleFormulas periodicTable formulas = Ok validation
    /\ (ValidationResult.isValid validation = true
        <-> ValidationResult.errors validation = [])
    /\ (ValidationResult.isValid validation = true
        <-> formulas <> []
            /\ forall formula,
                In formula formulas ->
                exists result,
                  validateChemicalFormula periodicTable formula = Ok result
                  /\ ValidationResult.isValid result = true).
Proof.
  unfold validateMultipleFormulas.
  destruct formulas as [|first rest].
  { simpl. eexists. split; [reflexivity|]. simpl.
    split; split; try discriminate. intros [H _]. congruence. }
  change (Z.of_nat (List.length (first :: rest)) =? 0) with false. cbv iota.
  set (formulas := first :: rest).
  assert (G : forall l i errors0,
             exists errors,
               foldM (fun errors '(formula, i) =>
                        result <- validateChemicalFormula periodicTable formula ;;
                        if negb (ValidationResult.isValid result)
                        then ret (errors
                                  ++ [[Lit "Fórmula "; Int (i + 1); Lit " (";
                                       Sub formula; Lit "): "]
                                      ++ join [Lit ", "]
                                              (ValidationResult.errors result)])
                        else ret errors)
                     errors0 (mapi_from i (fun formula i => (formula, i)) l)
               = Ok errors
               /\ (errors = []
                   <-> errors0 = []
                       /\ forall formula,
                           In formula l ->
                           exists result,
                             validateChemicalFormula periodicTable formula
                             = Ok result
                             /\ ValidationResult.isValid result = true)).
  { induction l as [|formula l IH]; intros i errors0.
    - exists errors0. split; [reflexivity|].
      split; [intros H; split; [exact H|intros f []]|intros [H _]; exact H].
    - destruct (validateChemicalFormula_returns periodicTable formula)
        as [result [Hres _]].
      cbn [mapi_from foldM]. rewrite Hres. cbn [bind].
      destruct (ValidationResult.isValid result) eqn:Hv; cbn [negb];
        unfold ret at 1; cbn [bind].
      + destruct (IH (i + 1) errors0) as [errors [-> Hiff]].
        exists errors. split; [reflexivity|]. rewrite Hiff. split.
        * intros [-> Hall]. split; [reflexivity|].
          intros f [<-|Hf]; [exists result; now split|now apply Hall].
        * intros [-> Hall]. split; [reflexivity|]. intros f Hf. apply Hall. now right.
      + match goal with
        | |- context [foldM _ ?e (mapi_from _ _ l)] =>
          destruct (IH (i + 1) e) as [errors [-> Hiff]]
        end.
        exists errors. split; [reflexivity|]. rewrite Hiff. split.
        * intros [Hnil _]. now apply app_eq_nil in Hnil as [_ Hnil].
        * intros [_ Hall]. exfalso.
          destruct (Hall formula (or_introl eq_refl)) as [result' [Hres' Hv']].
          congruence. }
  destruct (G formulas 0 []) as [errors [Hfold Hiff]].
  unfold mapi. rewrite Hfold. simpl.
  eexists. split; [reflexivity|]. simpl.
  assert (Hlen : (Z.of_nat (List.length errors) =? 0) = true <-> errors = []).
  { destruct errors; simpl; split; try reflexivity; discriminate. }
  split; [exact Hlen|].
  rewrite Hlen, Hiff. split.
  - intros [_ Hall]. split; [discriminate|exact Hall].
  - intros [_ Hall]. split; [reflexivity|exact Hall].
Qed.

End FormulaValidation.


(** ** Pivot columns, null space and integer scaling *)

Lemma safe_Ok {A} (m : Exc A) (P : A -> Prop) (a : A) :
  safe m P -> m = Ok a -> P a.
Proof. intros H ->. exact H. Qed.

Lemma safeT_Ok {A} (m : Traced A) (P : A -> Prop) (trace : list Text) (a : A)
      (trace' : list Text) :
  safeT m P -> m trace = (Ok a, trace') -> P a.
Proof. intros H E. specialize (H trace). rewrite E in H. exact H. Qed.

Lemma safe_and {A} (m : Exc A) (P Q : A -> Prop) :
  safe m P -> safe m Q -> safe m (fun a => P a /\ Q a).
Proof. destruct m; simpl; auto. Qed.

Lemma mapM_length {A B} (f : A -> Exc B) (l : list A) (ys : list B) :
  mapM f l = Ok ys -> List.length ys = List.length l.
Proof.
  revert ys. induction l as [|x l IH]; intros ys; simpl.
  - now intros [= <-].
  - destruct (f x) as [y| |]; simpl; try discriminate.
    destruct (mapM f l) as [ys'| |]; simpl; try discriminate.
    intros [= <-]. simpl. f_equal. now apply IH.
Qed.

Lemma mapM_Forall {A B} (f : A -> Exc B) (P : B -> Prop) (l : list A) :
  (forall x, safe (f x) P) -> safe (mapM f l) (Forall P).
Proof. intros H. apply safe_mapM. intros x _. apply H. Qed.





(** ** The pivot columns *)



(** ** The null space *)






(** ** Scaling the solution to integers *)







(** ** The shape of the matrix *)

Section AlgebraicCoefficients.

Variable periodicTable : list str.

Lemma buildElementMatrix_rows (equation : ChemicalEquation.t)
      (built : ElementMatrix.t) :
  buildElementMatrix periodicTable equation = Ok built ->
  Forall (fun row =>
            List.length row
            = List.length (ChemicalEquation.reactants equation
                           ++ ChemicalEquation.products equation))
         (ElementMatrix.matrix built)
  /\ List.length (ElementMatrix.matrix built)
     = List.length (ElementMatrix.elements built).
Proof.
  unfold buildElementMatrix. intros H.
  apply bind_inv in H as [[elementSet compoundElements] [Hfold H]].
  apply bind_inv in H as [[matrix steps] [Hrows H]].
  injection H as <-. simpl.
  assert (Hlen : List.length compoundElements
                 = List.length (ChemicalEquation.reactants equation
                                ++ ChemicalEquation.products equation)).
  { revert Hfold.
    generalize (ChemicalEquation.reactants equation
                ++ ChemicalEquation.products equation).
    intros l Hfold.
    assert (G : forall l state result,
               foldM (fun '(elementSet, compoundElements) compound =>
                        parsed <- parseChemicalFormula periodicTable
                                    (EquationCompound.formula compound) ;;
                        if negb (ParsedFormula.isValid parsed)
                        then Throw (newError [Lit "No se pudo parsear: ";
                                              Sub (EquationCompound.formula compound)])
                        else
                          let '(elementsDict, elementSet) :=
                            fold_left
                              (fun '(elementsDict, elementSet) element =>
                                 (dict_set elementsDict (ParsedElement.symbol element)
                                           (ParsedElement.count element),
                                  setAdd elementSet (ParsedElement.symbol element)))
                              (ParsedFormula.elements parsed) ([], elementSet) in
                          ret (elementSet, compoundElements ++ [elementsDict]))
                     state l = Ok result ->
               List.length (snd result)
               = (List.length (snd state) + List.length l)%nat).
    { clear. induction l as [|c l IH]; intros [set0 ce0] result; simpl.
      - intros [= <-]. simpl. lia.
      - intros Hf. apply bind_inv in Hf as [[set1 ce1] [Hstep Hf]].
        apply IH in Hf. rewrite Hf. simpl.
        apply bind_inv in Hstep as [parsed [_ Hstep]].
        destruct (negb _); [discriminate|].
        match type of Hstep with
        | match ?x with _ => _ end = _ => destruct x as [d s]
        end.
        unfold ret in Hstep. injection Hstep as _ <-.
        rewrite length_app. simpl. lia. }
    apply G in Hfold. simpl in Hfold. exact Hfold. }
  revert Hrows. generalize (sortStrings elementSet). intros elements Hrows.
  assert (G : forall elements state result,
             foldM (fun '(matrix, steps) element =>
                      reactantCells <-
                        mapM (fun elementsDict =>
                                RobustFraction.of_int
                                  (dict_get_or_0 elementsDict element))
                             (firstn (List.length (ChemicalEquation.reactants equation))
                                     compoundElements) ;;
                      productCells <-
                        mapM (fun elementsDict =>
                                RobustFraction.of_int
                                  (- dict_get_or_0 elementsDict element))
                             (skipn (List.length (ChemicalEquation.reactants equation))
                                    compoundElements) ;;
                      let row := reactantCells ++ productCells in
                      let rowStr := join [Lit "  "] (map RobustFraction.toString row) in
                      ret (matrix ++ [row],
                           steps ++ [[Sub element; Lit ": ["] ++ rowStr
                                     ++ [Lit "] = 0"]]))
                   state elements = Ok result ->
             Forall (fun row => List.length row = List.length compoundElements)
                    (fst state) ->
             Forall (fun row => List.length row = List.length compoundElements)
                    (fst result)
             /\ List.length (fst result)
                = (List.length (fst state) + List.length elements)%nat).
  { clear. induction elements as [|e l IH]; intros [m0 s0] result; simpl.
    - intros [= <-] H. simpl. split; [assumption|lia].
    - intros Hf Hall. apply bind_inv in Hf as [[m1 s1] [Hstep Hf]].
      apply bind_inv in Hstep as [reactantCells [Hr Hstep]].
      apply bind_inv in Hstep as [productCells [Hp Hstep]].
      apply mapM_length in Hr. apply mapM_length in Hp.
      unfold ret in Hstep. injection Hstep as <- _.
      destruct (IH _ _ Hf) as [H1 H2].
      + simpl. apply Forall_app. split; [assumption|].
        constructor; [|constructor].
        rewrite length_app, Hr, Hp, <- length_app, firstn_skipn. reflexivity.
      + split; [assumption|]. rewrite H2. simpl. rewrite length_app. simpl. lia. }
  destruct (G _ _ _ Hrows (Forall_nil _)) as [H1 H2]. simpl in H1, H2.
  rewrite <- Hlen. split; assumption.
Qed.

End AlgebraicCoefficients.


(** ** The coefficients of the algebraic method *)

Section AlgebraicStages.

Variable periodicTable : list str.



End AlgebraicStages.


(** ** The rank of the elimination *)

Lemma eliminate_rank (rows cols : nat) (columns : list nat) :
  forall workMatrix pivotCols currentRow,
    safeT (eliminate rows cols columns workMatrix pivotCols currentRow)
          (fun r => (List.length (snd r) + currentRow
                     <= List.length pivotCols + Nat.max rows currentRow)%nat).
Proof.
  induction columns as [|col columns IH]; intros workMatrix pivotCols currentRow;
    simpl.
  { apply safeT_ret. simpl. lia. }
  destruct (Nat.ltb_spec currentRow rows) as [Hlt|Hge]; simpl;
    [|apply safeT_ret; simpl; lia].
  eapply safeT_bind; [apply safeT_lift, findPivot_safe|].
  intros [bestPivotRow bestPivotValue] _.
  destruct bestPivotRow as [bestPivotRow|]; [|apply IH].
  destruct (RobustFraction.isZero bestPivotValue); [apply IH|].
  eapply safeT_bind; [apply safeT_lift, cell_safe|]. intros pivotValue _.
  eapply safeT_bind with (P := any).
  - destruct (negb (RobustFraction.isOne pivotValue)); [|now apply safeT_ret].
    eapply safeT_bind; [apply safeT_lift, normalizeRow_safe|]. intros m _.
    eapply safeT_bind; [apply safeT_push|]. intros _ _. now apply safeT_ret.
  - intros m _.
    eapply safeT_bind; [apply eliminateColumn_safe|]. intros m' _.
    eapply safeT_weaken; [apply IH|].
    intros [m'' pc']. simpl. rewrite length_app. simpl. lia.
Qed.

Lemma gaussianEliminationRobust_rank (matrix : Matrix) :
  safeT (gaussianEliminationRobust matrix)
        (fun eliminated => (Elimination.rank eliminated <= List.length matrix)%nat).
Proof.
  unfold gaussianEliminationRobust. destruct matrix as [|firstRow matrix].
  { apply safeT_lift. exact I. }
  eapply safeT_bind with (P := any).
  { apply safeT_lift. eapply safe_weaken; [apply safe_mapM with (P := any)|].
    - intros row _.
      eapply safe_weaken; [apply safe_mapM with (P := any)|intros; exact I].
      intros f _. eapply safe_weaken; [apply new_safe | intros; exact I].
    - intros; exact I. }
  intros workMatrix _.
  eapply safeT_bind; [apply eliminate_rank|].
  intros [workMatrix' pivotCols] Hlen. apply safeT_ret. simpl in *. lia.
Qed.

Section MatrixElements.

Variable periodicTable : list str.

Lemma buildElementMatrix_getAllElements (equation : ChemicalEquation.t)
      (built : ElementMatrix.t) :
  buildElementMatrix periodicTable equation = Ok built ->
  getAllElements periodicTable
    (ChemicalEquation.reactants equation ++ ChemicalEquation.products equation)
  = Ok (ElementMatrix.elements built).
Proof.
  unfold buildElementMatrix, getAllElements. intros H.
  apply bind_inv in H as [[elementSet compoundElements] [Hfold H]].
  apply bind_inv in H as [[matrix steps] [_ H]].
  injection H as <-. simpl.
  revert Hfold.
  generalize (ChemicalEquation.reactants equation
              ++ ChemicalEquation.products equation).
  intros l Hfold.
  assert (G : forall l set0 ce0,
             foldM (fun '(elementSet, compoundElements) compound =>
                      parsed <- parseChemicalFormula periodicTable
                                  (EquationCompound.formula compound) ;;
                      if negb (ParsedFormula.isValid parsed)
                      then Throw (newError [Lit "No se pudo parsear: ";
                                            Sub (EquationCompound.formula compound)])
                      else
                        let '(elementsDict, elementSet) :=
                          fold_left
                            (fun '(elementsDict, elementSet) element =>
                               (dict_set elementsDict (ParsedElement.symbol element)
                                         (ParsedElement.count element),
                                setAdd elementSet (ParsedElement.symbol element)))
                            (ParsedFormula.elements parsed) ([], elementSet) in
                        ret (elementSet, compoundElements ++ [elementsDict]))
                   (set0, ce0) l = Ok (elementSet, compoundElements) ->
             foldM (fun elementSet compound =>
                      parsed <- parseChemicalFormula periodicTable
                                  (EquationCompound.formula compound) ;;
                      if ParsedFormula.isValid parsed
                      then ret (fold_left
                                  (fun set element =>
                                     setAdd set (ParsedElement.symbol element))
                                  (ParsedFormula.elements parsed) elementSet)
                      else ret elementSet)
                   set0 l = Ok elementSet).
  { clear. induction l as [|c l IH]; intros set0 ce0; simpl.
    - now intros [= <- <-].
    - intros Hf. apply bind_inv in Hf as [[set1 ce1] [Hstep Hf]].
      apply bind_inv in Hstep as [parsed [Hparse Hstep]].
      rewrite Hparse. simpl.
      destruct (ParsedFormula.isValid parsed); simpl in Hstep; [|discriminate].
      simpl.
      match type of Hstep with
      | match ?x with _ => _ end = _ => destruct x as [d s] eqn:Hfl
      end.
      unfold ret in Hstep. injection Hstep as <- <-.
      assert (Es : s = fold_left
                         (fun set element => setAdd set (ParsedElement.symbol element))
                         (ParsedFormula.elements parsed) set0).
      { transitivity (snd (d, s)); [reflexivity|]. rewrite <- Hfl.
        assert (Hsnd : forall (els : list ParsedElement.t) (d0 : Dict) s0,
                   snd (fold_left
                          (fun '(elementsDict, elementSet) element =>
                             (dict_set elementsDict (ParsedElement.symbol element)
                                       (ParsedElement.count element),
                              setAdd elementSet (ParsedElement.symbol element)))
                          els (d0, s0))
                   = fold_left
                       (fun set element => setAdd set (ParsedElement.symbol element))
                       els s0).
        { induction els as [|e els IHe]; intros d0 s0; simpl;
            [reflexivity|apply IHe]. }
        apply Hsnd. }
      rewrite <- Es. eapply IH. exact Hf. }
  rewrite (G _ _ _ Hfold). reflexivity.
Qed.

Lemma algebraic_not_overdetermined (equation : ChemicalEquation.t)
      (result : BalanceResult.t) (allElements : list str) :
  balanceByAlgebraicMethodRobust periodicTable equation = Ok result ->
  getAllElements periodicTable
    (ChemicalEquation.reactants equation ++ ChemicalEquation.products equation)
  = Ok allElements ->
  (List.length allElements
   < List.length (ChemicalEquation.reactants equation
                  ++ ChemicalEquation.products equation))%nat ->
  BalanceResult.error result <> Some [Lit "Sistema sobredeterminado"].
Proof.
  unfold balanceByAlgebraicMethodRobust, tryT.
  match goal with
  | |- (let '(_, _) := ?body [] in _) = _ -> _ =>
    destruct (body []) as [[r|e|] trace] eqn:Hbody
  end; [|intros [= <-] _ _; simpl; destruct (name e); discriminate|discriminate].
  intros [= <-] Hall Hfew.
  apply bindT_inv in Hbody as [built [t1 [Hbuilt Hbody]]].
  apply liftT_inv in Hbuilt as [Hbuilt ->].
  apply bindT_inv in Hbody as [eliminated [t2 [Helim Hbody]]].
  pose proof (safeT_Ok _ _ _ _ _
                (gaussianEliminationRobust_rank (ElementMatrix.matrix built)) Helim)
    as Hrank.
  destruct (buildElementMatrix_rows periodicTable equation built Hbuilt)
    as [_ Hrows].
  rewrite (buildElementMatrix_getAllElements _ _ Hbuilt) in Hall.
  injection Hall as <-.
  rewrite (buildElementMatrix_compounds periodicTable equation built Hbuilt),
    length_map in Hbody.
  destruct (Nat.eqb_spec (Elimination.rank eliminated)
                         (List.length (ChemicalEquation.reactants equation
                                       ++ ChemicalEquation.products equation)));
    [cbv beta in Hrank; lia|].
  apply bindT_inv in Hbody as [fractionSolution [t3 [_ Hbody]]].
  apply bindT_inv in Hbody as [coefficients [t4 [_ Hbody]]].
  apply bindT_inv in Hbody as [isValid [t5 [_ Hbody]]].
  unfold bindT, getT, retT in Hbody.
  destruct isValid; simpl in Hbody; injection Hbody as <- _; discriminate.
Qed.

End MatrixElements.


(** ** Scaling, unit coefficients and refused equations *)

Lemma forallb_ext_in {A} (f g : A -> bool) (l : list A) :
  (forall x, In x l -> f x = g x) -> forallb f l = forallb g l.
Proof.
  induction l as [|x l IH]; intros H; simpl; [reflexivity|].
  rewrite H by now left. f_equal. apply IH. intros y Hy. apply H. now right.
Qed.

Lemma withCoefficients_ones (compounds : list EquationCompound.t) :
  (forall compound, In compound compounds ->
                    EquationCompound.coefficient compound = 1) ->
  withCoefficients compounds (ones (List.length compounds)) = compounds.
Proof.
  unfold withCoefficients, mapi. intros H.
  assert (G : forall (l : list EquationCompound.t) i coefficients,
             (forall compound, In compound l ->
                               EquationCompound.coefficient compound = 1) ->
             (forall k, (k < List.length l)%nat ->
                        coefficientAt coefficients (i + Z.of_nat k) = 1) ->
             mapi_from i
               (fun compound i =>
                  EquationCompound.make (EquationCompound.formula compound)
                                        (coefficientAt coefficients i)) l = l).
  { induction l as [|c l IH]; intros i coefficients Hone Hat; simpl; [reflexivity|].
    f_equal.
    - specialize (Hat O ltac:(simpl; lia)). rewrite Z.add_0_r in Hat. rewrite Hat.
      destruct c as [f k]. simpl. f_equal.
      symmetry. apply (Hone (EquationCompound.make f k)). now left.
    - apply IH; [intros x Hx; apply Hone; now right|].
      intros k Hk. specialize (Hat (S k) ltac:(simpl; lia)).
      rewrite Nat2Z.inj_succ in Hat.
      now replace (i + 1 + Z.of_nat k) with (i + Z.succ (Z.of_nat k)) by lia. }
  apply G; [assumption|].
  intros k Hk. unfold coefficientAt, ones. simpl. rewrite Nat2Z.id.
  apply nth_repeat_lt. exact Hk.
Qed.

Lemma gcd_all_ones (l : list Z) :
  (forall c, In c l -> c = 1) -> Helpers.gcd l = Ok 1.
Proof.
  intros H. destruct l as [|x l]; [reflexivity|].
  rewrite gcd_spec by discriminate. f_equal.
  simpl. rewrite (H x) by now left. apply Z.gcd_1_l.
Qed.

Section Scaling.

Variable periodicTable : list str.

Lemma checkBalance_scale (reactants products : list EquationCompound.t)
      (reactantCoeffs productCoeffs : list Z) (allElements : list str) (k : Z) :
  k <> 0 ->
  checkBalance periodicTable reactants products
               (map (Z.mul k) reactantCoeffs) (map (Z.mul k) productCoeffs)
               allElements
  = checkBalance periodicTable reactants products reactantCoeffs productCoeffs
                 allElements.
Proof.
  intros Hk. unfold checkBalance. rewrite !checkBalance_loop_spec. f_equal.
  apply forallb_ext_in. intros element _.
  rewrite !sideAtoms_withCoefficients, !weightedAtoms_scale.
  destruct (Z.eqb_spec (weightedAtoms periodicTable reactants reactantCoeffs 0 element)
                       (weightedAtoms periodicTable products productCoeffs 0 element))
    as [->|Hne].
  - apply Z.eqb_refl.
  - apply Z.eqb_neq. intros E. apply Hne. now apply Z.mul_reg_l in E.
Qed.

Lemma trial_and_error_unit_input
      (equation : ChemicalEquation.t) (maxIterations : Z) (result : BalanceResult.t) :
  let reactants := ChemicalEquation.reactants equation in
  let products := ChemicalEquation.products equation in
  (forall compound, In compound (reactants ++ products) ->
                    EquationCompound.coefficient compound = 1) ->
  balanceByTrialAndError periodicTable equation maxIterations = Ok result ->
  BalanceResult.isValid result = true ->
  (forall element,
      countElementInSide periodicTable
        (BalanceResult.balancedReactants result) element
      = countElementInSide periodicTable
          (BalanceResult.balancedProducts result) element)
  /\ (forall c, In c (coefficientVector result) -> 1 <= c <= 15)
  /\ Helpers.gcd (coefficientVector result) = Ok 1
  /\ map EquationCompound.formula (BalanceResult.balancedReactants result)
     = map EquationCompound.formula reactants
  /\ map EquationCompound.formula (BalanceResult.balancedProducts result)
     = map EquationCompound.formula products.
Proof.
  intros reactants products Hunit Hrun Hvalid.
  unfold balanceByTrialAndError in Hrun. fold reactants products in Hrun.
  destruct (getAllElements_spec periodicTable (reactants ++ products))
    as [allElements [Hall [_ Hmem]]].
  rewrite Hall in Hrun. simpl in Hrun.
  assert (Hcover : forall compound element,
             In compound (reactants ++ products) ->
             atomsOf periodicTable (EquationCompound.formula compound) element <> 0 ->
             In element allElements).
  { intros compound element Hc Ha. apply Hmem. exists compound. split; [assumption|].
    pose proof (atomsOf_nonneg periodicTable
                  (EquationCompound.formula compound) element). lia. }
  apply bind_inv in Hrun as [balanced [Hbal Hrun]].
  destruct balanced.
  - injection Hrun as <-. simpl.
    assert (Hr : withCoefficients reactants (ones (List.length reactants)) = reactants).
    { apply withCoefficients_ones. intros c Hc. apply Hunit. apply in_or_app. now left. }
    assert (Hp : withCoefficients products (ones (List.length products)) = products).
    { apply withCoefficients_ones. intros c Hc. apply Hunit. apply in_or_app. now right. }
    assert (Hone : forall c, In c (map EquationCompound.coefficient
                                       (reactants ++ products)) -> c = 1).
    { intros c Hc. apply in_map_iff in Hc as [compound [<- Hc]]. now apply Hunit. }
    unfold coefficientVector. cbn [BalanceResult.balancedReactants
                                     BalanceResult.balancedProducts].
    split.
    { intros element. rewrite !countElementInSide_spec. f_equal.
      rewrite <- Hr at 1. rewrite <- Hp at 1.
      rewrite !sideAtoms_withCoefficients.
      eapply checkBalance_true; eassumption. }
    split; [intros c Hc; rewrite (Hone c Hc); lia|].
    split; [now apply gcd_all_ones|]. now split.
  - destruct (search_valid_result periodicTable equation allElements _ _ _ result
                Hcover Hrun Hvalid) as [Hcons [Hrange [Hgcd Hformulas]]].
    split; [intros element; rewrite !countElementInSide_spec; f_equal; apply Hcons|].
    split; [exact Hrange|]. split; [exact Hgcd|exact Hformulas].
Qed.


Lemma balanceChemicalEquation_blank (input : BalanceInput.t) :
  isEmptyString (BalanceInput.equation input)
  || (JS.length (trim (BalanceInput.equation input)) =? 0) = true ->
  balanceChemicalEquation periodicTable input
  = Ok (BalanceResult.make (ChemicalEquation.make [] []) [] [] []
          match BalanceInput.method input with
          | Some method => method
          | None => trial_and_error
          end
          [] false (Some [Lit "La ecuación no puede estar vacía"])).
Proof.
  intros H. unfold balanceChemicalEquation, parseChemicalEquation,
              validateChemicalEquation.
  rewrite H. reflexivity.
Qed.

Lemma balanceChemicalEquation_arrowless (input : BalanceInput.t) :
  isEmptyString (BalanceInput.equation input)
  || (JS.length (trim (BalanceInput.equation input)) =? 0) = false ->
  includes (BalanceInput.equation input) arrowGlyph = false ->
  includes (BalanceInput.equation input) arrowAscii = false ->
  includes (BalanceInput.equation input) arrowEquals = false ->
  balanceChemicalEquation periodicTable input
  = Ok (BalanceResult.make (ChemicalEquation.make [] []) [] [] []
          match BalanceInput.method input with
          | Some method => method
          | None => trial_and_error
          end
          [] false
          (Some [Lit "La ecuación debe contener un símbolo de reacción (→, ->, =)"])).
Proof.
  intros H H1 H2 H3. unfold balanceChemicalEquation, parseChemicalEquation,
                       validateChemicalEquation.
  rewrite H. cbn [find]. rewrite H1, H2, H3. reflexivity.
Qed.

End Scaling.

(** ** Properties of the helper functions *)

(** X1. [gcd] of a non-empty list returns the greatest common divisor of
    its members: a non-negative number that divides every member and that
    every common divisor divides. *)
Theorem gcd_is_greatest_common_divisor (numbers : list Z) :
  numbers <> [] ->
  exists g,
    Helpers.gcd numbers = Ok g
    /\ 0 <= g
    /\ (forall n, In n numbers -> (g | n))
    /\ (forall d, (forall n, In n numbers -> (d | n)) -> (d | g)).
Proof.
  intros H. exists (gcdOfList numbers).
  split; [now apply gcd_spec|].
  split; [apply gcdOfList_nonneg|].
  split; [apply gcdOfList_divide|apply gcdOfList_greatest].
Qed.

(** X1 on 12, -18, 30. *)
Lemma gcd_is_greatest_common_divisor_witness :
  exists g,
    Helpers.gcd [12; -18; 30] = Ok g
    /\ 0 <= g
    /\ (forall n, In n [12; -18; 30] -> (g | n))
    /\ (forall d, (forall n, In n [12; -18; 30] -> (d | n)) -> (d | g)).
Proof. apply (gcd_is_greatest_common_divisor [12; -18; 30]). discriminate. Defined.



(** X3. [simplifyCoefficients] on coefficients that are not all zero
    divides every one of them by the same positive number and leaves
    coefficients whose [gcd] is 1. *)
Theorem simplifyCoefficients_is_primitive (coefficients : list Z) :
  (exists c, In c coefficients /\ c <> 0) ->
  exists g simplified,
    simplifyCoefficients coefficients = Ok simplified
    /\ 0 < g
    /\ coefficients = map (Z.mul g) simplified
    /\ Helpers.gcd simplified = Ok 1.
Proof.
  intros H. destruct (simplifyCoefficients_spec coefficients H)
    as [g [simplified [E [_ [Hg [_ [Hmul Hone]]]]]]].
  exists g, simplified. repeat split; try assumption.
  rewrite gcd_spec, Hone; [reflexivity|].
  destruct H as [c [Hc _]]. intros ->. rewrite Hmul in Hc. contradiction.
Qed.

(** X3 on 4, 6, 2. *)
Lemma simplifyCoefficients_is_primitive_witness :
  exists g simplified,
    simplifyCoefficients [4; 6; 2] = Ok simplified
    /\ 0 < g
    /\ [4; 6; 2] = map (Z.mul g) simplified
    /\ Helpers.gcd simplified = Ok 1.
Proof.
  apply (simplifyCoefficients_is_primitive [4; 6; 2]).
  exists 4. split; [now left|lia].
Defined.

(** X4. [getNextCombination] is the successor of an odometer over the
    digits 1 to [maxCoeff]: on coefficients within that range the array
    keeps its length and its range; when the call answers [true] the rank
    of the combination has grown by exactly 1; it answers [false] exactly
    when every coefficient is [maxCoeff], and then it leaves every
    coefficient at 1. *)
Theorem getNextCombination_is_odometer (coefficients : list Z) (maxCoeff : Z) :
  (forall c, In c coefficients -> 1 <= c <= maxCoeff) ->
  let '(advanced, next) := getNextCombination coefficients maxCoeff in
  List.length next = List.length coefficients
  /\ (forall c, In c next -> 1 <= c <= maxCoeff)
  /\ (advanced = true ->
      odometerValue maxCoeff next = odometerValue maxCoeff coefficients + 1)
  /\ (advanced = false <-> forall c, In c coefficients -> c = maxCoeff)
  /\ (advanced = false -> next = ones (List.length coefficients)).
Proof.
  intros Hrange.
  pose proof (getNextCombination_spec maxCoeff coefficients Hrange) as H.
  destruct (getNextCombination coefficients maxCoeff) as [advanced next].
  destruct H as [Hlen [Hnext [Htrue [Hfalse Hall]]]].
  split; [assumption|]. split; [assumption|]. split; [assumption|].
  split; [split; [intros E; now apply Hfalse|exact Hall]|].
  intros E. now apply Hfalse.
Qed.

(** X4 on the combination 1, 15, 15 of the search, whose successor is
    2, 1, 1. *)
Lemma getNextCombination_is_odometer_witness :
  let '(advanced, next) := getNextCombination [1; 15; 15] 15 in
  List.length next = List.length [1; 15; 15]
  /\ (forall c, In c next -> 1 <= c <= 15)
  /\ (advanced = true ->
      odometerValue 15 next = odometerValue 15 [1; 15; 15] + 1)
  /\ (advanced = false <-> forall c, In c [1; 15; 15] -> c = 15)
  /\ (advanced = false -> next = ones (List.length [1; 15; 15])).
Proof.
  apply (getNextCombination_is_odometer [1; 15; 15] 15).
  intros c [<-|[<-|[<-|[]]]]; lia.
Defined.

(** ** Properties of the exact fractions *)





(** X7. The constructor gives equal rationals one representation: two
    calls with denominators that are not zero return the same fraction
    exactly when the cross products agree; and on the fraction it returns,
    [isZero] says that the numerator was zero and [isOne] that numerator
    and denominator were equal. *)
Theorem RobustFraction_canonical_form (n d n' d' : Z) :
  d <> 0 -> d' <> 0 ->
  (RobustFraction.new n d = RobustFraction.new n' d' <-> n * d' = n' * d)
  /\ exists f,
      RobustFraction.new n d = Ok f
      /\ RobustFraction.isZero f = (n =? 0)
      /\ RobustFraction.isOne f = (n =? d).
Proof.
  intros Hd Hd'. split; [now apply new_eq_iff|].
  destruct (new_returns n d Hd) as [f [Hf _]]. exists f.
  split; [assumption|]. now apply new_isZero_isOne.
Qed.

(** X7 on 6/(-4) and -9/6. *)
Lemma RobustFraction_canonical_form_witness :
  (RobustFraction.new 6 (-4) = RobustFraction.new (-9) 6 <-> 6 * 6 = -9 * -4)
  /\ exists f,
      RobustFraction.new 6 (-4) = Ok f
      /\ RobustFraction.isZero f = (6 =? 0)
      /\ RobustFraction.isOne f = (6 =? -4).
Proof. apply (RobustFraction_canonical_form 6 (-4) (-9) 6); lia. Defined.

(** ** Properties of the formula parser *)

(** X8. A formula that [parseChemicalFormula] accepts comes back trimmed,
    without an error, with 1 to 50 code units; no symbol occurs twice among
    its elements, every symbol is an element of the table, every count is
    between 1 and 1000, and so is not more than the total, which is at most
    1000. *)
Theorem parseChemicalFormula_valid_invariants
        (periodicTable : list str) (formula : str) (parsed : ParsedFormula.t) :
  parseChemicalFormula periodicTable formula = Ok parsed ->
  ParsedFormula.isValid parsed = true ->
  ParsedFormula.error parsed = None
  /\ ParsedFormula.formula parsed = trim formula
  /\ 1 <= JS.length (trim formula) <= 50
  /\ NoDup (map ParsedElement.symbol (ParsedFormula.elements parsed))
  /\ (forall element,
         In element (ParsedFormula.elements parsed) ->
         isValidElement periodicTable (ParsedElement.symbol element) = true
         /\ 1 <= ParsedElement.count element <= 1000)
  /\ sumZ (map ParsedElement.count (ParsedFormula.elements parsed)) <= 1000.
Proof.
  intros Hparse Hvalid.
  destruct (parseChemicalFormula_valid _ _ _ Hparse Hvalid)
    as [entries [[Hnd Hgood] [Hel [Htotal [Hformula [Herror [Hlen _]]]]]]].
  unfold totalCount in Htotal. rewrite sumZ_fold_left in Htotal.
  split; [assumption|]. split; [assumption|]. split; [assumption|].
  split; [rewrite Hel, toParsedElements_symbols; exact Hnd|].
  split; [|lia].
  intros element Hin.
  assert (Hone : forall x, In x (ParsedFormula.elements parsed) ->
                           isValidElement periodicTable (ParsedElement.symbol x) = true
                           /\ 1 <= ParsedElement.count x).
  { intros x Hx. rewrite Hel in Hx. apply toParsedElements_In in Hx.
    now apply Hgood in Hx. }
  destruct (Hone element Hin) as [Hsymbol Hcount].
  split; [assumption|]. split; [assumption|].
  pose proof (count_le_sumZ (ParsedFormula.elements parsed) element) as Hle.
  assert (ParsedElement.count element
          <= sumZ (map ParsedElement.count (ParsedFormula.elements parsed))).
  { apply Hle; [|assumption]. intros x Hx. apply Hone in Hx. lia. }
  lia.
Qed.

(** X8 on " Ca(OH)2 " with the table of the 118 elements. *)
Lemma parseChemicalFormula_valid_invariants_witness :
  NoDup (map ParsedElement.symbol
             [ParsedElement.make (lit "Ca") 1; ParsedElement.make (lit "O") 2;
              ParsedElement.make (lit "H") 2])
  /\ sumZ (map ParsedElement.count
               [ParsedElement.make (lit "Ca") 1; ParsedElement.make (lit "O") 2;
                ParsedElement.make (lit "H") 2]) <= 1000.
Proof.
  refine ((fun H => conj (proj1 (proj2 (proj2 (proj2 H))))
                         (proj2 (proj2 (proj2 (proj2 (proj2 H))))))
            (parseChemicalFormula_valid_invariants standardPeriodicTable
               (lit " Ca(OH)2 ")
               (ParsedFormula.make
                  [ParsedElement.make (lit "Ca") 1; ParsedElement.make (lit "O") 2;
                   ParsedElement.make (lit "H") 2]
                  (lit "Ca(OH)2") true None) _ _)).
  - vm_compute. reflexivity.
  - reflexivity.
Defined.

(** X9. When [tokenize] delivers tokens, their texts strung together are
    the formula without its white space, the text of every token fits its
    kind (an upper-case letter with at most one lower-case letter, a run of
    digits, one parenthesis), and the formula holds only letters, digits,
    parentheses and white space. *)
Theorem tokenize_round_trip (formula : str) :
  tokenize formula <> [] ->
  List.concat (map Token.value (tokenize formula)) = removeWhitespace formula
  /\ forallb tokenWellFormed (tokenize formula) = true
  /\ forallb isFormulaText formula = true.
Proof. apply tokenize_values. Qed.

(** X9 on "Ca (OH)2". *)
Lemma tokenize_round_trip_witness :
  List.concat (map Token.value (tokenize (lit "Ca (OH)2")))
  = removeWhitespace (lit "Ca (OH)2")
  /\ forallb tokenWellFormed (tokenize (lit "Ca (OH)2")) = true
  /\ forallb isFormulaText (lit "Ca (OH)2") = true.
Proof. apply (tokenize_round_trip (lit "Ca (OH)2")). vm_compute. discriminate. Defined.

(** X10. A formula of at most 50 code units, trimmed, that holds a code
    unit other than a letter, a digit, a parenthesis or white space is
    refused by [parseChemicalFormula] with the message of the incorrect
    syntax, whatever the table of the elements. *)
Theorem formula_with_foreign_character_is_rejected
        (periodicTable : list str) (formula : str) (c : char) :
  In c formula -> isFormulaChar c = false -> isWhitespace c = false ->
  JS.length (trim formula) <= VALIDATION_LIMITS.MAX_FORMULA_LENGTH ->
  parseChemicalFormula periodicTable formula
  = Ok (ParsedFormula.make [] (trim formula) false
          (Some ERROR_MESSAGES.PARSING.INVALID_SYNTAX)).
Proof. apply parseChemicalFormula_foreign. Qed.

(** X10 on "H2O!" and its exclamation mark. *)
Lemma formula_with_foreign_character_is_rejected_witness :
  parseChemicalFormula standardPeriodicTable (lit "H2O!")
  = Ok (ParsedFormula.make [] (trim (lit "H2O!")) false
          (Some ERROR_MESSAGES.PARSING.INVALID_SYNTAX)).
Proof.
  apply (formula_with_foreign_character_is_rejected standardPeriodicTable
           (lit "H2O!") 33%N).
  - vm_compute. tauto.
  - reflexivity.
  - reflexivity.
  - vm_compute. discriminate.
Defined.

(** X11. [normalizeFormula] is idempotent, and what it returns holds only
    letters, digits and parentheses. *)
Theorem normalizeFormula_idempotent (formula : str) :
  normalizeFormula (normalizeFormula formula) = normalizeFormula formula
  /\ forallb isFormulaChar (normalizeFormula formula) = true.
Proof. apply normalizeFormula_idem. Qed.

(** ** Properties of the queries on a formula *)

(** X12. [extractElements], [containsElement] and [getElementCount] agree
    on every formula: they return; no symbol is extracted twice and every
    extracted symbol is an element of the table; [containsElement] answers
    [true] exactly for the extracted symbols; and [getElementCount] is at
    least 1 for them and 0 for every other symbol. *)
Theorem formula_queries_agree (periodicTable : list str) (formula element : str) :
  exists elements contains count,
    extractElements periodicTable formula = Ok elements
    /\ containsElement periodicTable formula element = Ok contains
    /\ getElementCount periodicTable formula element = Ok count
    /\ NoDup elements
    /\ (forall symbol, In symbol elements ->
                       isValidElement periodicTable symbol = true)
    /\ (contains = true <-> In element elements)
    /\ (In element elements <-> 1 <= count)
    /\ (~ In element elements <-> count = 0).
Proof.
  destruct (queries_spec periodicTable formula)
    as [els [Hnd [Hgood [_ [Hextract [_ [Hcount _]]]]]]].
  exists (map ParsedElement.symbol els).
  exists (existsb (fun member => str_eqb member element)
                  (map ParsedElement.symbol els)).
  exists (countOf els element).
  split; [assumption|].
  split; [unfold containsElement; rewrite Hextract; reflexivity|].
  split; [apply Hcount|]. split; [assumption|].
  split.
  { intros symbol Hin. apply in_map_iff in Hin as [el [<- Hel]].
    now apply Hgood. }
  split; [apply existsb_member|].
  assert (Hin : In element (map ParsedElement.symbol els) -> 1 <= countOf els element).
  { intros Hin. apply in_map_iff in Hin as [el [<- Hel]].
    rewrite countOf_In by assumption. now apply Hgood. }
  assert (Hout : ~ In element (map ParsedElement.symbol els) ->
                 countOf els element = 0) by apply countOf_not_In.
  split; split; try assumption.
  - intros Hone.
    destruct (In_dec (list_eq_dec N.eq_dec) element (map ParsedElement.symbol els))
      as [H|H]; [assumption|]. apply Hout in H. lia.
  - intros Hzero H. apply Hin in H. lia.
Qed.

(** X12 on "H2O" and the symbol "O". *)
Lemma formula_queries_agree_witness :
  exists elements contains count,
    extractElements standardPeriodicTable (lit "H2O") = Ok elements
    /\ containsElement standardPeriodicTable (lit "H2O") (lit "O") = Ok contains
    /\ getElementCount standardPeriodicTable (lit "H2O") (lit "O") = Ok count
    /\ NoDup elements
    /\ (forall symbol, In symbol elements ->
                       isValidElement standardPeriodicTable symbol = true)
    /\ (contains = true <-> In (lit "O") elements)
    /\ (In (lit "O") elements <-> 1 <= count)
    /\ (~ In (lit "O") elements <-> count = 0).
Proof.
  apply (formula_queries_agree standardPeriodicTable (lit "H2O") (lit "O")).
Defined.

(** X13. [getTotalAtomCount] returns the sum of what [getElementCount]
    returns for the symbols that [extractElements] lists; the total is at
    least the number of those symbols and at most 1000. *)
Theorem getTotalAtomCount_is_sum (periodicTable : list str) (formula : str) :
  exists elements total,
    extractElements periodicTable formula = Ok elements
    /\ getTotalAtomCount periodicTable formula = Ok total
    /\ (forall element,
           getElementCount periodicTable formula element
           = Ok (atomsOf periodicTable formula element))
    /\ total = sumZ (map (atomsOf periodicTable formula) elements)
    /\ Z.of_nat (List.length elements) <= total <= 1000.
Proof.
  destruct (queries_spec periodicTable formula)
    as [els [Hnd [Hgood [Hlimit [Hextract [Htotal [Hcount _]]]]]]].
  exists (map ParsedElement.symbol els), (sumZ (map ParsedElement.count els)).
  split; [assumption|]. split; [assumption|].
  split; [apply getElementCount_returns|].
  split.
  - rewrite <- sumZ_countOf by assumption. f_equal. apply map_ext.
    intros symbol. symmetry. now apply atomsOf_countOf.
  - split; [|assumption]. rewrite length_map.
    clear - Hgood. induction els as [|el els IH]; simpl; [lia|].
    assert (1 <= ParsedElement.count el) by (apply Hgood; now left).
    assert (Z.of_nat (List.length els) <= sumZ (map ParsedElement.count els))
      by (apply IH; intros x Hx; apply Hgood; now right).
    lia.
Qed.

(** X13 on "Ca(OH)2". *)
Lemma getTotalAtomCount_is_sum_witness :
  exists elements total,
    extractElements standardPeriodicTable (lit "Ca(OH)2") = Ok elements
    /\ getTotalAtomCount standardPeriodicTable (lit "Ca(OH)2") = Ok total
    /\ (forall element,
           getElementCount standardPeriodicTable (lit "Ca(OH)2") element
           = Ok (atomsOf standardPeriodicTable (lit "Ca(OH)2") element))
    /\ total = sumZ (map (atomsOf standardPeriodicTable (lit "Ca(OH)2")) elements)
    /\ Z.of_nat (List.length elements) <= total <= 1000.
Proof. apply (getTotalAtomCount_is_sum standardPeriodicTable (lit "Ca(OH)2")). Defined.

(** X14. [multiplyFormula] returns no element for a coefficient that is
    not positive; for a positive coefficient it lists the symbols that
    [extractElements] lists, in the same order, each with the count of
    [getElementCount] times the coefficient. *)
Theorem multiplyFormula_scales
        (periodicTable : list str) (formula : str) (coefficient : Z) :
  exists elements multiplied,
    extractElements periodicTable formula = Ok elements
    /\ multiplyFormula periodicTable formula coefficient = Ok multiplied
    /\ (coefficient <= 0 -> multiplied = [])
    /\ (0 < coefficient ->
        map ParsedElement.symbol multiplied = elements
        /\ forall element,
            countOf multiplied element
            = atomsOf periodicTable formula element * coefficient).
Proof.
  destruct (queries_spec periodicTable formula)
    as [els [_ [_ [_ [Hextract [_ [Hcount Hmul]]]]]]].
  exists (map ParsedElement.symbol els). eexists.
  split; [assumption|]. split; [apply Hmul|].
  destruct (Z.leb_spec coefficient 0); split; try lia; try reflexivity.
  intros _. split.
  - rewrite map_map. reflexivity.
  - intros element. rewrite countOf_scaled. f_equal. symmetry.
    now apply atomsOf_countOf.
Qed.

(** X14 on "H2O" and the coefficient 3. *)
Lemma multiplyFormula_scales_witness :
  exists elements multiplied,
    extractElements standardPeriodicTable (lit "H2O") = Ok elements
    /\ multiplyFormula standardPeriodicTable (lit "H2O") 3 = Ok multiplied
    /\ map ParsedElement.symbol multiplied = elements
    /\ forall element,
        countOf multiplied element
        = atomsOf standardPeriodicTable (lit "H2O") element * 3.
Proof.
  destruct (multiplyFormula_scales standardPeriodicTable (lit "H2O") 3)
    as [elements [multiplied [Hextract [Hmul [_ Hscaled]]]]].
  exists elements, multiplied.
  split; [assumption|]. split; [assumption|]. apply Hscaled. lia.
Defined.

(** X15. On compounds without a negative coefficient [combineFormulas]
    returns; no symbol occurs twice in what it returns; and the count it
    gives a symbol is the count that [countElementInSide] finds for that
    element on a side made of the same compounds. *)
Theorem combineFormulas_counts_the_side
        (periodicTable : list str) (formulas : list EquationCompound.t) :
  (forall compound, In compound formulas ->
                    0 <= EquationCompound.coefficient compound) ->
  exists combined,
    combineFormulas periodicTable formulas = Ok combined
    /\ NoDup (map ParsedElement.symbol combined)
    /\ forall element,
        countElementInSide periodicTable formulas element
        = Ok (countOf combined element).
Proof.
  intros Hpos.
  destruct (combineFormulas_spec periodicTable formulas)
    as [combined [Hrun [Hnd Hcount]]].
  exists combined. split; [assumption|]. split; [assumption|].
  intros element. rewrite countElementInSide_spec, Hcount. f_equal.
  unfold sideAtoms. f_equal. apply map_ext_in. intros compound Hin.
  destruct (Z.leb_spec (EquationCompound.coefficient compound) 0); [|reflexivity].
  specialize (Hpos compound Hin).
  replace (EquationCompound.coefficient compound) with 0 by lia. lia.
Qed.

(** X15 on two molecules of water and one of carbon dioxide. *)
Lemma combineFormulas_counts_the_side_witness :
  exists combined,
    combineFormulas standardPeriodicTable
      [EquationCompound.make (lit "H2O") 2; EquationCompound.make (lit "CO2") 1]
    = Ok combined
    /\ NoDup (map ParsedElement.symbol combined)
    /\ forall element,
        countElementInSide standardPeriodicTable
          [EquationCompound.make (lit "H2O") 2; EquationCompound.make (lit "CO2") 1]
          element
        = Ok (countOf combined element).
Proof.
  apply (combineFormulas_counts_the_side standardPeriodicTable
           [EquationCompound.make (lit "H2O") 2; EquationCompound.make (lit "CO2") 1]).
  intros compound [<-|[<-|[]]]; simpl; lia.
Defined.

(** X16. [formulasHaveSameElements] returns, and it answers [true]
    exactly when [extractElements] lists the same symbols for the two
    formulas, in whatever order. *)
Theorem formulasHaveSameElements_iff
        (periodicTable : list str) (formula1 formula2 : str) :
  exists elements1 elements2 same,
    extractElements periodicTable formula1 = Ok elements1
    /\ extractElements periodicTable formula2 = Ok elements2
    /\ formulasHaveSameElements periodicTable formula1 formula2 = Ok same
    /\ (same = true <-> forall element, In element elements1 <-> In element elements2).
Proof. apply formulasHaveSameElements_spec. Qed.

(** X16 on "CH3OH" and "H2CO3". *)
Lemma formulasHaveSameElements_iff_witness :
  exists elements1 elements2 same,
    extractElements standardPeriodicTable (lit "CH3OH") = Ok elements1
    /\ extractElements standardPeriodicTable (lit "H2CO3") = Ok elements2
    /\ formulasHaveSameElements standardPeriodicTable (lit "CH3OH") (lit "H2CO3")
       = Ok same
    /\ (same = true <-> forall element, In element elements1 <-> In element elements2).
Proof.
  apply (formulasHaveSameElements_iff standardPeriodicTable
           (lit "CH3OH") (lit "H2CO3")).
Defined.

(** ** Properties of the validators *)

(** X17. [validateChemicalFormula] returns, and it reports either no error
    or exactly one: a formula is valid exactly when, trimmed, it passes
    [validateFormulaSyntax] and [parseChemicalFormula] accepts it; the
    checks of the single elements that follow never add an error. *)
Theorem validateChemicalFormula_reports_one_error
        (periodicTable : list str) (formula : str) :
  exists validation,
    validateChemicalFormula periodicTable formula = Ok validation
    /\ ((ValidationResult.isValid validation = true
         /\ ValidationResult.errors validation = []
         /\ validateFormulaSyntax (trim formula) = true
         /\ exists parsed,
             parseChemicalFormula periodicTable (trim formula) = Ok parsed
             /\ ParsedFormula.isValid parsed = true)
        \/ (ValidationResult.isValid validation = false
            /\ exists error, ValidationResult.errors validation = [error])).
Proof.
  destruct (validateChemicalFormula_returns periodicTable formula)
    as [validation [Hrun _]].
  exists validation. split; [assumption|].
  now apply validateChemicalFormula_spec.
Qed.

(** X17 on "H2O)". *)
Lemma validateChemicalFormula_reports_one_error_witness :
  exists validation,
    validateChemicalFormula standardPeriodicTable (lit "H2O)") = Ok validation
    /\ ((ValidationResult.isValid validation = true
         /\ ValidationResult.errors validation = []
         /\ validateFormulaSyntax (trim (lit "H2O)")) = true
         /\ exists parsed,
             parseChemicalFormula standardPeriodicTable (trim (lit "H2O)"))
             = Ok parsed
             /\ ParsedFormula.isValid parsed = true)
        \/ (ValidationResult.isValid validation = false
            /\ exists error, ValidationResult.errors validation = [error])).
Proof.
  apply (validateChemicalFormula_reports_one_error standardPeriodicTable (lit "H2O)")).
Defined.

(** X18. [validateMultipleFormulas] returns; its result is valid exactly
    when it carries no error, and exactly when the list is not empty and
    [validateChemicalFormula] finds every formula of it valid. *)
Theorem validateMultipleFormulas_valid_iff
        (periodicTable : list str) (formulas : list str) :
  exists validation,
    validateMultipleFormulas periodicTable formulas = Ok validation
    /\ (ValidationResult.isValid validation = true
        <-> ValidationResult.errors validation = [])
    /\ (ValidationResult.isValid validation = true
        <-> formulas <> []
            /\ forall formula,
                In formula formulas ->
                exists result,
                  validateChemicalFormula periodicTable formula = Ok result
                  /\ ValidationResult.isValid result = true).
Proof. apply validateMultipleFormulas_spec. Qed.

(** X18 on "H2O" and "Xx2". *)
Lemma validateMultipleFormulas_valid_iff_witness :
  exists validation,
    validateMultipleFormulas standardPeriodicTable [lit "H2O"; lit "Xx2"]
    = Ok validation
    /\ (ValidationResult.isValid validation = true
        <-> ValidationResult.errors validation = [])
    /\ (ValidationResult.isValid validation = true
        <-> [lit "H2O"; lit "Xx2"] <> []
            /\ forall formula,
                In formula [lit "H2O"; lit "Xx2"] ->
                exists result,
                  validateChemicalFormula standardPeriodicTable formula = Ok result
                  /\ ValidationResult.isValid result = true).
Proof.
  apply (validateMultipleFormulas_valid_iff standardPeriodicTable
           [lit "H2O"; lit "Xx2"]).
Defined.

(** ** Properties of the parsed equation *)

(** X19. An equation that [parseChemicalEquation] accepts carries no
    error; every compound of it has a coefficient between 1 and 100 and a
    formula that [parseChemicalFormula] accepts; its [allElements] are
    what [getAllElements] returns for its compounds; and
    [validateChemicalEquation] finds the text valid. *)
Theorem parseChemicalEquation_valid_invariants
        (periodicTable : list str) (equation : str)
        (result : EquationParseResult.t) :
  parseChemicalEquation periodicTable equation = Ok result ->
  EquationParseResult.isValid result = true ->
  EquationParseResult.error result = None
  /\ Forall (goodCompound periodicTable)
            (EquationParseResult.reactants result
             ++ EquationParseResult.products result)
  /\ getAllElements periodicTable
       (EquationParseResult.reactants result ++ EquationParseResult.products result)
     = Ok (EquationParseResult.allElements result)
  /\ exists validation,
      validateChemicalEquation periodicTable equation = Ok validation
      /\ ValidationResult.isValid validation = true.
Proof. apply parseChemicalEquation_valid. Qed.

(** X19 on "2H2 + O2 = 2H2O". *)
Lemma parseChemicalEquation_valid_invariants_witness :
  Forall (goodCompound standardPeriodicTable)
         ([EquationCompound.make (lit "H2") 2; EquationCompound.make (lit "O2") 1]
          ++ [EquationCompound.make (lit "H2O") 2]).
Proof.
  refine (proj1 (proj2
            (parseChemicalEquation_valid_invariants standardPeriodicTable
               (lit "2H2 + O2 = 2H2O")
               (EquationParseResult.make
                  [EquationCompound.make (lit "H2") 2;
                   EquationCompound.make (lit "O2") 1]
                  [EquationCompound.make (lit "H2O") 2]
                  [lit "H"; lit "O"] true None) _ _))).
  - vm_compute. reflexivity.
  - reflexivity.
Defined.

(** X20. [getAllElements] returns the elements of the compounds in
    strictly ascending order of their code units, so without a repetition:
    a symbol is listed exactly when [getElementCount] is at least 1 for the
    formula of one of the compounds. *)
Theorem getAllElements_sorted_and_complete
        (periodicTable : list str) (compounds : list EquationCompound.t) :
  exists allElements,
    getAllElements periodicTable compounds = Ok allElements
    /\ strictlySorted allElements
    /\ forall element,
        In element allElements
        <-> exists compound count,
            In compound compounds
            /\ getElementCount periodicTable
                 (EquationCompound.formula compound) element = Ok count
            /\ 1 <= count.
Proof.
  destruct (getAllElements_spec periodicTable compounds)
    as [allElements [Hrun [Hsorted Hmem]]].
  exists allElements. split; [assumption|]. split; [assumption|].
  intros element. rewrite Hmem. split.
  - intros [compound [Hin Hcount]].
    exists compound, (atomsOf periodicTable (EquationCompound.formula compound)
                              element).
    split; [assumption|]. split; [apply getElementCount_returns|assumption].
  - intros [compound [count [Hin [Hrun' Hcount]]]].
    exists compound. split; [assumption|].
    rewrite getElementCount_returns in Hrun'. injection Hrun' as ->. exact Hcount.
Qed.

(** X20 on the compounds of "H2 + O2 = H2O". *)
Lemma getAllElements_sorted_and_complete_witness :
  exists allElements,
    getAllElements standardPeriodicTable
      [EquationCompound.make (lit "H2") 1; EquationCompound.make (lit "O2") 1;
       EquationCompound.make (lit "H2O") 1] = Ok allElements
    /\ strictlySorted allElements
    /\ forall element,
        In element allElements
        <-> exists compound count,
            In compound
               [EquationCompound.make (lit "H2") 1; EquationCompound.make (lit "O2") 1;
                EquationCompound.make (lit "H2O") 1]
            /\ getElementCount standardPeriodicTable
                 (EquationCompound.formula compound) element = Ok count
            /\ 1 <= count.
Proof.
  apply (getAllElements_sorted_and_complete standardPeriodicTable
           [EquationCompound.make (lit "H2") 1; EquationCompound.make (lit "O2") 1;
            EquationCompound.make (lit "H2O") 1]).
Defined.

(** ** Properties of the trial-and-error method *)

(** X21. The verdict of [checkBalance] does not change when all the
    coefficients are multiplied by the same number other than zero, which
    is why dividing a balanced combination by its greatest common divisor
    leaves it balanced. *)
Theorem checkBalance_is_scale_invariant
        (periodicTable : list str) (reactants products : list EquationCompound.t)
        (reactantCoeffs productCoeffs : list Z) (allElements : list str) (k : Z) :
  k <> 0 ->
  checkBalance periodicTable reactants products
               (map (Z.mul k) reactantCoeffs) (map (Z.mul k) productCoeffs)
               allElements
  = checkBalance periodicTable reactants products reactantCoeffs productCoeffs
                 allElements.
Proof. apply checkBalance_scale. Qed.

(** X21 on "H2 + O2 = H2O" with the coefficients 2, 1, 2 and the
    factor 3. *)
Lemma checkBalance_is_scale_invariant_witness :
  checkBalance standardPeriodicTable
    [EquationCompound.make (lit "H2") 1; EquationCompound.make (lit "O2") 1]
    [EquationCompound.make (lit "H2O") 1]
    (map (Z.mul 3) [2; 1]) (map (Z.mul 3) [2]) [lit "H"; lit "O"]
  = checkBalance standardPeriodicTable
      [EquationCompound.make (lit "H2") 1; EquationCompound.make (lit "O2") 1]
      [EquationCompound.make (lit "H2O") 1]
      [2; 1] [2] [lit "H"; lit "O"].
Proof.
  apply (checkBalance_is_scale_invariant standardPeriodicTable
           [EquationCompound.make (lit "H2") 1; EquationCompound.make (lit "O2") 1]
           [EquationCompound.make (lit "H2O") 1] [2; 1] [2] [lit "H"; lit "O"] 3).
  lia.
Defined.

(** X22. A valid result of [balanceByTrialAndError] is of one of two
    kinds. Either every element is conserved with all coefficients taken to
    be 1, and the result hands back the compounds of the input as they
    came. Or the result comes from the search: it conserves every element,
    its coefficients lie between 1 and 15 and have the [gcd] 1, and its
    compounds carry the formulas of the input in their order. *)
Theorem trial_and_error_valid_result
        (periodicTable : list str) (equation : ChemicalEquation.t)
        (maxIterations : Z) (result : BalanceResult.t) :
  let reactants := ChemicalEquation.reactants equation in
  let products := ChemicalEquation.products equation in
  balanceByTrialAndError periodicTable equation maxIterations = Ok result ->
  BalanceResult.isValid result = true ->
  ((forall element,
       countElementInSide periodicTable
         (withCoefficients reactants (ones (List.length reactants))) element
       = countElementInSide periodicTable
           (withCoefficients products (ones (List.length products))) element)
   /\ BalanceResult.balancedReactants result = reactants
   /\ BalanceResult.balancedProducts result = products)
  \/ ((forall element,
          countElementInSide periodicTable
            (BalanceResult.balancedReactants result) element
          = countElementInSide periodicTable
              (BalanceResult.balancedProducts result) element)
      /\ (forall c, In c (coefficientVector result) -> 1 <= c <= 15)
      /\ Helpers.gcd (coefficientVector result) = Ok 1
      /\ map EquationCompound.formula (BalanceResult.balancedReactants result)
         = map EquationCompound.formula reactants
      /\ map EquationCompound.formula (BalanceResult.balancedProducts result)
         = map EquationCompound.formula products).
Proof.
  intros reactants products Hrun Hvalid.
  unfold balanceByTrialAndError in Hrun. fold reactants products in Hrun.
  destruct (getAllElements_spec periodicTable (reactants ++ products))
    as [allElements [Hall [_ Hmem]]].
  rewrite Hall in Hrun. simpl in Hrun.
  assert (Hcover : forall compound element,
             In compound (reactants ++ products) ->
             atomsOf periodicTable (EquationCompound.formula compound) element <> 0 ->
             In element allElements).
  { intros compound element Hc Ha. apply Hmem. exists compound. split; [assumption|].
    pose proof (atomsOf_nonneg periodicTable
                  (EquationCompound.formula compound) element). lia. }
  apply bind_inv in Hrun as [balanced [Hbal Hrun]].
  destruct balanced.
  - left. injection Hrun as <-. simpl.
    split; [|split; reflexivity].
    intros element. rewrite !countElementInSide_spec, !sideAtoms_withCoefficients.
    f_equal. eapply checkBalance_true; eassumption.
  - right.
    destruct (search_valid_result periodicTable equation allElements _ _ _ result
                Hcover Hrun Hvalid) as [Hcons [Hrange [Hgcd Hformulas]]].
    split; [intros element; rewrite !countElementInSide_spec; f_equal; apply Hcons|].
    split; [exact Hrange|]. split; [exact Hgcd|exact Hformulas].
Qed.

(** X22 on "H2 + O2 = H2O", which the search balances. *)
Lemma trial_and_error_valid_result_witness :
  exists result,
    balanceByTrialAndError standardPeriodicTable
      (ChemicalEquation.make
         [EquationCompound.make (lit "H2") 1; EquationCompound.make (lit "O2") 1]
         [EquationCompound.make (lit "H2O") 1])
      defaultMaxIterations = Ok result
    /\ (((forall element,
             countElementInSide standardPeriodicTable
               (withCoefficients
                  [EquationCompound.make (lit "H2") 1;
                   EquationCompound.make (lit "O2") 1] (ones 2)) element
             = countElementInSide standardPeriodicTable
                 (withCoefficients [EquationCompound.make (lit "H2O") 1] (ones 1))
                 element)
         /\ BalanceResult.balancedReactants result
            = [EquationCompound.make (lit "H2") 1; EquationCompound.make (lit "O2") 1]
         /\ BalanceResult.balancedProducts result
            = [EquationCompound.make (lit "H2O") 1])
        \/ ((forall element,
                countElementInSide standardPeriodicTable
                  (BalanceResult.balancedReactants result) element
                = countElementInSide standardPeriodicTable
                    (BalanceResult.balancedProducts result) element)
            /\ (forall c, In c (coefficientVector result) -> 1 <= c <= 15)
            /\ Helpers.gcd (coefficientVector result) = Ok 1
            /\ map EquationCompound.formula (BalanceResult.balancedReactants result)
               = map EquationCompound.formula
                     [EquationCompound.make (lit "H2") 1;
                      EquationCompound.make (lit "O2") 1]
            /\ map EquationCompound.formula (BalanceResult.balancedProducts result)
               = map EquationCompound.formula
                     [EquationCompound.make (lit "H2O") 1])).
Proof.
  eexists. split.
  - vm_compute. reflexivity.
  - apply (trial_and_error_valid_result standardPeriodicTable
             (ChemicalEquation.make
                [EquationCompound.make (lit "H2") 1; EquationCompound.make (lit "O2") 1]
                [EquationCompound.make (lit "H2O") 1])
             defaultMaxIterations).
    + vm_compute. reflexivity.
    + reflexivity.
Defined.

(** X23. On an equation whose compounds all carry the coefficient 1, as
    an equation written without coefficients is parsed, every valid result
    of [balanceByTrialAndError] conserves every element, has coefficients
    between 1 and 15 whose [gcd] is 1, and carries the formulas of the
    input in their order. *)
Theorem trial_and_error_on_unit_coefficients
        (periodicTable : list str) (equation : ChemicalEquation.t)
        (maxIterations : Z) (result : BalanceResult.t) :
  let reactants := ChemicalEquation.reactants equation in
  let products := ChemicalEquation.products equation in
  (forall compound, In compound (reactants ++ products) ->
                    EquationCompound.coefficient compound = 1) ->
  balanceByTrialAndError periodicTable equation maxIterations = Ok result ->
  BalanceResult.isValid result = true ->
  (forall element,
      countElementInSide periodicTable
        (BalanceResult.balancedReactants result) element
      = countElementInSide periodicTable
          (BalanceResult.balancedProducts result) element)
  /\ (forall c, In c (coefficientVector result) -> 1 <= c <= 15)
  /\ Helpers.gcd (coefficientVector result) = Ok 1
  /\ map EquationCompound.formula (BalanceResult.balancedReactants result)
     = map EquationCompound.formula reactants
  /\ map EquationCompound.formula (BalanceResult.balancedProducts result)
     = map EquationCompound.formula products.
Proof. apply trial_and_error_unit_input. Qed.

(** X23 on "CH4 + O2 = CO2 + H2O". *)
Lemma trial_and_error_on_unit_coefficients_witness :
  exists result,
    balanceByTrialAndError standardPeriodicTable
      (ChemicalEquation.make
         [EquationCompound.make (lit "CH4") 1; EquationCompound.make (lit "O2") 1]
         [EquationCompound.make (lit "CO2") 1; EquationCompound.make (lit "H2O") 1])
      defaultMaxIterations = Ok result
    /\ (forall element,
           countElementInSide standardPeriodicTable
             (BalanceResult.balancedReactants result) element
           = countElementInSide standardPeriodicTable
               (BalanceResult.balancedProducts result) element)
    /\ (forall c, In c (coefficientVector result) -> 1 <= c <= 15)
    /\ Helpers.gcd (coefficientVector result) = Ok 1.
Proof.
  eexists. split.
  - vm_compute. reflexivity.
  - refine ((fun H => conj (proj1 H) (conj (proj1 (proj2 H))
                                           (proj1 (proj2 (proj2 H)))))
              (trial_and_error_on_unit_coefficients standardPeriodicTable
                 (ChemicalEquation.make
                    [EquationCompound.make (lit "CH4") 1;
                     EquationCompound.make (lit "O2") 1]
                    [EquationCompound.make (lit "CO2") 1;
                     EquationCompound.make (lit "H2O") 1])
                 defaultMaxIterations _ _ _ _)).
    + intros compound [<-|[<-|[<-|[<-|[]]]]]; reflexivity.
    + vm_compute. reflexivity.
    + reflexivity.
Defined.

(** ** Properties of the algebraic method *)







(** X27. [balanceByAlgebraicMethodRobust] never answers that the system
    is overdetermined when the equation has more compounds than
    [getAllElements] lists elements for them: the elimination finds at most
    one pivot for each element. *)
Theorem algebraic_not_overdetermined_with_spare_compounds
        (periodicTable : list str) (equation : ChemicalEquation.t)
        (result : BalanceResult.t) (allElements : list str) :
  balanceByAlgebraicMethodRobust periodicTable equation = Ok result ->
  getAllElements periodicTable
    (ChemicalEquation.reactants equation ++ ChemicalEquation.products equation)
  = Ok allElements ->
  (List.length allElements
   < List.length (ChemicalEquation.reactants equation
                  ++ ChemicalEquation.products equation))%nat ->
  BalanceResult.error result <> Some [Lit "Sistema sobredeterminado"].
Proof. apply algebraic_not_overdetermined. Qed.

(** X27 on "H2 + O2 = H2O": two elements, three compounds. *)
Lemma algebraic_not_overdetermined_with_spare_compounds_witness :
  exists result,
    balanceByAlgebraicMethodRobust standardPeriodicTable
      (ChemicalEquation.make
         [EquationCompound.make (lit "H2") 1; EquationCompound.make (lit "O2") 1]
         [EquationCompound.make (lit "H2O") 1]) = Ok result
    /\ BalanceResult.error result <> Some [Lit "Sistema sobredeterminado"].
Proof.
  eexists. split.
  - vm_compute. reflexivity.
  - apply (algebraic_not_overdetermined_with_spare_compounds standardPeriodicTable
             (ChemicalEquation.make
                [EquationCompound.make (lit "H2") 1; EquationCompound.make (lit "O2") 1]
                [EquationCompound.make (lit "H2O") 1])
             _ [lit "H"; lit "O"]).
    + vm_compute. reflexivity.
    + vm_compute. reflexivity.
    + simpl. lia.
Defined.

(** ** Properties of the check of a balanced equation *)





(** ** Equations that are refused before they are parsed *)

(** X30. Whatever the method, [balanceChemicalEquation] refuses a text
    that is empty or all white space, and a text with none of the three
    arrows: the result is invalid, names the reason, and carries neither
    compounds nor steps. *)
Theorem balanceChemicalEquation_refuses_blank_and_arrowless
        (periodicTable : list str) (input : BalanceInput.t) :
  let equation := BalanceInput.equation input in
  let method :=
    match BalanceInput.method input with
    | Some method => method
    | None => trial_and_error
    end in
  let refused (reason : Text) :=
    Ok (BalanceResult.make (ChemicalEquation.make [] []) [] [] [] method [] false
          (Some reason)) in
  (isEmptyString equation || (JS.length (trim equation) =? 0) = true ->
   balanceChemicalEquation periodicTable input
   = refused [Lit "La ecuación no puede estar vacía"])
  /\ (isEmptyString equation || (JS.length (trim equation) =? 0) = false ->
      includes equation arrowGlyph = false ->
      includes equation arrowAscii = false ->
      includes equation arrowEquals = false ->
      balanceChemicalEquation periodicTable input
      = refused [Lit "La ecuación debe contener un símbolo de reacción (→, ->, =)"]).
Proof.
  intros equation method refused. split.
  - apply balanceChemicalEquation_blank.
  - apply balanceChemicalEquation_arrowless.
Qed.

(** X30 on "H2 + O2 H2O", which has no arrow. *)
Lemma balanceChemicalEquation_refuses_blank_and_arrowless_witness :
  balanceChemicalEquation standardPeriodicTable (request "H2 + O2 H2O" algebraic)
  = Ok (BalanceResult.make (ChemicalEquation.make [] []) [] [] [] algebraic [] false
          (Some [Lit "La ecuación debe contener un símbolo de reacción (→, ->, =)"])).
Proof.
  apply (proj2 (balanceChemicalEquation_refuses_blank_and_arrowless
                  standardPeriodicTable (request "H2 + O2 H2O" algebraic)));
    vm_compute; reflexivity.
Defined.
